(** * MSCA wallet recovery: user operations, fee estimation and multisig packing

    A shallow embedding of [src/utils/blockchain.ts]: the construction of an
    ERC-4337 v0.7 user operation, the fee estimator, the ordered signing pass
    over the signers and the packing of the collected ECDSA signatures into
    the single signature field, and the ABI encoding of call data.

    Conventions of the embedding.
    - A JavaScript [bigint] is a [Z]; bigint division truncates ([Z.quot]).
    - A JavaScript [number] is an IEEE 754 binary64 value ([spec_float] with
      precision 53 and maximal exponent 1024); arithmetic on numbers is the
      rounding arithmetic of [SpecFloat].
    - A JavaScript string (hex data, addresses) is a [string].
    - An awaited call that can reject, and every [throw], is a [result]; the
      calls that leave the process are recorded in a trace of [event]s. *)

From Stdlib Require Import ZArith List String Ascii Bool Lia Permutation Sorted.
From Stdlib Require Import Floats.SpecFloat.
Import ListNotations.

Local Open Scope string_scope.
Local Open Scope list_scope.
Local Open Scope Z_scope.

Infix "+++" := String.append (right associativity, at level 60).

(* ================================================================== *)
(** ** Errors and results *)
(* ================================================================== *)

(** The ways a call of this module ends without a value.  The first three are
    the [logAndExit] sites of the source; the next four are exceptions thrown
    by the JavaScript runtime or by viem; [Rejected] is a rejected promise of
    an external collaborator (RPC transport, HTTP fetch, wallet). *)
Inductive error : Type :=
| UndeployedAccount            (* getPartialUserOp: nonce === 0 *)
| FeeFetchError                (* estimateUserOp: 'Error estimating fees per gas' *)
| InvalidConfig                (* estimateUserOp: 'Gas fees multiplier must be >= 1' *)
| RangeError                   (* BigInt(x) on a number that is not an integer *)
| SyntaxError                  (* BigInt(s) on a string that is no integer literal *)
| IntegerOutOfRangeError       (* viem numberToHex *)
| SizeExceedsPaddingSizeError  (* viem pad *)
| Rejected (reason : string).

Inductive result (A : Type) : Type :=
| Ok (a : A)
| Err (e : error).

Arguments Ok {A} a.
Arguments Err {A} e.

Definition rbind {A B : Type} (r : result A) (k : A -> result B) : result B :=
  match r with
  | Ok a => k a
  | Err e => Err e
  end.

Notation "'let*' x ':=' r 'in' k" := (rbind r (fun x => k))
  (at level 10, x name, r at level 100, k at level 200).

Definition is_ok {A : Type} (r : result A) : bool :=
  match r with Ok _ => true | Err _ => false end.

(* ================================================================== *)
(** ** JavaScript strings *)
(* ================================================================== *)

Fixpoint str_drop (n : nat) (s : string) : string :=
  match n, s with
  | O, _ => s
  | S _, EmptyString => EmptyString
  | S n', String _ s' => str_drop n' s'
  end.

Fixpoint str_take (n : nat) (s : string) : string :=
  match n, s with
  | O, _ => EmptyString
  | S _, EmptyString => EmptyString
  | S n', String c s' => String c (str_take n' s')
  end.

(** [s.slice(start, end)] for non-negative indices; [None] is an omitted
    (undefined) [end]. *)
Definition slice (s : string) (start : nat) (end_ : option nat) : string :=
  match end_ with
  | None => str_drop start s
  | Some e => str_take (e - start) (str_drop start s)
  end.

(** [s.replace('0x', '')]: the first occurrence of "0x" is removed. *)
Fixpoint replace_0x (s : string) : string :=
  match s with
  | EmptyString => EmptyString
  | String c s' =>
      match s' with
      | String c' s'' =>
          if (Ascii.eqb c "0" && Ascii.eqb c' "x")%bool then s''
          else String c (replace_0x s')
      | EmptyString => s
      end
  end.

(** [s.padStart(n, '0')]. *)
Definition padStart0 (n : nat) (s : string) : string :=
  string_of_list_ascii (repeat "0"%char (n - String.length s)) +++ s.

(** [pattern.repeat(n)]. *)
Fixpoint str_repeat (pattern : string) (n : nat) : string :=
  match n with
  | O => EmptyString
  | S n' => pattern +++ str_repeat pattern n'
  end.

(** White space of the JavaScript grammar, as far as it is ASCII. *)
Definition isWhiteSpace (c : ascii) : bool :=
  let n := N_of_ascii c in
  (N.eqb n 32 || N.eqb n 9 || N.eqb n 10 || N.eqb n 11 || N.eqb n 12 || N.eqb n 13)%bool.

Fixpoint trimStart (s : string) : string :=
  match s with
  | EmptyString => EmptyString
  | String c s' => if isWhiteSpace c then trimStart s' else s
  end.

Fixpoint trimEnd (s : string) : string :=
  match s with
  | EmptyString => EmptyString
  | String c s' =>
      match trimEnd s' with
      | EmptyString => if isWhiteSpace c then EmptyString else String c EmptyString
      | r => String c r
      end
  end.

(** The value of a digit in radix at most 16; both letter cases count. *)
Definition hexDigit (c : ascii) : option Z :=
  let n := Z.of_N (N_of_ascii c) in
  if ((48 <=? n) && (n <=? 57))%bool then Some (n - 48)
  else if ((97 <=? n) && (n <=? 102))%bool then Some (n - 87)
  else if ((65 <=? n) && (n <=? 70))%bool then Some (n - 55)
  else None.

Definition digitValue (radix : Z) (c : ascii) : option Z :=
  match hexDigit c with
  | Some d => if d <? radix then Some d else None
  | None => None
  end.

(** The longest prefix of [s] made of digits of [radix]: its value and the
    number of digits read. *)
Fixpoint digitsPrefix (radix : Z) (s : string) (acc : Z) (count : nat) : Z * nat :=
  match s with
  | EmptyString => (acc, count)
  | String c s' =>
      match digitValue radix c with
      | Some d => digitsPrefix radix s' (acc * radix + d) (S count)
      | None => (acc, count)
      end
  end.

(** All of [s] read as digits of [radix]; [None] when [s] is empty or holds
    another character. *)
Definition allDigits (radix : Z) (s : string) : option Z :=
  let '(v, n) := digitsPrefix radix s 0 0 in
  if (Nat.eqb n (String.length s) && negb (Nat.eqb n 0))%bool then Some v else None.

(** [BigInt(s)] on a string (StringToBigInt): surrounding white space is
    dropped, the empty string is zero, a literal is hexadecimal, octal or
    binary after its prefix and decimal, with an optional sign, otherwise. *)
Definition BigInt_of_string (s : string) : result Z :=
  let t := trimEnd (trimStart s) in
  let digits radix r :=
    match allDigits radix r with Some v => Ok v | None => Err SyntaxError end in
  match t with
  | EmptyString => Ok 0
  | String "0" (String "x" r) | String "0" (String "X" r) => digits 16 r
  | String "0" (String "o" r) | String "0" (String "O" r) => digits 8 r
  | String "0" (String "b" r) | String "0" (String "B" r) => digits 2 r
  | String "+" r => digits 10 r
  | String "-" r => let* v := digits 10 r in Ok (- v)
  | _ => digits 10 t
  end.

(** viem [hexToBigInt(hex)] without options is [BigInt(hex)]. *)
Definition hexToBigInt (hex : string) : result Z := BigInt_of_string hex.

(* ================================================================== *)
(** ** JavaScript numbers *)
(* ================================================================== *)

Definition prec : Z := 53.
Definition emax : Z := 1024.

Definition number : Type := spec_float.

Definition num_add : number -> number -> number := SFadd prec emax.
Definition num_sub : number -> number -> number := SFsub prec emax.
Definition num_mul : number -> number -> number := SFmul prec emax.
Definition num_lt : number -> number -> bool := SFltb.

(** The number nearest to an integer (ties to even), as a numeric literal or
    a conversion produces it. *)
Definition number_of_Z (z : Z) : number := binary_normalize prec emax z 0 false.

Definition NaN : number := S754_nan.

(** [Math.round(x)]: the integer nearest to [x], ties towards +infinity,
    computed exactly; a result of zero keeps the sign of [x]. *)
Definition Math_round (x : number) : number :=
  match x with
  | S754_finite s m e =>
      if 0 <=? e then x
      else
        let n := (2 * cond_Zopp s (Zpos m) + 2 ^ (- e)) / 2 ^ (- e + 1) in
        if n =? 0 then S754_zero s else number_of_Z n
  | _ => x
  end.

(** [BigInt(x)] on a number: the integer [x] is, a RangeError otherwise. *)
Definition BigInt_of_number (x : number) : result Z :=
  match x with
  | S754_zero _ => Ok 0
  | S754_finite s m e =>
      if 0 <=? e then Ok (cond_Zopp s (Zpos m * 2 ^ e))
      else if (Zpos m) mod 2 ^ (- e) =? 0 then Ok (cond_Zopp s (Zpos m / 2 ^ (- e)))
      else Err RangeError
  | _ => Err RangeError
  end.

(** [parseInt(s)] without a radix: leading white space and a sign are
    skipped, "0x" selects radix 16, and the longest prefix of digits is read;
    no digit at all is NaN. *)
Definition parseInt (s : string) : number :=
  let t := trimStart s in
  let '(neg, u) :=
    match t with
    | String "-" r => (true, r)
    | String "+" r => (false, r)
    | _ => (false, t)
    end in
  let '(radix, body) :=
    match u with
    | String "0" (String "x" r) | String "0" (String "X" r) => (16, r)
    | _ => (10, u)
    end in
  let '(v, n) := digitsPrefix radix body 0 0 in
  if Nat.eqb n 0 then NaN
  else if (v =? 0) then S754_zero neg
  else number_of_Z (if neg then - v else v).

(* ================================================================== *)
(** ** viem: hex encoding *)
(* ================================================================== *)

Definition hexChar (d : Z) : ascii :=
  ascii_of_N (Z.to_N (if d <? 10 then 48 + d else 87 + d)).

Fixpoint hexDigitsOf (fuel : nat) (z : Z) (acc : string) : string :=
  match fuel with
  | O => acc
  | S f =>
      if z <? 16 then String (hexChar z) acc
      else hexDigitsOf f (z / 16) (String (hexChar (z mod 16)) acc)
  end.

(** [z.toString(16)] for a non-negative bigint. *)
Definition toString16 (z : Z) : string :=
  hexDigitsOf (S (Z.to_nat (Z.log2 z))) z EmptyString.

(** viem [pad(hex, { size })] on a hex string (left padding). *)
Definition pad (hex_ : string) (size : nat) : result string :=
  let hex := replace_0x hex_ in
  if (size * 2 <? String.length hex)%nat then Err SizeExceedsPaddingSizeError
  else Ok ("0x" +++ padStart0 (size * 2) hex).

(** viem [numberToHex(value_, { size })] once [value_] is a bigint;
    [isNumber] tells whether the argument was a number, which bounds it by
    Number.MAX_SAFE_INTEGER when no size is given. *)
Definition numberToHex (value : Z) (isNumber : bool) (size : option nat) : result string :=
  let maxValue :=
    match size with
    | Some (S _ as sz) => Some (2 ^ (Z.of_nat sz * 8) - 1)
    | _ => if isNumber then Some (2 ^ 53 - 1) else None
    end in
  let tooBig := match maxValue with Some mx => (negb (mx =? 0) && (mx <? value))%bool | None => false end in
  if (tooBig || (value <? 0))%bool then Err IntegerOutOfRangeError
  else
    let hex := "0x" +++ toString16 value in
    match size with
    | Some (S _ as sz) => pad hex sz
    | _ => Ok hex
    end.

(** viem [toHex(v, { size })] on a number and on a bigint. *)
Definition toHex_number (v : number) (size : option nat) : result string :=
  let* value := BigInt_of_number v in numberToHex value true size.

Definition toHex_bigint (v : Z) (size : option nat) : result string :=
  numberToHex v false size.

(** viem [concatHex(values)] (and [concat] on hex strings). *)
Definition concatHex (values : list string) : string :=
  "0x" +++ fold_left (fun acc x => acc +++ replace_0x x) values EmptyString.


(* ================================================================== *)
(** ** Data model *)
(* ================================================================== *)

Definition Address : Type := string.
Definition Hex : Type := string.

(** permissionless [UserOperation<"v0.7">], the fields this module reads or
    writes. *)
Record UserOperation : Type := {
  sender : Address;
  nonce : Z;
  factory : option Address;
  factoryData : option Hex;
  callData : Hex;
  maxPriorityFeePerGas : Z;
  maxFeePerGas : Z;
  callGasLimit : Z;
  verificationGasLimit : Z;
  preVerificationGas : Z;
  signature : Hex
}.

(** The object handed to the entry point's [getUserOpHash]. *)
Record PackedUserOperation : Type := {
  packed_sender : Address;
  packed_nonce : Z;
  packed_callData : Hex;
  packed_accountGasLimits : Hex;
  packed_initCode : Hex;
  packed_preVerificationGas : Z;
  packed_gasFees : Hex;
  packed_paymasterAndData : Hex;
  packed_signature : Hex
}.

Record Signer : Type := {
  address : Address;
  privateKey : string
}.

(** An element of the [signatures] array. *)
Record SignatureEntry : Type := {
  sig_signer : Address;
  sig_signature : string;
  sig_userOpSigType : option string
}.

(** What the bundler's gas estimation answers. *)
Record GasLimits : Type := {
  est_callGasLimit : Z;
  est_verificationGasLimit : Z;
  est_preVerificationGas : Z
}.

(** What the fee oracle answers; a field may be undefined. *)
Record FeesPerGas : Type := {
  fees_maxFeePerGas : option Z;
  fees_maxPriorityFeePerGas : option Z
}.

(** The JSON body of the provider's answer to [rundler_maxPriorityFeePerGas]:
    an object whose [result] member is absent or a string. *)
Record AlchemyResponse : Type := {
  response_result : option string
}.

Definition with_signature (u : UserOperation) (s : Hex) : UserOperation :=
  {| sender := sender u; nonce := nonce u; factory := factory u;
     factoryData := factoryData u; callData := callData u;
     maxPriorityFeePerGas := maxPriorityFeePerGas u;
     maxFeePerGas := maxFeePerGas u; callGasLimit := callGasLimit u;
     verificationGasLimit := verificationGasLimit u;
     preVerificationGas := preVerificationGas u; signature := s |}.

(* ================================================================== *)
(** ** External collaborators and the trace of calls *)
(* ================================================================== *)

(** A call that leaves the process (a network request) or reaches the
    wallet. *)
Inductive event : Type :=
| EvGetAccountNonce (who : Address)
| EvEstimateFeesPerGas
| EvFetchMinPriorityFee (url : string)
| EvEstimateUserOperationGas (u : UserOperation)
| EvGetUserOpHash (p : PackedUserOperation)
| EvSignMessage (key : string) (hash : Hex).

(** The collaborators of one run: the bundler and node behind
    [bundlerRPCUrl], the provider's minimum-fee endpoint and the wallet.
    [isAlchemyBundler] is the helper of utils/helpers that recognises the
    known provider from the URL; it is a parameter here. *)
Record World : Type := {
  getAccountNonce : Address -> result Z;
  estimateFeesPerGas : result FeesPerGas;
  isAlchemyBundler : string -> bool;
  fetchMinPriorityFee : string -> result AlchemyResponse;
  estimateUserOperationGas : UserOperation -> result GasLimits;
  readContract_getUserOpHash : PackedUserOperation -> result Hex;
  signMessage : string -> Hex -> result string
}.

(** A computation that makes external calls: the calls made, in order, and
    how it ended. *)
Definition M (A : Type) : Type := list event * result A.

Definition ret {A : Type} (a : A) : M A := ([], Ok a).

Definition bind {A B : Type} (m : M A) (k : A -> M B) : M B :=
  match m with
  | (t, Ok a) => let '(t', r) := k a in (t ++ t', r)
  | (t, Err e) => (t, Err e)
  end.

Definition lift {A : Type} (r : result A) : M A := ([], r).

Definition call {A : Type} (ev : event) (r : result A) : M A := ([ev], r).

Definition trace {A : Type} (m : M A) : list event := fst m.
Definition outcome {A : Type} (m : M A) : result A := snd m.

Notation "'let!' x ':=' m 'in' k" := (bind m (fun x => k))
  (at level 10, x name, m at level 100, k at level 200).

(** Modelled from the spec: [logAndExit] of utils/logger, whose source is not
    at hand.  The spec (sections 7 and 9) reads "log and exit" as a fatal,
    typed error that ends the enclosing operation. *)
Definition logAndExit {A : Type} (e : error) : M A := lift (Err e).

(** Modelled from the spec: [maxBigInt] of utils/helpers ("take the maximum
    of the two"). *)
Definition maxBigInt (a b : Z) : Z := Z.max a b.

(** Truthiness of an optional bigint and of an optional string. *)
Definition truthy_bigint (x : option Z) : bool :=
  match x with Some v => negb (v =? 0) | None => false end.

Definition truthy_string (x : option string) : bool :=
  match x with Some s => negb (String.eqb s EmptyString) | None => false end.

(** The non-null assertion [x!]. *)
Definition nonNull (x : option Z) : Z :=
  match x with Some v => v | None => 0 end.

(* ================================================================== *)
(** ** Signature packing: [buildMultiSigUserOp] *)
(* ================================================================== *)

(** The local helper [takeBytes(bytes, { offset, count })]: [count] bytes of
    a 0x-prefixed hex string from byte [offset] on, again 0x-prefixed.  A
    missing or zero [offset] starts at the first byte, a missing or zero
    [count] reads to the end. *)
Definition takeBytes (bytes : string) (offset count : option nat) : string :=
  let start :=
    (match offset with
     | Some o => if Nat.eqb o 0 then 0 else o * 2
     | None => 0
     end + 2)%nat in
  let end_ :=
    match count with
    | Some c => if Nat.eqb c 0 then None else Some (start + c * 2)%nat
    | None => None
    end in
  "0x" +++ slice bytes start end_.

Definition ACTUAL : string := "ACTUAL".

(** [sig.userOpSigType === "ACTUAL"]. *)
Definition isActual (e : SignatureEntry) : bool :=
  match sig_userOpSigType e with
  | Some t => String.eqb t ACTUAL
  | None => false
  end.

(** [addV]: 32 when the signature covers the actual gas values. *)
Definition addV (e : SignatureEntry) : Z := if isActual e then 32 else 0.

(** The body of the [forEach]: the hex digits one entry adds to [eoaSigs]. *)
Definition packSignature (e : SignatureEntry) : result string :=
  let v :=
    num_add (parseInt (takeBytes (sig_signature e) (Some 64%nat) (Some 1%nat)))
            (number_of_Z (addV e)) in
  let* vHex := toHex_number v (Some 1%nat) in
  Ok (slice (concatHex [takeBytes (sig_signature e) None (Some 64%nat); vHex]) 2 None).

Fixpoint forEachPack (sorted : list SignatureEntry) (eoaSigs : string) : result string :=
  match sorted with
  | [] => Ok eoaSigs
  | e :: rest =>
      let* digits := packSignature e in
      forEachPack rest (eoaSigs +++ digits)
  end.

(** [Array.prototype.sort] with the comparator of the source is a stable
    sort on the key [hexToBigInt(signer)]; a stable insertion sort computes
    the same array. *)
Fixpoint insertByKey {A : Type} (x : Z * A) (l : list (Z * A)) : list (Z * A) :=
  match l with
  | [] => [x]
  | y :: t => if fst x <=? fst y then x :: l else y :: insertByKey x t
  end.

Definition sortByKey {A : Type} (l : list (Z * A)) : list (Z * A) :=
  fold_right insertByKey [] l.

Fixpoint keyed (signatures : list SignatureEntry) : result (list (Z * SignatureEntry)) :=
  match signatures with
  | [] => Ok []
  | e :: rest =>
      let* k := hexToBigInt (sig_signer e) in
      let* ks := keyed rest in
      Ok ((k, e) :: ks)
  end.

(** The comparator is not called on an array of fewer than two elements; on
    a longer one every element is compared at least once, so a signer that
    [hexToBigInt] rejects makes the sort throw. *)
Definition sortSignatures (signatures : list SignatureEntry) : result (list SignatureEntry) :=
  match signatures with
  | [] | [_] => Ok signatures
  | _ => let* ks := keyed signatures in Ok (map snd (sortByKey ks))
  end.

Definition buildMultiSigUserOp (userOp : UserOperation) (signatures : list SignatureEntry)
  : result UserOperation :=
  let multiSigUserOp := userOp in
  let* sorted := sortSignatures signatures in
  let* eoaSigs := forEachPack sorted EmptyString in
  Ok (with_signature multiSigUserOp ("0x" +++ eoaSigs)).

(* ================================================================== *)
(** ** Hashing, signing, estimating, orchestrating *)
(* ================================================================== *)

(** The filler of the estimation signature, one per signer (65 bytes). *)
Definition placeholderPattern : string :=
  "fffffffffffffffffffffffffffffff0000000000000000000000000000000007aaaaaaaaaaaaaaaaaaaaaaaaaaaaaaaaaaaaaaaaaaaaaaaaaaaaaaaaaaaaaaa3c".

Definition placeholderSignature (numSigners : nat) : Hex :=
  "0x" +++ str_repeat placeholderPattern numSigners.

(** [a * BigInt(scaled) / BigInt(100)] on bigints. *)
Definition scaleFee (fee scaledGasFeesMultiplier : Z) : Z :=
  Z.quot (fee * scaledGasFeesMultiplier) 100.

(** [Math.round((gasFeesMultiplier - 1) * 100)], a number. *)
Definition percentageIncrease (gasFeesMultiplier : number) : number :=
  Math_round (num_mul (num_sub gasFeesMultiplier (number_of_Z 1)) (number_of_Z 100)).

(** [100 + percentageIncrease], a number. *)
Definition scaledGasFeesMultiplier (gasFeesMultiplier : number) : number :=
  num_add (number_of_Z 100) (percentageIncrease gasFeesMultiplier).

Section Run.

(** The collaborators and the bundler URL of the run.  The [chain] argument
    of the source only selects the viem chain description handed to the
    clients and is left out. *)
Variable w : World.
Variable bundlerRPCUrl : string.

Definition packUserOp (userOp : UserOperation) : result PackedUserOperation :=
  let initCode :=
    if (truthy_string (factory userOp) && truthy_string (factoryData userOp))%bool
    then concatHex [match factory userOp with Some f => f | None => EmptyString end;
                    match factoryData userOp with Some d => d | None => EmptyString end]
    else "0x" in
  let pad16 (v : Z) := let* h := toHex_bigint v None in pad h 16 in
  let* vgl := pad16 (verificationGasLimit userOp) in
  let* cgl := pad16 (callGasLimit userOp) in
  let accountGasLimits := concatHex [vgl; cgl] in
  let* prio := pad16 (maxPriorityFeePerGas userOp) in
  let* fee := pad16 (maxFeePerGas userOp) in
  let gasFees := concatHex [prio; fee] in
  Ok {| packed_sender := sender userOp;
        packed_nonce := nonce userOp;
        packed_callData := callData userOp;
        packed_accountGasLimits := accountGasLimits;
        packed_initCode := initCode;
        packed_preVerificationGas := preVerificationGas userOp;
        packed_gasFees := gasFees;
        packed_paymasterAndData := "0x";
        packed_signature := signature userOp |}.

Definition getUserOpHash (userOp : UserOperation) : M Hex :=
  let! packedUserOp := lift (packUserOp userOp) in
  call (EvGetUserOpHash packedUserOp) (readContract_getUserOpHash w packedUserOp).

Definition signUserOp (signer : Signer) (userOp : UserOperation) : M string :=
  let! partialUserOpHash := getUserOpHash userOp in
  call (EvSignMessage (privateKey signer) partialUserOpHash)
       (signMessage w (privateKey signer) partialUserOpHash).

Definition getPartialUserOp (senderAddress : Address) (callData_ : Hex) : M UserOperation :=
  let! nonce_ := call (EvGetAccountNonce senderAddress) (getAccountNonce w senderAddress) in
  let userOp :=
    {| sender := senderAddress; nonce := nonce_; factory := None; factoryData := None;
       callData := callData_; maxPriorityFeePerGas := 0; maxFeePerGas := 0;
       callGasLimit := 0; verificationGasLimit := 0; preVerificationGas := 0;
       signature := "0x" |} in
  let! _ := (if nonce_ =? 0 then logAndExit UndeployedAccount else ret tt) in
  ret userOp.

(** The provider's minimum priority fee: zero unless the bundler is the
    known provider and its answer carries a truthy [result]. *)
Definition alchemyMinPriorityFee : M Z :=
  if isAlchemyBundler w bundlerRPCUrl then
    let! alchemyResponse :=
      call (EvFetchMinPriorityFee bundlerRPCUrl) (fetchMinPriorityFee w bundlerRPCUrl) in
    let alchemyHexResult := response_result alchemyResponse in
    if truthy_string alchemyHexResult
    then lift (BigInt_of_string (match alchemyHexResult with Some s => s | None => EmptyString end))
    else ret 0
  else ret 0.

Definition estimateUserOp (userOp : UserOperation) (numSigners : nat)
  (gasFeesMultiplier : number) : M UserOperation :=
  let! feesPerGas := call EvEstimateFeesPerGas (estimateFeesPerGas w) in
  let! _ :=
    (if (negb (truthy_bigint (fees_maxFeePerGas feesPerGas))
         || negb (truthy_bigint (fees_maxPriorityFeePerGas feesPerGas)))%bool
     then logAndExit FeeFetchError else ret tt) in
  let! _ :=
    (if num_lt gasFeesMultiplier (number_of_Z 1)
     then logAndExit InvalidConfig else ret tt) in
  let! alchemyMaxPriorityFeePerGas := alchemyMinPriorityFee in
  let! scaled := lift (BigInt_of_number (scaledGasFeesMultiplier gasFeesMultiplier)) in
  let adjustedMaxFeePerGas :=
    scaleFee (nonNull (fees_maxFeePerGas feesPerGas)) scaled in
  let adjustedMaxPriorityFeePerGasBeforeMin :=
    scaleFee (nonNull (fees_maxPriorityFeePerGas feesPerGas)) scaled in
  let adjustedMaxPriorityFeePerGas :=
    maxBigInt adjustedMaxPriorityFeePerGasBeforeMin alchemyMaxPriorityFeePerGas in
  let partialUserOpForEstimate :=
    {| sender := sender userOp; nonce := nonce userOp; factory := factory userOp;
       factoryData := factoryData userOp; callData := callData userOp;
       maxPriorityFeePerGas := adjustedMaxPriorityFeePerGas;
       maxFeePerGas := adjustedMaxFeePerGas;
       callGasLimit := 0; verificationGasLimit := 0; preVerificationGas := 0;
       signature := placeholderSignature numSigners |} in
  let! gasLimits :=
    call (EvEstimateUserOperationGas partialUserOpForEstimate)
         (estimateUserOperationGas w partialUserOpForEstimate) in
  let partialUserOpWithGas :=
    {| sender := sender partialUserOpForEstimate;
       nonce := nonce partialUserOpForEstimate;
       factory := factory partialUserOpForEstimate;
       factoryData := factoryData partialUserOpForEstimate;
       callData := callData partialUserOpForEstimate;
       maxPriorityFeePerGas := maxPriorityFeePerGas partialUserOpForEstimate;
       maxFeePerGas := maxFeePerGas partialUserOpForEstimate;
       callGasLimit := est_callGasLimit gasLimits;
       verificationGasLimit := est_verificationGasLimit gasLimits;
       preVerificationGas := est_preVerificationGas gasLimits;
       signature := "0x" |} in
  ret partialUserOpWithGas.

(** The [for] loop of [buildAndSignMultisigUserOp] from index [i] on, [rest]
    being the signers at the indices [i], [i+1], ...; the state is the
    [signatures] array and [partialUserOpWithGas]. *)
Fixpoint signLoop (partialUserOp : UserOperation) (numSigners : nat)
  (gasFeesMultiplier : number) (i : nat) (rest : list Signer)
  (signatures : list SignatureEntry) (partialUserOpWithGas : UserOperation)
  : M (list SignatureEntry * UserOperation) :=
  match rest with
  | [] => ret (signatures, partialUserOpWithGas)
  | signer :: rest' =>
      let isLastSigner := Z.of_nat i =? Z.of_nat numSigners - 1 in
      let! userOpToSign :=
        (if isLastSigner
         then estimateUserOp partialUserOp numSigners gasFeesMultiplier
         else ret partialUserOp) in
      let! signature_ := signUserOp signer userOpToSign in
      signLoop partialUserOp numSigners gasFeesMultiplier (S i) rest'
        (signatures ++ [{| sig_signer := address signer;
                           sig_signature := signature_;
                           sig_userOpSigType := if isLastSigner then Some ACTUAL else None |}])
        userOpToSign
  end.

(** The signing pass alone: the collected entries and the operation they are
    packed into. *)
Definition collectSignatures (walletAddress : Address) (signerAddresses : list Signer)
  (gasFeesMultiplier : number) (callData_ : Hex) : M (list SignatureEntry * UserOperation) :=
  let! partialUserOp := getPartialUserOp walletAddress callData_ in
  let numSigners := List.length signerAddresses in
  signLoop partialUserOp numSigners gasFeesMultiplier 0 signerAddresses [] partialUserOp.

Definition buildAndSignMultisigUserOp (walletAddress : Address) (signerAddresses : list Signer)
  (gasFeesMultiplier : number) (callData_ : Hex) : M UserOperation :=
  let! collected := collectSignatures walletAddress signerAddresses gasFeesMultiplier callData_ in
  let '(signatures, partialUserOpWithGas) := collected in
  lift (buildMultiSigUserOp partialUserOpWithGas signatures).

End Run.

(* ================================================================== *)
(** ** Reading hex data as bytes (used to state the properties) *)
(* ================================================================== *)

(** The bytes written by an even number of hex digits. *)
Fixpoint bytesOfDigits (s : string) : option (list Z) :=
  match s with
  | EmptyString => Some []
  | String c1 s' =>
      match s' with
      | EmptyString => None
      | String c2 r =>
          match hexDigit c1, hexDigit c2, bytesOfDigits r with
          | Some a, Some b, Some l => Some (16 * a + b :: l)
          | _, _, _ => None
          end
      end
  end.

(** The bytes of a 0x-prefixed hex string. *)
Definition hexBytes (h : Hex) : option (list Z) :=
  match h with
  | String c1 (String c2 r) =>
      if (Ascii.eqb c1 "0" && Ascii.eqb c2 "x")%bool then bytesOfDigits r else None
  | _ => None
  end.

(** One byte [v] plus an adjustment [a], pushed through the number
    arithmetic and [toHex(v, { size: 1 })] of the packer, comes out as the
    byte [v + a], or is refused when [v + a] is no byte. *)
Definition vByteCheck (v a : Z) : bool :=
  match toHex_number (num_add (number_of_Z v) (number_of_Z a)) (Some 1%nat) with
  | Ok h =>
      ((v + a <=? 255)
       && match hexBytes h with
          | Some [x] => x =? v + a
          | _ => false
          end)%bool
  | Err IntegerOutOfRangeError => 255 <? v + a
  | Err _ => false
  end.

Definition rawBytes (e : SignatureEntry) : list Z :=
  match hexBytes (sig_signature e) with Some bs => bs | None => [] end.

(** The recovery byte of an entry's raw signature. *)
Definition rawV (e : SignatureEntry) : Z := nth 64 (rawBytes e) 0.

Definition signerKey (e : SignatureEntry) : Z :=
  match hexToBigInt (sig_signer e) with Ok k => k | Err _ => 0 end.

(** An entry as the signing pass produces it: a signer that reads as an
    integer, a raw signature of 65 bytes, and a recovery byte that stays a
    byte once [addV] is added. *)
Definition wellFormed (e : SignatureEntry) : bool :=
  (is_ok (hexToBigInt (sig_signer e))
   && match hexBytes (sig_signature e) with
      | Some bs => Nat.eqb (List.length bs) 65 && (nth 64 bs 0 + addV e <=? 255)
      | None => false
      end)%bool.

(** The 65 bytes an entry contributes: r||s, then v adjusted by [addV]. *)
Definition block (e : SignatureEntry) : list Z :=
  firstn 64 (rawBytes e) ++ [rawV e + addV e].

(** The array the sort leaves behind when every signer reads as an integer:
    the entries in ascending order of [signerKey], equal keys in their input
    order. *)
Definition sortedEntries (signatures : list SignatureEntry) : list SignatureEntry :=
  map snd (sortByKey (map (fun e => (signerKey e, e)) signatures)).

Definition keyLe (a b : SignatureEntry) : Prop := signerKey a <= signerKey b.


(** Every character is a hex digit. *)
Fixpoint allHex (s : string) : bool :=
  match s with
  | EmptyString => true
  | String c s' => match hexDigit c with Some _ => allHex s' | None => false end
  end.

(** The user operation [getPartialUserOp] builds for a sender, a nonce and
    call data. *)
Definition baseUserOp (senderAddress : Address) (nonce_ : Z) (callData_ : Hex) : UserOperation :=
  {| sender := senderAddress; nonce := nonce_; factory := None; factoryData := None;
     callData := callData_; maxPriorityFeePerGas := 0; maxFeePerGas := 0;
     callGasLimit := 0; verificationGasLimit := 0; preVerificationGas := 0;
     signature := "0x" |}.



(** The user operation the estimator sends to the bundler, and the one it
    returns, as functions of the fees and limits that go into them. *)
Definition estimateRequest (userOp : UserOperation) (numSigners : nat)
  (priorityFee fee : Z) : UserOperation :=
  {| sender := sender userOp; nonce := nonce userOp; factory := factory userOp;
     factoryData := factoryData userOp; callData := callData userOp;
     maxPriorityFeePerGas := priorityFee; maxFeePerGas := fee;
     callGasLimit := 0; verificationGasLimit := 0; preVerificationGas := 0;
     signature := placeholderSignature numSigners |}.

Definition estimateAnswer (userOp : UserOperation) (priorityFee fee : Z)
  (gasLimits : GasLimits) : UserOperation :=
  {| sender := sender userOp; nonce := nonce userOp; factory := factory userOp;
     factoryData := factoryData userOp; callData := callData userOp;
     maxPriorityFeePerGas := priorityFee; maxFeePerGas := fee;
     callGasLimit := est_callGasLimit gasLimits;
     verificationGasLimit := est_verificationGasLimit gasLimits;
     preVerificationGas := est_preVerificationGas gasLimits;
     signature := "0x" |}.

(** [signer] signs the hash the entry point gives for [userOp]. *)
Definition signsHashOf (w : World) (signer : Signer) (userOp : UserOperation)
  (signature_ : string) : Prop :=
  exists p h,
    packUserOp userOp = Ok p
    /\ readContract_getUserOpHash w p = Ok h
    /\ signMessage w (privateKey signer) h = Ok signature_.

(** The calls one signer's pass makes: the hash read, then the signature. *)
Definition signEvents (p : PackedUserOperation) (signer : Signer) (h : Hex) : list event :=
  [EvGetUserOpHash p; EvSignMessage (privateKey signer) h].

(** What an entry of the [signatures] array says about the pass that made
    it: whose it is, which operation's hash was signed, and its role. *)
Definition entryOf (w : World) (signer : Signer) (userOp : UserOperation) (role : option string)
  (e : SignatureEntry) : Prop :=
  sig_signer e = address signer
  /\ sig_userOpSigType e = role
  /\ signsHashOf w signer userOp (sig_signature e).

(** The events of the passes of [signers], all over the same operation,
    matched against the entries they produced. *)
Inductive passes (w : World) (userOp : UserOperation) :
  list Signer -> list SignatureEntry -> list event -> Prop :=
| passes_nil : passes w userOp [] [] []
| passes_cons signer signers e es p h tr :
    packUserOp userOp = Ok p ->
    readContract_getUserOpHash w p = Ok h ->
    signMessage w (privateKey signer) h = Ok (sig_signature e) ->
    sig_signer e = address signer ->
    sig_userOpSigType e = None ->
    passes w userOp signers es tr ->
    passes w userOp (signer :: signers) (e :: es) (signEvents p signer h ++ tr).

(* ================================================================== *)
(** ** viem: Keccak-256 *)
(* ================================================================== *)

(** [keccak256] of viem is the original Keccak with a rate of 136 bytes and
    an output of 32 bytes.  It gives the function selectors and the checksum
    spelling of addresses. *)

(** The state of Keccak-f[1600]: 25 lanes of 64 bits, lane (x, y) at index
    x + 5 * y. *)
Definition mask64 : Z := 2 ^ 64 - 1.

Definition rotl64 (x n : Z) : Z :=
  Z.land (Z.lor (Z.shiftl x n) (Z.shiftr x (64 - n))) mask64.

Definition rotationOffsets : list Z :=
  [0; 1; 62; 28; 27; 36; 44; 6; 55; 20; 3; 10; 43; 25; 39;
   41; 45; 15; 21; 8; 18; 2; 61; 56; 14].

Definition roundConstants : list Z :=
  [0x1; 0x8082; 0x800000000000808a; 0x8000000080008000; 0x808b; 0x80000001;
   0x8000000080008081; 0x8000000000008009; 0x8a; 0x88; 0x80008009; 0x8000000a;
   0x8000808b; 0x800000000000008b; 0x8000000000008089; 0x8000000000008003;
   0x8000000000008002; 0x8000000000000080; 0x800a; 0x800000008000000a;
   0x8000000080008081; 0x8000000000008080; 0x80000001; 0x8000000080008008].

Definition lane (st : list Z) (i : nat) : Z := nth i st 0.

Definition theta (A : list Z) : list Z :=
  let C (x : nat) :=
    fold_left Z.lxor (map (fun y => lane A (x + 5 * y)) (seq 0 5)) 0 in
  let D (x : nat) := Z.lxor (C ((x + 4) mod 5)%nat) (rotl64 (C ((x + 1) mod 5)%nat) 1) in
  map (fun i => Z.lxor (lane A i) (D (i mod 5)%nat)) (seq 0 25).

Definition rhoPi (A : list Z) : list Z :=
  map (fun j =>
         let X := (j mod 5)%nat in
         let Y := (j / 5)%nat in
         let x := ((X + 3 * Y) mod 5)%nat in
         let y := X in
         rotl64 (lane A (x + 5 * y)) (nth (x + 5 * y) rotationOffsets 0))
      (seq 0 25).

Definition chi (B : list Z) : list Z :=
  map (fun i =>
         let x := (i mod 5)%nat in
         let y := (i / 5)%nat in
         Z.lxor (lane B i)
                (Z.land (Z.lxor (lane B ((x + 1) mod 5 + 5 * y)) mask64)
                        (lane B ((x + 2) mod 5 + 5 * y))))
      (seq 0 25).

Definition iota (rc : Z) (A : list Z) : list Z :=
  match A with
  | a :: t => Z.lxor a rc :: t
  | [] => []
  end.

Definition keccakF (A : list Z) : list Z :=
  fold_left (fun st rc => iota rc (chi (rhoPi (theta st)))) roundConstants A.

(** Eight bytes as a lane, and back, least significant byte first. *)
Definition laneOfBytes (bs : list Z) : Z := fold_right (fun b acc => b + 256 * acc) 0 bs.

Definition bytesOfLane (z : Z) : list Z :=
  map (fun i => Z.land (Z.shiftr z (8 * Z.of_nat i)) 255) (seq 0 8).

(** One block of 136 bytes (the rate of Keccak-256) is added into the first
    17 lanes and the state is permuted. *)
Definition absorb (st : list Z) (blk : list Z) : list Z :=
  keccakF (map (fun i =>
                  Z.lxor (lane st i)
                         (if (i <? 17)%nat then laneOfBytes (firstn 8 (skipn (8 * i) blk)) else 0))
               (seq 0 25)).

Fixpoint absorbAll (blocks : nat) (st : list Z) (m : list Z) : list Z :=
  match blocks with
  | O => st
  | S n => absorbAll n (absorb st (firstn 136 m)) (skipn 136 m)
  end.

(** The padding of the original Keccak: a 1 bit, zeros, a 1 bit. *)
Definition keccakPad (msg : list Z) : list Z :=
  let padlen := (136 - List.length msg mod 136)%nat in
  if (padlen =? 1)%nat then msg ++ [0x81]
  else msg ++ [0x01] ++ repeat 0 (padlen - 2) ++ [0x80].

(** [keccak256(bytes)]: the 32 bytes of the hash. *)
Definition keccak256 (msg : list Z) : list Z :=
  let m := keccakPad msg in
  flat_map bytesOfLane (firstn 4 (absorbAll (List.length m / 136) (repeat 0 25) m)).

(** The bytes of an ASCII string, and bytes as lower-case hex. *)
Definition stringToBytes (s : string) : list Z :=
  map (fun c => Z.of_N (N_of_ascii c)) (list_ascii_of_string s).

Definition bytesToHex (bs : list Z) : Hex :=
  "0x" +++ fold_right (fun b acc => String (hexChar (b / 16)) (String (hexChar (b mod 16)) acc))
                      EmptyString bs.

(* ================================================================== *)
(** ** viem: ABI encoding of function calls *)
(* ================================================================== *)

(** The part of viem (version 2) that [encodeFunctionData] runs through for
    an ABI of one function whose inputs are addresses, uint256 numbers,
    dynamic bytes and arrays of these.  Every argument is taken at the JS
    type the encoder expects for its ABI type: a string for an address and
    for bytes, a bigint for a uint256, an array for an array. *)

(** What the encoder throws: its own errors, or an error of the hex helpers
    it calls. *)
Inductive abiError : Type :=
| InvalidAddressError
| AbiEncodingLengthMismatchError
| HexError (e : error).

Inductive abiResult (A : Type) : Type :=
| AbiOk (a : A)
| AbiErr (e : abiError).

Arguments AbiOk {A} a.
Arguments AbiErr {A} e.

Definition abind {A B : Type} (r : abiResult A) (k : A -> abiResult B) : abiResult B :=
  match r with
  | AbiOk a => k a
  | AbiErr e => AbiErr e
  end.

Notation "'let+' x ':=' r 'in' k" := (abind r (fun x => k))
  (at level 10, x name, r at level 100, k at level 200).

Definition ofResult {A : Type} (r : result A) : abiResult A :=
  match r with
  | Ok a => AbiOk a
  | Err e => AbiErr (HexError e)
  end.

(** The ABI types of the two functions encoded here. *)
Inductive AbiType : Type :=
| TAddress
| TUint256
| TBytes
| TArray (elem : AbiType).

Fixpoint typeName (t : AbiType) : string :=
  match t with
  | TAddress => "address"
  | TUint256 => "uint256"
  | TBytes => "bytes"
  | TArray elem => typeName elem +++ "[]"
  end.

(** An ABI item of type function: its name and the types of its inputs. *)
Record AbiFunction : Type := {
  abi_name : string;
  abi_inputs : list AbiType
}.

(** An argument together with the ABI type it is encoded at: an address (a
    string), a uint256 (a bigint) or dynamic bytes (a hex string), and an
    array of unbounded length of these. *)
Inductive AbiScalar : Type :=
| VAddress (s : string)
| VUint256 (z : Z)
| VBytes (s : string).

Inductive AbiValue : Type :=
| VScalar (v : AbiScalar)
| VArray (l : list AbiScalar).

Record PreparedParam : Type := {
  dynamic : bool;
  encoded : Hex
}.

(** [formatAbiItem]: name(type,type,...). *)
Fixpoint joinComma (l : list string) : string :=
  match l with
  | [] => EmptyString
  | [x] => x
  | x :: rest => x +++ "," +++ joinComma rest
  end.

Definition formatAbiItem (item : AbiFunction) : string :=
  abi_name item +++ "(" +++ joinComma (map typeName (abi_inputs item)) +++ ")".

(** [toFunctionSelector]: the first four bytes of the hash of the
    signature. *)
Definition toFunctionSelector (signature_ : string) : Hex :=
  bytesToHex (firstn 4 (keccak256 (stringToBytes signature_))).

(** [s.toLowerCase()] and [c.toUpperCase()] on ASCII. *)
Definition lowerChar (c : ascii) : ascii :=
  let n := N_of_ascii c in
  if (N.leb 65 n && N.leb n 90)%bool then ascii_of_N (n + 32) else c.

Definition upperChar (c : ascii) : ascii :=
  let n := N_of_ascii c in
  if (N.leb 97 n && N.leb n 122)%bool then ascii_of_N (n - 32) else c.

Fixpoint toLowerCase (s : string) : string :=
  match s with
  | EmptyString => EmptyString
  | String c s' => String (lowerChar c) (toLowerCase s')
  end.

(** [/^0x[a-fA-F0-9]{40}$/.test(s)]. *)
Definition addressRegex (s : string) : bool :=
  match s with
  | String c1 (String c2 r) =>
      (Ascii.eqb c1 "0" && Ascii.eqb c2 "x" && Nat.eqb (String.length r) 40 && allHex r)%bool
  | _ => false
  end.

(** [checksumAddress] without a chain id: a letter is upper case when the
    corresponding nibble of the hash of the lower-case digits is 8 or
    more. *)
Fixpoint checksumDigits (digits : string) (hash : list Z) (high : bool) : string :=
  match digits with
  | EmptyString => EmptyString
  | String c rest =>
      let byte := match hash with b :: _ => b | [] => 0 end in
      let nibble := if high then Z.shiftr byte 4 else Z.land byte 15 in
      String (if 8 <=? nibble then upperChar c else c)
             (checksumDigits rest (if high then hash else tl hash) (negb high))
  end.

Definition checksumAddress (address_ : string) : string :=
  let hexAddress := toLowerCase (str_drop 2 address_) in
  "0x" +++ checksumDigits hexAddress (keccak256 (stringToBytes hexAddress)) true.

(** [isAddress(s)], strict as it is by default: the shape of an address,
    and either no upper case letter or the checksum spelling. *)
Definition isAddress (s : string) : bool :=
  if negb (addressRegex s) then false
  else if String.eqb (toLowerCase s) s then true
  else String.eqb (checksumAddress s) s.

(** [size(value)]: the number of bytes of a hex string (one that starts
    with 0x), the length of any other string. *)
Definition startsWith0x (s : string) : bool :=
  match s with
  | String c1 (String c2 _) => (Ascii.eqb c1 "0" && Ascii.eqb c2 "x")%bool
  | _ => false
  end.

(** [Math.ceil(a / b)] for a positive [b]. *)
Definition ceilDiv (a b : Z) : Z := - ((- a) / b).

Definition size_ (value : string) : Z :=
  if startsWith0x value then ceilDiv (Z.of_nat (String.length value) - 2) 2
  else Z.of_nat (String.length value).

(** [padHex(hex, { dir: 'right', size })]. *)
Definition padHexRight (hex_ : string) (size : Z) : result string :=
  let hex := replace_0x hex_ in
  if size * 2 <? Z.of_nat (String.length hex) then Err SizeExceedsPaddingSizeError
  else Ok ("0x" +++ hex
           +++ string_of_list_ascii
                 (repeat "0"%char (Z.to_nat (size * 2) - String.length hex))).

Definition encodeAddress (value : string) : abiResult PreparedParam :=
  if isAddress value then
    let+ p := ofResult (pad (toLowerCase value) 32) in
    AbiOk {| dynamic := false; encoded := p |}
  else AbiErr InvalidAddressError.

Definition encodeNumber (value : Z) : abiResult PreparedParam :=
  let+ h := ofResult (numberToHex value false (Some 32%nat)) in
  AbiOk {| dynamic := false; encoded := h |}.

Definition encodeBytes (value : string) : abiResult PreparedParam :=
  let bytesSize := size_ value in
  let+ value_ :=
    (if negb (bytesSize mod 32 =? 0)
     then ofResult (padHexRight value
                      (ceilDiv (Z.of_nat (String.length value) - 2) 64 * 32))
     else AbiOk value) in
  let+ len := ofResult (numberToHex bytesSize true (Some 32%nat)) in
  let+ lenPadded := ofResult (pad len 32) in
  AbiOk {| dynamic := true; encoded := concatHex [lenPadded; value_] |}.

(** The second loop of [encodeParams]: the static parts (an offset in place
    of each dynamic parameter) and the dynamic parts. *)
Fixpoint splitParams (staticSize : Z) (preparedParams : list PreparedParam) (dynamicSize : Z)
  : abiResult (list Hex * list Hex) :=
  match preparedParams with
  | [] => AbiOk ([], [])
  | p :: rest =>
      if dynamic p then
        let+ offset := ofResult (numberToHex (staticSize + dynamicSize) true (Some 32%nat)) in
        let+ parts := splitParams staticSize rest (dynamicSize + size_ (encoded p)) in
        AbiOk (offset :: fst parts, encoded p :: snd parts)
      else
        let+ parts := splitParams staticSize rest dynamicSize in
        AbiOk (encoded p :: fst parts, snd parts)
  end.

Definition encodeParams (preparedParams : list PreparedParam) : abiResult Hex :=
  let staticSize :=
    fold_left (fun acc p => acc + (if dynamic p then 32 else size_ (encoded p)))
              preparedParams 0 in
  let+ parts := splitParams staticSize preparedParams 0 in
  AbiOk (concatHex (fst parts ++ snd parts)).

(** [encodeArray] for an array type without a fixed length. *)
Definition encodeArray (preparedParams : list PreparedParam) : abiResult PreparedParam :=
  let+ data := encodeParams preparedParams in
  let+ length_ :=
    ofResult (numberToHex (Z.of_nat (List.length preparedParams)) true (Some 32%nat)) in
  AbiOk {| dynamic := true;
           encoded := match preparedParams with
                      | [] => length_
                      | _ => concatHex [length_; data]
                      end |}.

Definition prepareScalar (value : AbiScalar) : abiResult PreparedParam :=
  match value with
  | VAddress s => encodeAddress s
  | VUint256 z => encodeNumber z
  | VBytes s => encodeBytes s
  end.

(** The elements of an array are prepared in order; the first that throws
    ends the encoding. *)
Fixpoint prepareElements (values : list AbiScalar) : abiResult (list PreparedParam) :=
  match values with
  | [] => AbiOk []
  | x :: rest =>
      let+ p := prepareScalar x in
      let+ ps := prepareElements rest in
      AbiOk (p :: ps)
  end.

Definition prepareParam (value : AbiValue) : abiResult PreparedParam :=
  match value with
  | VScalar v => prepareScalar v
  | VArray l =>
      let+ preparedParams := prepareElements l in
      encodeArray preparedParams
  end.

Fixpoint prepareParams (values : list AbiValue) : abiResult (list PreparedParam) :=
  match values with
  | [] => AbiOk []
  | x :: rest =>
      let+ p := prepareParam x in
      let+ ps := prepareParams rest in
      AbiOk (p :: ps)
  end.

Definition encodeAbiParameters (params : list AbiType) (values : list AbiValue)
  : abiResult Hex :=
  if negb (Nat.eqb (List.length params) (List.length values))
  then AbiErr AbiEncodingLengthMismatchError
  else
    let+ preparedParams := prepareParams values in
    let+ data := encodeParams preparedParams in
    AbiOk (if Nat.eqb (String.length data) 0 then "0x" else data).

(** [encodeFunctionData({ abi: [item], functionName, args })]. *)
Definition encodeFunctionData (item : AbiFunction) (args : list AbiValue) : abiResult Hex :=
  let signature_ := toFunctionSelector (formatAbiItem item) in
  let+ data := encodeAbiParameters (abi_inputs item) args in
  AbiOk (concatHex [signature_; data]).

(* ================================================================== *)
(** ** Call data: [encodeCallData] *)
(* ================================================================== *)

(** One call: the members [to], [value] and [data] the function reads, a
    string, a bigint and a hex string. *)
Record Call : Type := {
  call_to : Address;
  call_value : Z;
  call_data : Hex
}.

(** The argument of [encodeCallData], which is of type any: an array of
    calls ([Array.isArray(args)]), or one call. *)
Inductive CallArgs : Type :=
| CallArray (calls : list Call)
| SingleCall (call_ : Call).

Definition executeBatchAbi : AbiFunction :=
  {| abi_name := "executeBatch";
     abi_inputs := [TArray TAddress; TArray TUint256; TArray TBytes] |}.

Definition executeAbi : AbiFunction :=
  {| abi_name := "execute"; abi_inputs := [TAddress; TUint256; TBytes] |}.

Definition encodeCallData (args : CallArgs) : abiResult string :=
  match args with
  | CallArray calls =>
      encodeFunctionData executeBatchAbi
        [VArray (map (fun a => VAddress (call_to a)) calls);
         VArray (map (fun a => VUint256 (call_value a)) calls);
         VArray (map (fun a => VBytes (call_data a)) calls)]
  | SingleCall call_ =>
      encodeFunctionData executeAbi
        [VScalar (VAddress (call_to call_)); VScalar (VUint256 (call_value call_));
         VScalar (VBytes (call_data call_))]
  end.

(* ================================================================== *)
(** ** Further notions used to state the properties *)
(* ================================================================== *)

Definition zeros (n : nat) : string := string_of_list_ascii (repeat "0"%char n).

(** A 32-byte word: 64 hex digits, the number left-padded with zeros. *)
Definition word (z : Z) : string := padStart0 64 (toString16 z).

(** The word of an address: its 40 digits in lower case, left-padded. *)
Definition addressWord (a : Address) : string := padStart0 64 (toLowerCase (str_drop 2 a)).

(** The number of zero bytes that fill [n] bytes up to a multiple of 32. *)
Definition padTo32 (n : nat) : nat := ((32 - n mod 32) mod 32)%nat.

(** The hex digits of a list of hex strings, put end to end. *)
Fixpoint bodies (l : list string) : string :=
  match l with
  | [] => EmptyString
  | x :: rest => replace_0x x +++ bodies rest
  end.

(** Words put end to end. *)
Definition concatWords (ws : list string) : string := fold_right String.append EmptyString ws.

Definition staticParam (w : string) : PreparedParam :=
  {| dynamic := false; encoded := "0x" +++ w |}.

(** One gas or fee value as the 16-byte field of the packed operation:
    [pad(toHex(v), { size: 16 })]. *)
Definition pad16 (v : Z) : result string := let* h := toHex_bigint v None in pad h 16.

(** An unsigned integer of at most 128 bits. *)
Definition inRange128 (v : Z) : Prop := 0 <= v < 2 ^ 128.

(** An operation the signing loop hands to a signer: the partial operation,
    or the one the estimator returned for it. *)
Definition signable (w : World) (bundlerRPCUrl : string) (partialUserOp : UserOperation)
  (numSigners : nat) (gasFeesMultiplier : number) (u : UserOperation) : Prop :=
  u = partialUserOp
  \/ exists t, estimateUserOp w bundlerRPCUrl partialUserOp numSigners gasFeesMultiplier
               = (t, Ok u).

(* ================================================================== *)
(** ** Fixtures: a concrete run *)
(* ================================================================== *)

Module Fixture.

Definition hash_base : Hex :=
  "0x1111111111111111111111111111111111111111111111111111111111111111".
Definition hash_final : Hex :=
  "0x2222222222222222222222222222222222222222222222222222222222222222".

Definition gas : GasLimits :=
  {| est_callGasLimit := 100000; est_verificationGasLimit := 200000;
     est_preVerificationGas := 50000 |}.

(** An entry point whose hash tells the fee-incomplete operation from the
    estimated one, and a wallet whose signature is r = the hash, s = the key,
    v = 27. *)
Definition world (alchemy : bool) (answer : result AlchemyResponse) : World :=
  {| getAccountNonce := fun _ => Ok 5;
     estimateFeesPerGas :=
       Ok {| fees_maxFeePerGas := Some 1000; fees_maxPriorityFeePerGas := Some 100 |};
     isAlchemyBundler := fun _ => alchemy;
     fetchMinPriorityFee := fun _ => answer;
     estimateUserOperationGas := fun _ => Ok gas;
     readContract_getUserOpHash := fun p =>
       Ok (if packed_preVerificationGas p =? 0 then hash_base else hash_final);
     signMessage := fun key hash => Ok ("0x" +++ str_drop 2 hash +++ str_drop 2 key +++ "1b") |}.

Definition plain : World := world false (Err (Rejected "unused")).

(** The known provider, answering without a [result] member. *)
Definition noResult : World := world true (Ok {| response_result := None |}).

(** The known provider, answering a minimum of 0x1f4 = 500. *)
Definition withMinimum : World := world true (Ok {| response_result := Some "0x1f4" |}).

(** An account that is not deployed, and a fee oracle that answers a
    maximum fee of zero. *)
Definition undeployed : World :=
  {| getAccountNonce := fun _ => Ok 0;
     estimateFeesPerGas := estimateFeesPerGas (world false (Err (Rejected "unused")));
     isAlchemyBundler := fun _ => false;
     fetchMinPriorityFee := fun _ => Err (Rejected "unused");
     estimateUserOperationGas := fun _ => Ok gas;
     readContract_getUserOpHash := fun _ => Ok hash_base;
     signMessage := fun _ _ => Err (Rejected "unused") |}.

Definition zeroFee : World :=
  {| getAccountNonce := fun _ => Ok 5;
     estimateFeesPerGas :=
       Ok {| fees_maxFeePerGas := Some 0; fees_maxPriorityFeePerGas := Some 100 |};
     isAlchemyBundler := fun _ => false;
     fetchMinPriorityFee := fun _ => Err (Rejected "unused");
     estimateUserOperationGas := fun _ => Ok gas;
     readContract_getUserOpHash := fun _ => Ok hash_base;
     signMessage := fun _ _ => Err (Rejected "unused") |}.

(** A fee oracle that cannot be reached. *)
Definition oracleDown : World :=
  {| getAccountNonce := getAccountNonce plain;
     estimateFeesPerGas := Err (Rejected "fee oracle unreachable");
     isAlchemyBundler := isAlchemyBundler plain;
     fetchMinPriorityFee := fetchMinPriorityFee plain;
     estimateUserOperationGas := estimateUserOperationGas plain;
     readContract_getUserOpHash := readContract_getUserOpHash plain;
     signMessage := signMessage plain |}.

Definition url : string := "https://bundler.example/rpc".

Definition signerA : Signer :=
  {| address := "0xAAAAAAAAAAAAAAAAAAAAAAAAAAAAAAAAAAAAAAAA";
     privateKey := "0x0101010101010101010101010101010101010101010101010101010101010101" |}.

Definition signerB : Signer :=
  {| address := "0x1111111111111111111111111111111111111111";
     privateKey := "0x0202020202020202020202020202020202020202020202020202020202020202" |}.

Definition wallet : Address := "0x00000000000000000000000000000000000000c0".
Definition data : Hex := "0xb61d27f6".

(** The numbers 1.2, 0.5 and 1e307 as binary64 values. *)
Definition mult_1_2 : number := S754_finite false 5404319552844595 (-52).
Definition mult_0_5 : number := S754_finite false 4503599627370496 (-53).
Definition mult_1 : number := number_of_Z 1.

Definition base : UserOperation := baseUserOp wallet 5 data.

(** The entries the signing pass collects from [signerA] then [signerB]. *)
Definition entryA : SignatureEntry :=
  {| sig_signer := address signerA;
     sig_signature := "0x" +++ str_drop 2 hash_base +++ str_drop 2 (privateKey signerA) +++ "1b";
     sig_userOpSigType := None |}.

Definition entryB : SignatureEntry :=
  {| sig_signer := address signerB;
     sig_signature := "0x" +++ str_drop 2 hash_final +++ str_drop 2 (privateKey signerB) +++ "1b";
     sig_userOpSigType := Some ACTUAL |}.

(** An entry whose raw signature is 66 bytes long, and one of 64 bytes. *)
Definition entryLong : SignatureEntry :=
  {| sig_signer := address signerA;
     sig_signature := sig_signature entryA +++ "ee";
     sig_userOpSigType := None |}.

Definition entryShort : SignatureEntry :=
  {| sig_signer := address signerA;
     sig_signature := "0x" +++ str_drop 2 hash_base +++ str_drop 2 (privateKey signerA);
     sig_userOpSigType := None |}.

(** The known provider, answering a minimum of 0x1f40 = 8000, above the
    scaled maximum fee. *)
Definition highMinimum : World := world true (Ok {| response_result := Some "0x1f40" |}).

(** A wallet that refuses to sign with the key of [signerB]. *)
Definition refusing : World :=
  {| getAccountNonce := getAccountNonce plain;
     estimateFeesPerGas := estimateFeesPerGas plain;
     isAlchemyBundler := isAlchemyBundler plain;
     fetchMinPriorityFee := fetchMinPriorityFee plain;
     estimateUserOperationGas := estimateUserOperationGas plain;
     readContract_getUserOpHash := readContract_getUserOpHash plain;
     signMessage := fun key hash =>
       if String.eqb key (privateKey signerB) then Err (Rejected "user rejected signing")
       else signMessage plain key hash |}.

(** A wallet whose every signature is the same 65 bytes. *)
Definition constantWallet : World :=
  {| getAccountNonce := getAccountNonce plain;
     estimateFeesPerGas := estimateFeesPerGas plain;
     isAlchemyBundler := isAlchemyBundler plain;
     fetchMinPriorityFee := fetchMinPriorityFee plain;
     estimateUserOperationGas := estimateUserOperationGas plain;
     readContract_getUserOpHash := readContract_getUserOpHash plain;
     signMessage := fun _ _ => Ok (sig_signature entryA) |}.

(** The packed form of [base]. *)
Definition packedBase : PackedUserOperation :=
  {| packed_sender := wallet;
     packed_nonce := 5;
     packed_callData := data;
     packed_accountGasLimits := "0x" +++ str_repeat "0" 64;
     packed_initCode := "0x";
     packed_preVerificationGas := 0;
     packed_gasFees := "0x" +++ str_repeat "0" 64;
     packed_paymasterAndData := "0x";
     packed_signature := "0x" |}.

(** The signer of [entryA] spelled in lower case, with another signature. *)
Definition entryA' : SignatureEntry :=
  {| sig_signer := "0xaaaaaaaaaaaaaaaaaaaaaaaaaaaaaaaaaaaaaaaa";
     sig_signature := sig_signature entryB;
     sig_userOpSigType := None |}.

(** An "ACTUAL" entry whose recovery byte is 0xe0 = 224. *)
Definition entryOverflow : SignatureEntry :=
  {| sig_signer := address signerB;
     sig_signature := "0x" +++ str_drop 2 hash_final +++ str_drop 2 (privateKey signerB) +++ "e0";
     sig_userOpSigType := Some ACTUAL |}.

(** An entry whose signer is no number and whose r||s is no hex data,
    followed by a recovery byte and one more byte. *)
Definition entryRaw : SignatureEntry :=
  {| sig_signer := "not an address";
     sig_signature := "0x" +++ str_repeat "Zz" 64 +++ "1bff";
     sig_userOpSigType := Some ACTUAL |}.

(** An operation with a factory. *)
Definition deploying : UserOperation :=
  {| sender := wallet; nonce := 0; factory := Some "0x00000000000000000000000000000000000000fa";
     factoryData := Some "0xdeadbeef"; callData := data;
     maxPriorityFeePerGas := 120; maxFeePerGas := 1200;
     callGasLimit := 100000; verificationGasLimit := 200000; preVerificationGas := 50000;
     signature := "0x" |}.

(** Calls: a token transfer through a checksummed address, a plain call
    without data, and a call with four bytes of data. *)
Definition callTransfer : Call :=
  {| call_to := "0x5aAeb6053F3E94C9b9A09f33669435E7Ef1BeAed";
     call_value := 1000000000000000000;
     call_data :=
       "0xa9059cbb" +++ "0000000000000000000000001111111111111111111111111111111111111111"
       +++ "000000000000000000000000000000000000000000000000000000000000007b" |}.

Definition callPlain : Call :=
  {| call_to := "0x1111111111111111111111111111111111111111"; call_value := 0;
     call_data := "0x" |}.

Definition callShort : Call :=
  {| call_to := "0x00000000000000000000000000000000000000c0"; call_value := 5;
     call_data := "0xdeadbeef" |}.

(** The address of [callTransfer] with its first letter in the other
    case. *)
Definition callBadChecksum : Call :=
  {| call_to := "0x5AAeb6053F3E94C9b9A09f33669435E7Ef1BeAed"; call_value := 0;
     call_data := "0x" |}.

End Fixture.


(* ================================================================== *)
(** ** Strings and hex digits *)
(* ================================================================== *)

Lemma append_assoc (a b c : string) : (a +++ b) +++ c = a +++ b +++ c.
Proof. induction a as [| x a IH]; simpl; [reflexivity | now rewrite IH]. Qed.

Lemma append_empty_r (a : string) : a +++ EmptyString = a.
Proof. induction a as [| x a IH]; simpl; [reflexivity | now rewrite IH]. Qed.

Lemma length_append (a b : string) :
  String.length (a +++ b) = (String.length a + String.length b)%nat.
Proof. induction a as [| x a IH]; simpl; [reflexivity | now rewrite IH]. Qed.

Lemma str_drop_short (n : nat) (s : string) :
  (String.length s <= n)%nat -> str_drop n s = EmptyString.
Proof.
  revert s; induction n as [| n IH]; intros [| c s] H; simpl in *; try reflexivity; try lia.
  apply IH; lia.
Qed.

Lemma hexDigit_range (c : ascii) (d : Z) : hexDigit c = Some d -> 0 <= d < 16.
Proof.
  unfold hexDigit.
  repeat match goal with
         | |- context [if ?b then _ else _] => destruct b eqn:?
         end; intros H; inversion H; subst; lia.
Qed.

(** Induction two characters at a time, the way hex digits pair up. *)
Lemma string_pair_ind (P : string -> Prop) :
  P EmptyString ->
  (forall c, P (String c EmptyString)) ->
  (forall c1 c2 r, P r -> P (String c1 (String c2 r))) ->
  forall s, P s.
Proof.
  intros H0 H1 H2 s.
  assert (H : P s /\ forall c, P (String c s)).
  { induction s as [| c s [IH1 IH2]]; split; auto. }
  exact (proj1 H).
Qed.

Lemma bytesOfDigits_cons (c1 c2 : ascii) (r : string) (bs : list Z) :
  bytesOfDigits (String c1 (String c2 r)) = Some bs ->
  exists a b l, hexDigit c1 = Some a /\ hexDigit c2 = Some b /\
                bytesOfDigits r = Some l /\ bs = 16 * a + b :: l.
Proof.
  simpl. destruct (hexDigit c1) as [a |], (hexDigit c2) as [b |]; try discriminate.
  destruct (bytesOfDigits r) as [l |]; try discriminate.
  intros H; inversion H; subst. now exists a, b, l.
Qed.

Lemma bytesOfDigits_length (s : string) : forall bs,
  bytesOfDigits s = Some bs -> String.length s = (2 * List.length bs)%nat.
Proof.
  induction s as [| c | c1 c2 r IH] using string_pair_ind; intros bs H.
  - inversion H; reflexivity.
  - discriminate.
  - apply bytesOfDigits_cons in H as (a & b & l & _ & _ & Hr & ->).
    simpl. rewrite (IH l Hr). lia.
Qed.

Lemma bytesOfDigits_range (s : string) : forall bs,
  bytesOfDigits s = Some bs -> Forall (fun b => 0 <= b < 256) bs.
Proof.
  induction s as [| c | c1 c2 r IH] using string_pair_ind; intros bs H.
  - inversion H; constructor.
  - discriminate.
  - apply bytesOfDigits_cons in H as (a & b & l & Ha & Hb & Hr & ->).
    apply hexDigit_range in Ha, Hb. constructor; [lia | auto].
Qed.

Lemma bytesOfDigits_take (s : string) : forall bs n,
  bytesOfDigits s = Some bs ->
  bytesOfDigits (str_take (2 * n) s) = Some (firstn n bs).
Proof.
  induction s as [| c | c1 c2 r IH] using string_pair_ind; intros bs n H.
  - inversion H; subst. destruct n; reflexivity.
  - discriminate.
  - destruct n as [| n]; [reflexivity |].
    apply bytesOfDigits_cons in H as (a & b & l & Ha & Hb & Hr & ->).
    replace (2 * S n)%nat with (S (S (2 * n))) by lia.
    cbn [str_take firstn bytesOfDigits]. rewrite Ha, Hb, (IH l n Hr). reflexivity.
Qed.

Lemma bytesOfDigits_drop (s : string) : forall bs n,
  bytesOfDigits s = Some bs ->
  bytesOfDigits (str_drop (2 * n) s) = Some (skipn n bs).
Proof.
  induction s as [| c | c1 c2 r IH] using string_pair_ind; intros bs n H.
  - inversion H; subst. destruct n; reflexivity.
  - discriminate.
  - destruct n as [| n]; [exact H |].
    apply bytesOfDigits_cons in H as (a & b & l & Ha & Hb & Hr & ->).
    replace (2 * S n)%nat with (S (S (2 * n))) by lia.
    cbn [str_drop skipn]. apply IH, Hr.
Qed.

Lemma bytesOfDigits_app (a : string) : forall b x y,
  bytesOfDigits a = Some x -> bytesOfDigits b = Some y ->
  bytesOfDigits (a +++ b) = Some (x ++ y).
Proof.
  induction a as [| c | c1 c2 r IH] using string_pair_ind; intros b x y Ha Hb.
  - inversion Ha; subst. exact Hb.
  - discriminate.
  - apply bytesOfDigits_cons in Ha as (p & q & l & Hp & Hq & Hr & ->).
    cbn [String.append bytesOfDigits]. rewrite Hp, Hq, (IH b l y Hr Hb). reflexivity.
Qed.

(** A run of hex digits that reads as exactly one byte is two digits. *)
Lemma bytesOfDigits_single (s : string) (v : Z) :
  bytesOfDigits s = Some [v] ->
  exists c1 c2 a b, s = String c1 (String c2 EmptyString) /\
    hexDigit c1 = Some a /\ hexDigit c2 = Some b /\ v = 16 * a + b.
Proof.
  destruct s as [| c1 [| c2 r]]; try discriminate.
  intros H. apply bytesOfDigits_cons in H as (a & b & l & Ha & Hb & Hr & Hv).
  inversion Hv; subst. destruct r as [| c3 [| c4 r]]; try discriminate.
  - now exists c1, c2, a, b.
  - simpl in Hr. destruct (hexDigit c3), (hexDigit c4), (bytesOfDigits r); discriminate.
Qed.

Lemma hexBytes_inv (h : Hex) (bs : list Z) :
  hexBytes h = Some bs -> exists body, h = "0x" +++ body /\ bytesOfDigits body = Some bs.
Proof.
  destruct h as [| c1 [| c2 r]]; try discriminate. unfold hexBytes.
  destruct (Ascii.eqb c1 "0") eqn:E1; [| discriminate].
  destruct (Ascii.eqb c2 "x") eqn:E2; [| discriminate].
  apply Ascii.eqb_eq in E1, E2. subst. intros H. now exists r.
Qed.

Lemma hexBytes_0x (body : string) : hexBytes ("0x" +++ body) = bytesOfDigits body.
Proof. reflexivity. Qed.

Lemma parseInt_byte (c1 c2 : ascii) (a b : Z) :
  hexDigit c1 = Some a -> hexDigit c2 = Some b ->
  parseInt ("0x" +++ String c1 (String c2 EmptyString)) = number_of_Z (16 * a + b).
Proof.
  intros Ha Hb. pose proof (hexDigit_range _ _ Ha). pose proof (hexDigit_range _ _ Hb).
  unfold parseInt. cbn [String.append trimStart isWhiteSpace].
  change (isWhiteSpace "0") with false. cbv iota.
  cbn [digitsPrefix]. unfold digitValue. rewrite Ha, Hb.
  destruct (Z.ltb_spec a 16); [| lia]. destruct (Z.ltb_spec b 16); [| lia].
  cbn [Nat.eqb]. replace ((0 * 16 + a) * 16 + b) with (16 * a + b) by lia.
  destruct (Z.eqb_spec (16 * a + b) 0) as [-> | _]; reflexivity.
Qed.

Lemma parseInt_no_digit : parseInt "0x" = NaN.
Proof. reflexivity. Qed.

Lemma vByteCheck_all :
  forallb (fun n => vByteCheck (Z.of_nat n) 0 && vByteCheck (Z.of_nat n) 32) (seq 0 256) = true.
Proof. vm_compute. reflexivity. Qed.

Lemma vByteCheck_true (v a : Z) :
  0 <= v < 256 -> a = 0 \/ a = 32 -> vByteCheck v a = true.
Proof.
  intros Hv Ha. pose proof vByteCheck_all as H.
  rewrite forallb_forall in H. specialize (H (Z.to_nat v)).
  rewrite Z2Nat.id in H by lia.
  assert (Hin : In (Z.to_nat v) (seq 0 256)) by (apply in_seq; lia).
  apply H in Hin. apply andb_true_iff in Hin as [H0 H32].
  destruct Ha; subst; assumption.
Qed.

Lemma toHex_byte (v a : Z) :
  0 <= v < 256 -> a = 0 \/ a = 32 -> v + a <= 255 ->
  exists d, toHex_number (num_add (number_of_Z v) (number_of_Z a)) (Some 1%nat) = Ok ("0x" +++ d)
            /\ bytesOfDigits d = Some [v + a].
Proof.
  intros Hv Ha Hle. pose proof (vByteCheck_true v a Hv Ha) as H. unfold vByteCheck in H.
  destruct (toHex_number _ _) as [h | err].
  - apply andb_true_iff in H as [_ H].
    destruct (hexBytes h) as [[| x [| y l]] |] eqn:Hh; try discriminate.
    apply Z.eqb_eq in H; subst x.
    apply hexBytes_inv in Hh as (d & -> & Hd). now exists d.
  - destruct err; try discriminate. apply Z.ltb_lt in H. lia.
Qed.

Lemma toHex_byte_overflow (v a : Z) :
  0 <= v < 256 -> a = 0 \/ a = 32 -> 255 < v + a ->
  toHex_number (num_add (number_of_Z v) (number_of_Z a)) (Some 1%nat) = Err IntegerOutOfRangeError.
Proof.
  intros Hv Ha Hlt. pose proof (vByteCheck_true v a Hv Ha) as H. unfold vByteCheck in H.
  destruct (toHex_number _ _) as [h | err].
  - apply andb_true_iff in H as [H _]. apply Z.leb_le in H. lia.
  - destruct err; try discriminate. reflexivity.
Qed.

Lemma addV_cases (e : SignatureEntry) : addV e = 0 \/ addV e = 32.
Proof. unfold addV. destruct (isActual e); [now right | now left]. Qed.

(* ================================================================== *)
(** ** One entry of the packed signature *)
(* ================================================================== *)

Lemma takeBytes_v (body : string) :
  takeBytes ("0x" +++ body) (Some 64%nat) (Some 1%nat)
  = "0x" +++ str_take 2 (str_drop 128 body).
Proof. reflexivity. Qed.

Lemma takeBytes_rs (body : string) :
  takeBytes ("0x" +++ body) None (Some 64%nat) = "0x" +++ str_take 128 body.
Proof. reflexivity. Qed.

Lemma skipn_last_byte (bs : list Z) :
  List.length bs = 65%nat -> skipn 64 bs = [nth 64 bs 0].
Proof.
  intros H. do 65 (destruct bs as [| ? bs]; [discriminate |]).
  destruct bs; [reflexivity | discriminate].
Qed.

(** The digits an entry with a 65-byte raw signature adds to the packed
    signature, in terms of its bytes. *)
Lemma packSignature_digits (e : SignatureEntry) (body : string) (bs : list Z) :
  sig_signature e = "0x" +++ body ->
  bytesOfDigits body = Some bs -> List.length bs = 65%nat ->
  packSignature e =
    let* vHex := toHex_number (num_add (number_of_Z (nth 64 bs 0)) (number_of_Z (addV e)))
                              (Some 1%nat) in
    Ok (slice (concatHex ["0x" +++ str_take 128 body; vHex]) 2 None).
Proof.
  intros Hs Hb Hlen. unfold packSignature. rewrite Hs, takeBytes_v, takeBytes_rs.
  pose proof (bytesOfDigits_drop body bs 64 Hb) as Hd.
  rewrite (skipn_last_byte bs Hlen) in Hd. change (2 * 64)%nat with 128%nat in Hd.
  apply bytesOfDigits_single in Hd as (c1 & c2 & a & b & Hd & Ha & Hb' & Hv).
  rewrite Hd. cbn [str_take]. rewrite (parseInt_byte c1 c2 a b Ha Hb'), <- Hv.
  reflexivity.
Qed.

Lemma packSignature_ok (e : SignatureEntry) (bs : list Z) :
  hexBytes (sig_signature e) = Some bs -> List.length bs = 65%nat ->
  nth 64 bs 0 + addV e <= 255 ->
  exists digits, packSignature e = Ok digits
                 /\ bytesOfDigits digits = Some (firstn 64 bs ++ [nth 64 bs 0 + addV e]).
Proof.
  intros Hh Hlen Hv. apply hexBytes_inv in Hh as (body & Hs & Hb).
  rewrite (packSignature_digits e body bs Hs Hb Hlen).
  assert (Hr : 0 <= nth 64 bs 0 < 256).
  { pose proof (bytesOfDigits_range body bs Hb) as Hall. rewrite Forall_forall in Hall.
    apply Hall, nth_In. lia. }
  destruct (toHex_byte _ _ Hr (addV_cases e) Hv) as (d & Hd & Hdb).
  rewrite Hd. cbn [rbind]. eexists. split; [reflexivity |].
  change (slice (concatHex ["0x" +++ str_take 128 body; "0x" +++ d]) 2 None)
    with ((EmptyString +++ str_take 128 body) +++ d).
  cbn [String.append]. apply bytesOfDigits_app; [| exact Hdb].
  exact (bytesOfDigits_take body bs 64 Hb).
Qed.

Lemma packSignature_overflow (e : SignatureEntry) (bs : list Z) :
  hexBytes (sig_signature e) = Some bs -> List.length bs = 65%nat ->
  255 < nth 64 bs 0 + addV e ->
  packSignature e = Err IntegerOutOfRangeError.
Proof.
  intros Hh Hlen Hv. apply hexBytes_inv in Hh as (body & Hs & Hb).
  rewrite (packSignature_digits e body bs Hs Hb Hlen).
  assert (Hr : 0 <= nth 64 bs 0 < 256).
  { pose proof (bytesOfDigits_range body bs Hb) as Hall. rewrite Forall_forall in Hall.
    apply Hall, nth_In. lia. }
  rewrite (toHex_byte_overflow _ _ Hr (addV_cases e) Hv). reflexivity.
Qed.

(** A raw signature that ends before its 65th byte has no recovery byte to
    read: [parseInt] yields NaN and the conversion to hex throws. *)
Lemma packSignature_short (e : SignatureEntry) :
  (String.length (sig_signature e) <= 130)%nat -> packSignature e = Err RangeError.
Proof.
  intros H. unfold packSignature, takeBytes. cbn [Nat.eqb Nat.mul Nat.add slice].
  change (64 * 2 + 2)%nat with 130%nat.
  rewrite (str_drop_short 130 _ H). destruct (_ - _)%nat; reflexivity.
Qed.

Lemma wellFormed_inv (e : SignatureEntry) :
  wellFormed e = true ->
  (exists k, hexToBigInt (sig_signer e) = Ok k /\ signerKey e = k)
  /\ hexBytes (sig_signature e) = Some (rawBytes e)
  /\ List.length (rawBytes e) = 65%nat
  /\ rawV e + addV e <= 255.
Proof.
  unfold wellFormed, signerKey, rawV, rawBytes. intros H.
  apply andb_true_iff in H as [Hk Hb].
  destruct (hexToBigInt (sig_signer e)) as [k |]; [| discriminate].
  destruct (hexBytes (sig_signature e)) as [bs |]; [| discriminate].
  apply andb_true_iff in Hb as [Hl Hv]. apply Nat.eqb_eq in Hl. apply Z.leb_le in Hv.
  repeat split; eauto.
Qed.

Lemma packSignature_block (e : SignatureEntry) :
  wellFormed e = true ->
  exists digits, packSignature e = Ok digits /\ bytesOfDigits digits = Some (block e).
Proof.
  intros H. apply wellFormed_inv in H as (_ & Hb & Hl & Hv).
  exact (packSignature_ok e (rawBytes e) Hb Hl Hv).
Qed.

Lemma block_length (e : SignatureEntry) :
  List.length (rawBytes e) = 65%nat -> List.length (block e) = 65%nat.
Proof.
  intros H. unfold block. rewrite length_app, length_firstn, H. reflexivity.
Qed.

(* ================================================================== *)
(** ** The sort *)
(* ================================================================== *)

Section SortByKey.

Context {A : Type}.

Let le (a b : Z * A) : Prop := fst a <= fst b.

Lemma insertByKey_perm (x : Z * A) (l : list (Z * A)) :
  Permutation (x :: l) (insertByKey x l).
Proof.
  induction l as [| y t IH]; simpl; [reflexivity |].
  destruct (fst x <=? fst y); [reflexivity |].
  rewrite perm_swap. now apply perm_skip.
Qed.

Lemma sortByKey_perm (l : list (Z * A)) : Permutation l (sortByKey l).
Proof.
  induction l as [| x l IH]; simpl; [reflexivity |].
  rewrite <- insertByKey_perm. now apply perm_skip.
Qed.

Lemma insertByKey_sorted (x : Z * A) (l : list (Z * A)) :
  StronglySorted le l -> StronglySorted le (insertByKey x l).
Proof.
  induction 1 as [| y t Hs IH Hall]; simpl.
  - repeat constructor.
  - destruct (Z.leb_spec (fst x) (fst y)) as [Hle | Hgt].
    + constructor; [now constructor |].
      constructor; [exact Hle |].
      rewrite Forall_forall in Hall |- *. intros z Hz. specialize (Hall z Hz).
      unfold le in *. lia.
    + constructor; [exact IH |].
      rewrite Forall_forall in Hall |- *. intros z Hz.
      apply (Permutation_in _ (Permutation_sym (insertByKey_perm x t))) in Hz.
      destruct Hz as [<- | Hz]; [unfold le; lia | now apply Hall].
Qed.

Lemma sortByKey_sorted (l : list (Z * A)) : StronglySorted le (sortByKey l).
Proof.
  induction l as [| x l IH]; simpl; [constructor | now apply insertByKey_sorted].
Qed.

(** Stability: entries of equal key keep their input order. *)
Lemma insertByKey_filter (k : Z) (x : Z * A) (l : list (Z * A)) :
  StronglySorted le l ->
  filter (fun p => fst p =? k) (insertByKey x l) = filter (fun p => fst p =? k) (x :: l).
Proof.
  induction 1 as [| y t Hs IH Hall]; [reflexivity |].
  cbn [insertByKey]. destruct (Z.leb_spec (fst x) (fst y)) as [Hle | Hgt]; [reflexivity |].
  cbn [filter] in *. rewrite IH.
  destruct (Z.eqb_spec (fst x) k) as [Hx | Hx]; [| reflexivity].
  destruct (Z.eqb_spec (fst y) k) as [Hy | Hy]; [lia | reflexivity].
Qed.

Lemma sortByKey_stable (k : Z) (l : list (Z * A)) :
  filter (fun p => fst p =? k) (sortByKey l) = filter (fun p => fst p =? k) l.
Proof.
  induction l as [| x l IH]; [reflexivity |].
  cbn [sortByKey fold_right]. fold (sortByKey l).
  rewrite insertByKey_filter by apply sortByKey_sorted.
  cbn [filter]. now rewrite IH.
Qed.

End SortByKey.

(** Two sorted arrangements of the same elements coincide when the order
    tells any two of the elements apart. *)
Lemma sorted_perm_unique {A : Type} (R : A -> A -> Prop) (l1 : list A) : forall l2,
  (forall a b, In a l1 -> In b l1 -> R a b -> R b a -> a = b) ->
  StronglySorted R l1 -> StronglySorted R l2 -> Permutation l1 l2 -> l1 = l2.
Proof.
  induction l1 as [| a t1 IH]; intros l2 Hanti H1 H2 Hp.
  - apply Permutation_nil in Hp. now subst.
  - destruct l2 as [| b t2]; [apply Permutation_sym, Permutation_nil in Hp; discriminate |].
    inversion H1 as [| ? ? H1t H1a]; inversion H2 as [| ? ? H2t H2b]; subst.
    rewrite Forall_forall in H1a, H2b.
    assert (Hab : a = b).
    { assert (Ha : In a (b :: t2)) by (apply (Permutation_in _ Hp); now left).
      assert (Hb : In b (a :: t1))
        by (apply (Permutation_in _ (Permutation_sym Hp)); now left).
      destruct Ha as [-> | Ha]; [reflexivity |].
      destruct Hb as [-> | Hb]; [reflexivity |].
      apply Hanti; [now left | now right | now apply H1a | now apply H2b]. }
    subst b. f_equal. apply Permutation_cons_inv in Hp.
    apply IH; auto. intros x y Hx Hy. apply Hanti; now right.
Qed.

Lemma keyed_ok (l : list SignatureEntry) :
  Forall (fun e => is_ok (hexToBigInt (sig_signer e)) = true) l ->
  keyed l = Ok (map (fun e => (signerKey e, e)) l).
Proof.
  induction 1 as [| e l He Hl IH]; [reflexivity |].
  cbn [keyed map]. unfold signerKey at 1.
  destruct (hexToBigInt (sig_signer e)) as [k |]; [| discriminate].
  cbn [rbind]. rewrite IH. reflexivity.
Qed.

Lemma keyed_inv (l : list SignatureEntry) : forall ks,
  keyed l = Ok ks ->
  ks = map (fun e => (signerKey e, e)) l
  /\ Forall (fun e => is_ok (hexToBigInt (sig_signer e)) = true) l.
Proof.
  induction l as [| e l IH]; intros ks H; cbn [keyed] in H.
  - inversion H; subst. split; constructor.
  - unfold signerKey. cbn [map].
    destruct (hexToBigInt (sig_signer e)) as [k |] eqn:Hk; [| discriminate].
    cbn [rbind] in H. destruct (keyed l) as [ks' |]; [| discriminate].
    destruct (IH ks' eq_refl) as [-> Hall]. inversion H; subst.
    split; [reflexivity |]. constructor; [now rewrite Hk | exact Hall].
Qed.

Lemma sortedEntries_short (l : list SignatureEntry) :
  (List.length l < 2)%nat -> sortedEntries l = l.
Proof. destruct l as [| a [| b l]]; simpl; intros; try reflexivity; lia. Qed.

(** Whenever the sort returns, it returns [sortedEntries]. *)
Lemma sortSignatures_inv (l sorted : list SignatureEntry) :
  sortSignatures l = Ok sorted -> sorted = sortedEntries l.
Proof.
  destruct l as [| a [| b l]]; intros H.
  - inversion H; reflexivity.
  - inversion H; reflexivity.
  - unfold sortSignatures in H.
    destruct (keyed (a :: b :: l)) as [ks |] eqn:Hk; [| discriminate].
    apply keyed_inv in Hk as [-> _]. inversion H; reflexivity.
Qed.

Lemma sortSignatures_ok (l : list SignatureEntry) :
  Forall (fun e => is_ok (hexToBigInt (sig_signer e)) = true) l ->
  sortSignatures l = Ok (sortedEntries l).
Proof.
  intros H. destruct l as [| a [| b l]]; try reflexivity.
  unfold sortSignatures. rewrite (keyed_ok _ H). reflexivity.
Qed.

Lemma sortedEntries_perm (l : list SignatureEntry) : Permutation l (sortedEntries l).
Proof.
  unfold sortedEntries.
  rewrite <- (sortByKey_perm (map (fun e => (signerKey e, e)) l)).
  rewrite map_map. cbn [snd]. rewrite map_id. reflexivity.
Qed.

Lemma sortedEntries_sorted (l : list SignatureEntry) :
  StronglySorted keyLe (sortedEntries l).
Proof.
  unfold sortedEntries.
  pose proof (sortByKey_sorted (map (fun e => (signerKey e, e)) l)) as Hs.
  assert (Hk : Forall (fun p => fst p = signerKey (snd p))
                      (sortByKey (map (fun e => (signerKey e, e)) l))).
  { rewrite Forall_forall. intros p Hp.
    apply (Permutation_in _ (Permutation_sym (sortByKey_perm _))) in Hp.
    apply in_map_iff in Hp as (e & <- & _). reflexivity. }
  induction Hs as [| p t Hs IH Hall]; [constructor |].
  inversion Hk as [| ? ? Hp Ht]; subst. cbn [map]. constructor; [now apply IH |].
  rewrite Forall_forall in Hall, Ht |- *. intros e He.
  apply in_map_iff in He as (q & <- & Hq).
  unfold keyLe. rewrite <- Hp, <- (Ht q Hq). now apply Hall.
Qed.

(** The order of the input does not matter when no two signers read as the
    same integer. *)
Lemma sortedEntries_order_independent (l l' : list SignatureEntry) :
  Permutation l l' -> NoDup (map signerKey l) -> sortedEntries l = sortedEntries l'.
Proof.
  intros Hp Hnd.
  apply (sorted_perm_unique keyLe);
    [| apply sortedEntries_sorted | apply sortedEntries_sorted |].
  - intros a b Ha Hb Hab Hba.
    apply (Permutation_in _ (Permutation_sym (sortedEntries_perm l))) in Ha, Hb.
    assert (Hkey : signerKey a = signerKey b) by (unfold keyLe in *; lia).
    clear Hab Hba Hp. induction l as [| x l IH]; [contradiction |].
    cbn [map] in Hnd. inversion Hnd as [| ? ? Hx Hl]; subst.
    destruct Ha as [-> | Ha], Hb as [-> | Hb]; auto.
    + exfalso. apply Hx. rewrite Hkey. now apply in_map.
    + exfalso. apply Hx. rewrite <- Hkey. now apply in_map.
  - rewrite <- (sortedEntries_perm l), <- (sortedEntries_perm l'). exact Hp.
Qed.

(* ================================================================== *)
(** ** The packed signature *)
(* ================================================================== *)

Lemma forEachPack_ok (l : list SignatureEntry) : forall acc,
  Forall (fun e => wellFormed e = true) l ->
  exists digits, forEachPack l acc = Ok (acc +++ digits)
                 /\ bytesOfDigits digits = Some (flat_map block l).
Proof.
  induction l as [| e l IH]; intros acc H.
  - exists EmptyString. now rewrite append_empty_r.
  - inversion H as [| ? ? He Hl]; subst.
    destruct (packSignature_block e He) as (d & Hd & Hdb).
    destruct (IH (acc +++ d) Hl) as (ds & Hds & Hdsb).
    exists (d +++ ds). cbn [forEachPack flat_map]. rewrite Hd. cbn [rbind].
    rewrite Hds, append_assoc. split; [reflexivity |].
    now apply bytesOfDigits_app.
Qed.

Lemma forEachPack_err (l : list SignatureEntry) (e : SignatureEntry) (x : error) :
  In e l -> packSignature e = Err x ->
  forall acc, exists err, forEachPack l acc = Err err.
Proof.
  induction l as [| y l IH]; intros Hin He acc; [contradiction |].
  cbn [forEachPack]. destruct Hin as [-> | Hin].
  - rewrite He. now exists x.
  - destruct (packSignature y) as [d |]; cbn [rbind]; [now apply IH | eauto].
Qed.

Lemma flat_map_block_length (l : list SignatureEntry) :
  Forall (fun e => wellFormed e = true) l ->
  List.length (flat_map block l) = (65 * List.length l)%nat.
Proof.
  induction 1 as [| e l He Hl IH]; [reflexivity |].
  cbn [flat_map]. rewrite length_app, IH.
  apply wellFormed_inv in He as (_ & _ & Hlen & _).
  rewrite (block_length e Hlen). cbn [List.length]. lia.
Qed.


(** C7.  When the signers read as pairwise distinct integers, packing the
    same entries in any order gives the same result, byte for byte; and of
    two entries the one whose signer reads as the smaller integer is packed
    first, whichever signed first. *)
Theorem buildMultiSigUserOp_order_independent (userOp : UserOperation)
  (signatures signatures' : list SignatureEntry) :
  Permutation signatures signatures' ->
  Forall (fun e => is_ok (hexToBigInt (sig_signer e)) = true) signatures ->
  NoDup (map signerKey signatures) ->
  buildMultiSigUserOp userOp signatures = buildMultiSigUserOp userOp signatures'
  /\ (forall a b, signatures = [a; b] -> signerKey b < signerKey a ->
        sortSignatures [a; b] = Ok [b; a] /\ sortSignatures [b; a] = Ok [b; a]
        /\ buildMultiSigUserOp userOp [a; b] =
             (let* db := packSignature b in
              let* da := packSignature a in
              Ok (with_signature userOp ("0x" +++ db +++ da)))).
Proof.
  intros Hp Hk Hnd.
  assert (Hk' : Forall (fun e => is_ok (hexToBigInt (sig_signer e)) = true) signatures').
  { rewrite Forall_forall in Hk |- *. intros e He.
    apply Hk, (Permutation_in _ (Permutation_sym Hp)), He. }
  split.
  - unfold buildMultiSigUserOp.
    rewrite (sortSignatures_ok _ Hk), (sortSignatures_ok _ Hk').
    now rewrite (sortedEntries_order_independent _ _ Hp Hnd).
  - intros a b -> Hlt.
    assert (Hba : Forall (fun e => is_ok (hexToBigInt (sig_signer e)) = true) [b; a]).
    { inversion Hk as [| ? ? Ha Hb]; subst. inversion Hb; subst. repeat constructor; auto. }
    assert (Hs1 : sortedEntries [a; b] = [b; a]).
    { unfold sortedEntries. cbn. destruct (Z.leb_spec (signerKey a) (signerKey b)); [lia |].
      reflexivity. }
    assert (Hs2 : sortedEntries [b; a] = [b; a]).
    { unfold sortedEntries. cbn. destruct (Z.leb_spec (signerKey b) (signerKey a)); [| lia].
      reflexivity. }
    rewrite (sortSignatures_ok _ Hk), (sortSignatures_ok _ Hba), Hs1, Hs2.
    repeat split. unfold buildMultiSigUserOp.
    rewrite (sortSignatures_ok _ Hk), Hs1. cbn [rbind forEachPack].
    destruct (packSignature b) as [db |]; cbn [rbind]; [| reflexivity].
    destruct (packSignature a) as [da |]; cbn [rbind]; reflexivity.
Qed.

(** C8 (amended).  An entry whose raw signature stops before its 65th byte
    (at most 130 characters, the 0x prefix included) makes the packing fail:
    no packed signature is produced. *)
Theorem buildMultiSigUserOp_short_signature (userOp : UserOperation)
  (signatures : list SignatureEntry) (e : SignatureEntry) :
  In e signatures -> (String.length (sig_signature e) <= 130)%nat ->
  packSignature e = Err RangeError
  /\ exists err, buildMultiSigUserOp userOp signatures = Err err.
Proof.
  intros Hin Hlen. pose proof (packSignature_short e Hlen) as He. split; [exact He |].
  unfold buildMultiSigUserOp.
  destruct (sortSignatures signatures) as [sorted | err] eqn:Hs; cbn [rbind]; [| eauto].
  apply sortSignatures_inv in Hs. subst sorted.
  assert (Hin' : In e (sortedEntries signatures))
    by (apply (Permutation_in _ (sortedEntries_perm signatures)), Hin).
  destruct (forEachPack_err _ e _ Hin' He EmptyString) as (err & ->). cbn [rbind]. eauto.
Qed.

(* ================================================================== *)
(** ** Computations with a trace *)
(* ================================================================== *)

Lemma M_eta {A : Type} (m : M A) : m = (trace m, outcome m).
Proof. now destruct m. Qed.

Lemma bind_ret_l {A B : Type} (a : A) (k : A -> M B) : bind (ret a) k = k a.
Proof. unfold bind, ret. now destruct (k a). Qed.

Lemma bind_lift_ok {A B : Type} (a : A) (k : A -> M B) : bind (lift (Ok a)) k = k a.
Proof. exact (bind_ret_l a k). Qed.

Lemma bind_call_ok {A B : Type} (ev : event) (a : A) (k : A -> M B) :
  bind (call ev (Ok a)) k = (ev :: trace (k a), outcome (k a)).
Proof. unfold bind, call. now destruct (k a). Qed.

Lemma bind_err {A B : Type} (t : list event) (e : error) (k : A -> M B) :
  bind (t, Err e) k = (t, Err e).
Proof. reflexivity. Qed.

Lemma bind_ok {A B : Type} (m : M A) (k : A -> M B) (tr : list event) (b : B) :
  bind m k = (tr, Ok b) ->
  exists a t1 t2, m = (t1, Ok a) /\ k a = (t2, Ok b) /\ tr = t1 ++ t2.
Proof.
  destruct m as [t1 [a | e]]; cbn [bind]; [| discriminate].
  destruct (k a) as [t2 r] eqn:Hk. intros H. inversion H; subst.
  now exists a, t1, t2.
Qed.

Lemma outcome_ok {A : Type} (m : M A) (a : A) :
  outcome m = Ok a -> m = (trace m, Ok a).
Proof. destruct m as [t r]. cbn. now intros ->. Qed.

Ltac bind_inv H :=
  let a := fresh "a" in
  let t1 := fresh "t" in
  let t2 := fresh "t" in
  let H1 := fresh "Hm" in
  let H2 := fresh "Hk" in
  let Ht := fresh "Htr" in
  apply bind_ok in H as (a & t1 & t2 & H1 & H2 & Ht).

(* ================================================================== *)
(** ** The fee estimator *)
(* ================================================================== *)

Section Estimator.

Variable w : World.
Variable bundlerRPCUrl : string.

(** What a successful estimation went through, step by step. *)
Lemma estimateUserOp_inv (userOp : UserOperation) (numSigners : nat)
  (gasFeesMultiplier : number) (tr : list event) (r : UserOperation) :
  estimateUserOp w bundlerRPCUrl userOp numSigners gasFeesMultiplier = (tr, Ok r) ->
  exists fees tA floor scaled gasLimits,
    estimateFeesPerGas w = Ok fees
    /\ truthy_bigint (fees_maxFeePerGas fees) = true
    /\ truthy_bigint (fees_maxPriorityFeePerGas fees) = true
    /\ num_lt gasFeesMultiplier (number_of_Z 1) = false
    /\ alchemyMinPriorityFee w bundlerRPCUrl = (tA, Ok floor)
    /\ BigInt_of_number (scaledGasFeesMultiplier gasFeesMultiplier) = Ok scaled
    /\ let fee := scaleFee (nonNull (fees_maxFeePerGas fees)) scaled in
       let prio := maxBigInt (scaleFee (nonNull (fees_maxPriorityFeePerGas fees)) scaled) floor in
       let request := estimateRequest userOp numSigners prio fee in
       estimateUserOperationGas w request = Ok gasLimits
       /\ r = estimateAnswer userOp prio fee gasLimits
       /\ tr = EvEstimateFeesPerGas :: tA ++ [EvEstimateUserOperationGas request].
Proof.
  unfold estimateUserOp. intros H.
  bind_inv H. unfold call in Hm. inversion Hm as [[Ht Hfees]]; subst t. clear Hm.
  symmetry in Hfees.
  destruct (truthy_bigint (fees_maxFeePerGas a)) eqn:T1;
    [| cbn in Hk; discriminate].
  destruct (truthy_bigint (fees_maxPriorityFeePerGas a)) eqn:T2;
    [| cbn in Hk; discriminate].
  cbn [negb orb] in Hk. rewrite bind_ret_l in Hk.
  destruct (num_lt gasFeesMultiplier (number_of_Z 1)) eqn:Hlt;
    [cbn in Hk; discriminate |].
  rewrite bind_ret_l in Hk.
  bind_inv Hk. rename a0 into floor, t into tA.
  bind_inv Hk0. unfold lift in Hm0. inversion Hm0 as [[Ht Hs]]; subst t. clear Hm0.
  symmetry in Hs. rename a0 into scaled.
  bind_inv Hk. unfold call in Hm0. inversion Hm0 as [[Ht Hg]]; subst t. clear Hm0.
  symmetry in Hg. rename a0 into gasLimits.
  unfold ret in Hk0. inversion Hk0; subst.
  exists a, tA, floor, scaled, gasLimits. repeat split; auto.
Qed.

End Estimator.

Lemma alchemyMinPriorityFee_trace (w : World) (url : string) :
  trace (alchemyMinPriorityFee w url)
  = if isAlchemyBundler w url then [EvFetchMinPriorityFee url] else [].
Proof.
  unfold alchemyMinPriorityFee. destruct (isAlchemyBundler w url); [| reflexivity].
  destruct (fetchMinPriorityFee w url) as [resp | e]; [| reflexivity].
  rewrite bind_call_ok. destruct (truthy_string (response_result resp)); reflexivity.
Qed.

Lemma placeholderPattern_bytes :
  exists pb, bytesOfDigits placeholderPattern = Some pb /\ List.length pb = 65%nat.
Proof. eexists. split; [vm_compute; reflexivity | reflexivity]. Qed.

Lemma placeholderSignature_bytes (numSigners : nat) :
  exists bs, hexBytes (placeholderSignature numSigners) = Some bs
             /\ List.length bs = (65 * numSigners)%nat.
Proof.
  unfold placeholderSignature. rewrite hexBytes_0x.
  destruct placeholderPattern_bytes as (pb & Hpb & Hlen).
  induction numSigners as [| n (bs & Hbs & Hl)].
  - exists []. split; reflexivity.
  - exists (pb ++ bs). split.
    + cbn [str_repeat]. now apply bytesOfDigits_app.
    + rewrite length_app. lia.
Qed.

(** C4.  A successful estimation made exactly one gas-estimation call; the
    operation sent there carries the placeholder signature, which is
    65 * numSigners bytes long; no other call carries it; and the operation
    returned has an empty signature and the three limits the bundler
    answered. *)
Theorem estimateUserOp_placeholder (w : World) (url : string) (userOp : UserOperation)
  (numSigners : nat) (gasFeesMultiplier : number) (r : UserOperation) :
  outcome (estimateUserOp w url userOp numSigners gasFeesMultiplier) = Ok r ->
  exists request gasLimits bs,
    trace (estimateUserOp w url userOp numSigners gasFeesMultiplier)
    = EvEstimateFeesPerGas
        :: (if isAlchemyBundler w url then [EvFetchMinPriorityFee url] else [])
        ++ [EvEstimateUserOperationGas request]
    /\ signature request = placeholderSignature numSigners
    /\ hexBytes (signature request) = Some bs
    /\ List.length bs = (65 * numSigners)%nat
    /\ estimateUserOperationGas w request = Ok gasLimits
    /\ signature r = "0x"
    /\ callGasLimit r = est_callGasLimit gasLimits
    /\ verificationGasLimit r = est_verificationGasLimit gasLimits
    /\ preVerificationGas r = est_preVerificationGas gasLimits.
Proof.
  intros H. apply outcome_ok in H.
  apply estimateUserOp_inv in H
    as (fees & tA & floor & scaled & g & _ & _ & _ & _ & HA & _ & Hg & -> & Htr).
  destruct (placeholderSignature_bytes numSigners) as (bs & Hbs & Hlen).
  eexists _, g, bs. rewrite Htr.
  pose proof (alchemyMinPriorityFee_trace w url) as HtA. rewrite HA in HtA. cbn [trace fst] in HtA.
  rewrite HtA. repeat split; eauto.
Qed.

(** C6 (amended).  With a multiplier below 1 and a fee oracle that answered
    both fees, the estimator ends with InvalidConfig; the fee-oracle query is
    the only call made: the provider's minimum fee is not asked for and no
    gas estimation is requested. *)
Theorem estimateUserOp_multiplier_below_one (w : World) (url : string)
  (userOp : UserOperation) (numSigners : nat) (gasFeesMultiplier : number)
  (fees : FeesPerGas) :
  num_lt gasFeesMultiplier (number_of_Z 1) = true ->
  estimateFeesPerGas w = Ok fees ->
  truthy_bigint (fees_maxFeePerGas fees) = true ->
  truthy_bigint (fees_maxPriorityFeePerGas fees) = true ->
  estimateUserOp w url userOp numSigners gasFeesMultiplier
  = ([EvEstimateFeesPerGas], Err InvalidConfig).
Proof.
  intros Hlt Hf T1 T2. unfold estimateUserOp.
  rewrite Hf, bind_call_ok, T1, T2. cbn [negb orb]. rewrite bind_ret_l, Hlt.
  reflexivity.
Qed.

(** C9 (amended).  For the known provider, once the fees are fetched and
    scaled: a rejected minimum-fee query is propagated; an answer without a
    usable [result] lets zero stand as the floor; an answer with a [result]
    floors the scaled priority fee at that value (the maximum of the two). *)
Theorem estimateUserOp_priority_floor (w : World) (url : string) (userOp : UserOperation)
  (numSigners : nat) (gasFeesMultiplier : number) (fees : FeesPerGas) (scaled : Z) :
  isAlchemyBundler w url = true ->
  estimateFeesPerGas w = Ok fees ->
  truthy_bigint (fees_maxFeePerGas fees) = true ->
  truthy_bigint (fees_maxPriorityFeePerGas fees) = true ->
  num_lt gasFeesMultiplier (number_of_Z 1) = false ->
  BigInt_of_number (scaledGasFeesMultiplier gasFeesMultiplier) = Ok scaled ->
  let fee := scaleFee (nonNull (fees_maxFeePerGas fees)) scaled in
  let scaledPriority := scaleFee (nonNull (fees_maxPriorityFeePerGas fees)) scaled in
  let run := estimateUserOp w url userOp numSigners gasFeesMultiplier in
  let flooredAt (floor : Z) : M UserOperation :=
    let request := estimateRequest userOp numSigners (Z.max scaledPriority floor) fee in
    ([EvEstimateFeesPerGas; EvFetchMinPriorityFee url; EvEstimateUserOperationGas request],
     let* gasLimits := estimateUserOperationGas w request in
     Ok (estimateAnswer userOp (Z.max scaledPriority floor) fee gasLimits)) in
  let failed (e : error) : M UserOperation :=
    ([EvEstimateFeesPerGas; EvFetchMinPriorityFee url], Err e) in
  match fetchMinPriorityFee w url with
  | Err e => run = failed e
  | Ok response =>
      match response_result response with
      | None => run = flooredAt 0
      | Some s =>
          if String.eqb s EmptyString then run = flooredAt 0
          else match BigInt_of_string s with
               | Ok minimum => run = flooredAt minimum
               | Err e => run = failed e
               end
      end
  end.
Proof.
  intros Ha Hf T1 T2 Hlt Hs fee scaledPriority run flooredAt failed.
  subst run flooredAt failed. unfold estimateUserOp, alchemyMinPriorityFee.
  rewrite Hf, bind_call_ok, T1, T2. cbn [negb orb]. rewrite bind_ret_l, Hlt, bind_ret_l, Ha, Hs.
  destruct (fetchMinPriorityFee w url) as [response | e]; [| reflexivity].
  cbv [bind call lift ret trace outcome fst snd truthy_string].
  destruct (response_result response) as [s |];
    [destruct (String.eqb s EmptyString); cbn [negb];
     [| destruct (BigInt_of_string s) as [v | e]; [| reflexivity]] |];
    destruct (estimateUserOperationGas w _); reflexivity.
Qed.

(* ================================================================== *)
(** ** The signing pass *)
(* ================================================================== *)

Section Orchestrator.

Variable w : World.
Variable bundlerRPCUrl : string.

Lemma signUserOp_inv (signer : Signer) (userOp : UserOperation) (tr : list event)
  (signature_ : string) :
  signUserOp w signer userOp = (tr, Ok signature_) ->
  exists p h,
    packUserOp userOp = Ok p
    /\ readContract_getUserOpHash w p = Ok h
    /\ signMessage w (privateKey signer) h = Ok signature_
    /\ tr = signEvents p signer h.
Proof.
  unfold signUserOp, getUserOpHash. intros H.
  bind_inv H. bind_inv Hm. unfold lift in Hm0. inversion Hm0 as [[Ht Hp]]; subst.
  unfold call in Hk0, Hk. inversion Hk0 as [[Ht Hh]]; subst. inversion Hk as [[Ht Hs]]; subst.
  exists a0, a. repeat split; auto.
Qed.

Lemma getPartialUserOp_inv (senderAddress : Address) (callData_ : Hex)
  (tr : list event) (userOp : UserOperation) :
  getPartialUserOp w senderAddress callData_ = (tr, Ok userOp) ->
  exists nonce_,
    getAccountNonce w senderAddress = Ok nonce_ /\ nonce_ <> 0
    /\ userOp = baseUserOp senderAddress nonce_ callData_
    /\ tr = [EvGetAccountNonce senderAddress].
Proof.
  unfold getPartialUserOp. intros H.
  bind_inv H. unfold call in Hm. inversion Hm as [[Ht Hn]]; subst.
  destruct (Z.eqb_spec a 0) as [-> | Hne]; [cbn in Hk; discriminate |].
  rewrite bind_ret_l in Hk. unfold ret in Hk. inversion Hk; subst.
  exists a. repeat split; auto.
Qed.

Lemma passes_entries (userOp : UserOperation) (signers : list Signer)
  (es : list SignatureEntry) (tr : list event) :
  passes w userOp signers es tr ->
  Forall2 (fun signer e => entryOf w signer userOp None e) signers es.
Proof.
  induction 1; constructor; auto. unfold entryOf, signsHashOf. eauto 10.
Qed.

Lemma passes_no_estimate (userOp : UserOperation) (signers : list Signer)
  (es : list SignatureEntry) (tr : list event) :
  passes w userOp signers es tr ->
  forall ev, In ev tr ->
    ev <> EvEstimateFeesPerGas /\ forall u, ev <> EvEstimateUserOperationGas u.
Proof.
  induction 1 as [| signer signers e es p h tr Hp Hh Hs Ha Ht Hrest IH]; intros ev Hin.
  - contradiction.
  - cbn in Hin. destruct Hin as [<- | [<- | Hin]]; [split; [| intros u]; discriminate ..|].
    now apply IH.
Qed.

(** The loop over the signers [front ++ [last]] from index [i] on. *)
Lemma signLoop_inv (partialUserOp : UserOperation) (numSigners : nat)
  (gasFeesMultiplier : number) (front : list Signer) (last : Signer) :
  forall (i : nat) (signatures0 : list SignatureEntry) (op0 : UserOperation)
         (tr : list event) (signatures : list SignatureEntry) (partialUserOpWithGas : UserOperation),
  (i + List.length (front ++ [last]) = numSigners)%nat ->
  signLoop w bundlerRPCUrl partialUserOp numSigners gasFeesMultiplier i (front ++ [last])
           signatures0 op0 = (tr, Ok (signatures, partialUserOpWithGas)) ->
  exists es eLast trFront tE p h,
    signatures = signatures0 ++ es ++ [eLast]
    /\ passes w partialUserOp front es trFront
    /\ estimateUserOp w bundlerRPCUrl partialUserOp numSigners gasFeesMultiplier
       = (tE, Ok partialUserOpWithGas)
    /\ entryOf w last partialUserOpWithGas (Some ACTUAL) eLast
    /\ packUserOp partialUserOpWithGas = Ok p
    /\ readContract_getUserOpHash w p = Ok h
    /\ tr = trFront ++ tE ++ signEvents p last h.
Proof.
  induction front as [| signer front IH]; intros i sigs0 op0 tr sigs opG Hlen H.
  - cbn [app signLoop] in H. cbn [app List.length] in Hlen.
    replace (Z.of_nat i =? Z.of_nat numSigners - 1) with true in H
      by (symmetry; apply Z.eqb_eq; lia).
    bind_inv H. bind_inv Hk. unfold ret in Hk0. inversion Hk0; subst. clear Hk0.
    apply signUserOp_inv in Hm0 as (p & h & Hp & Hh & Hs & ->).
    exists [], {| sig_signer := address last; sig_signature := a0;
                  sig_userOpSigType := Some ACTUAL |}, [], t, p, h.
    repeat split; auto.
    + constructor.
    + exists p, h. auto.
  - cbn [app signLoop] in H. cbn [app List.length] in Hlen. rewrite length_app in Hlen.
    cbn [List.length] in Hlen.
    replace (Z.of_nat i =? Z.of_nat numSigners - 1) with false in H
      by (symmetry; apply Z.eqb_neq; lia).
    rewrite bind_ret_l in H. bind_inv H.
    apply signUserOp_inv in Hm as (p & h & Hp & Hh & Hs & ->).
    apply IH in Hk as (es & eLast & trFront & tE & p' & h' & Hsigs & Hpass & HE & HL & Hp' & Hh' & ->);
      [| rewrite length_app; cbn [List.length]; lia].
    exists ({| sig_signer := address signer; sig_signature := a;
               sig_userOpSigType := None |} :: es), eLast,
           (signEvents p signer h ++ trFront), tE, p', h'.
    split; [rewrite Hsigs, <- app_assoc; reflexivity |].
    split; [econstructor; eauto |].
    repeat (split; [assumption |]). now rewrite <- app_assoc.
Qed.

Lemma collectSignatures_inv (walletAddress : Address) (front : list Signer) (last : Signer)
  (gasFeesMultiplier : number) (callData_ : Hex) (tr : list event)
  (signatures : list SignatureEntry) (partialUserOpWithGas : UserOperation) :
  collectSignatures w bundlerRPCUrl walletAddress (front ++ [last]) gasFeesMultiplier callData_
  = (tr, Ok (signatures, partialUserOpWithGas)) ->
  exists nonce_ es eLast trFront tE p h,
    let partialUserOp := baseUserOp walletAddress nonce_ callData_ in
    let numSigners := List.length (front ++ [last]) in
    getAccountNonce w walletAddress = Ok nonce_ /\ nonce_ <> 0
    /\ signatures = es ++ [eLast]
    /\ passes w partialUserOp front es trFront
    /\ estimateUserOp w bundlerRPCUrl partialUserOp numSigners gasFeesMultiplier
       = (tE, Ok partialUserOpWithGas)
    /\ entryOf w last partialUserOpWithGas (Some ACTUAL) eLast
    /\ packUserOp partialUserOpWithGas = Ok p
    /\ readContract_getUserOpHash w p = Ok h
    /\ tr = EvGetAccountNonce walletAddress :: trFront ++ tE ++ signEvents p last h.
Proof.
  unfold collectSignatures. intros H. bind_inv H.
  apply getPartialUserOp_inv in Hm as (n & Hn & Hne & -> & ->).
  apply signLoop_inv in Hk
    as (es & eLast & trFront & tE & p & h & Hs & Hpass & HE & HL & Hp & Hh & ->);
    [| reflexivity].
  exists n, es, eLast, trFront, tE, p, h. cbn zeta. repeat split; auto; apply HL.
Qed.

End Orchestrator.




(** A run that returns is a signing pass that returned, followed by a
    successful packing, which makes no call. *)
Lemma buildAndSignMultisigUserOp_inv (w : World) (bundlerRPCUrl : string)
  (walletAddress : Address) (signerAddresses : list Signer)
  (gasFeesMultiplier : number) (callData_ : Hex) (final : UserOperation) :
  outcome (buildAndSignMultisigUserOp w bundlerRPCUrl walletAddress signerAddresses
             gasFeesMultiplier callData_) = Ok final ->
  exists signatures partialUserOpWithGas,
    collectSignatures w bundlerRPCUrl walletAddress signerAddresses gasFeesMultiplier callData_
    = (trace (buildAndSignMultisigUserOp w bundlerRPCUrl walletAddress signerAddresses
                gasFeesMultiplier callData_),
       Ok (signatures, partialUserOpWithGas))
    /\ buildMultiSigUserOp partialUserOpWithGas signatures = Ok final.
Proof.
  unfold buildAndSignMultisigUserOp.
  destruct (collectSignatures _ _ _ _ _ _) as [tr [[sigs opG] | e]]; [| discriminate].
  cbn [bind lift outcome trace fst snd]. intros H.
  exists sigs, opG. now rewrite app_nil_r.
Qed.



(** C10.  With no signer at all, and an account whose nonce is read and is
    not zero, the run returns without error: the only call made is the nonce
    lookup (no fee estimation, no signature), the signature field is the
    empty byte string and every gas and fee field is zero. *)
Theorem buildAndSignMultisigUserOp_no_signers (w : World) (bundlerRPCUrl : string)
  (walletAddress : Address) (gasFeesMultiplier : number) (callData_ : Hex) (nonce_ : Z) :
  getAccountNonce w walletAddress = Ok nonce_ ->
  nonce_ <> 0 ->
  buildAndSignMultisigUserOp w bundlerRPCUrl walletAddress [] gasFeesMultiplier callData_
  = ([EvGetAccountNonce walletAddress],
     Ok {| sender := walletAddress; nonce := nonce_; factory := None; factoryData := None;
           callData := callData_; maxPriorityFeePerGas := 0; maxFeePerGas := 0;
           callGasLimit := 0; verificationGasLimit := 0; preVerificationGas := 0;
           signature := "0x" |})
  /\ hexBytes "0x" = Some [].
Proof.
  intros Hn Hne. split; [| reflexivity].
  unfold buildAndSignMultisigUserOp, collectSignatures, getPartialUserOp.
  rewrite Hn, bind_call_ok. destruct (Z.eqb_spec nonce_ 0) as [| _]; [contradiction |].
  reflexivity.
Qed.

(* ================================================================== *)
(** ** Numbers: digits, shifts and rounding *)
(* ================================================================== *)
























(* ================================================================== *)
(** ** Numbers: the scale factor is at least 100 *)
(* ================================================================== *)






(* ================================================================== *)
(** ** Numbers: the scale factor of a multiplier in [1, 2^32) *)
(* ================================================================== *)











(* ================================================================== *)
(** ** The scaled fee *)
(* ================================================================== *)

Lemma scaleFee_floor (fee scaled : Z) :
  0 <= fee -> 0 <= scaled -> scaleFee fee scaled = (fee * scaled) / 100.
Proof. intros Hf Hs. unfold scaleFee. apply Z.quot_div_nonneg; nia. Qed.



(* ================================================================== *)
(** ** Further properties *)
(* ================================================================== *)

(** A nonce of zero ends the run with UndeployedAccount right after the
    nonce lookup, whatever the signers, the multiplier and the call data:
    nothing is hashed, signed or estimated. *)
Theorem buildAndSignMultisigUserOp_undeployed (w : World) (bundlerRPCUrl : string)
  (walletAddress : Address) (signerAddresses : list Signer)
  (gasFeesMultiplier : number) (callData_ : Hex) :
  getAccountNonce w walletAddress = Ok 0 ->
  buildAndSignMultisigUserOp w bundlerRPCUrl walletAddress signerAddresses
    gasFeesMultiplier callData_
  = ([EvGetAccountNonce walletAddress], Err UndeployedAccount).
Proof.
  intros Hn. unfold buildAndSignMultisigUserOp, collectSignatures, getPartialUserOp.
  rewrite Hn, bind_call_ok. reflexivity.
Qed.

(** A fee the oracle leaves out, or answers as zero, ends the estimation
    with FeeFetchError right after the fee-oracle query. *)
Theorem estimateUserOp_fee_missing (w : World) (url : string) (userOp : UserOperation)
  (numSigners : nat) (gasFeesMultiplier : number) (fees : FeesPerGas) :
  estimateFeesPerGas w = Ok fees ->
  (truthy_bigint (fees_maxFeePerGas fees)
   && truthy_bigint (fees_maxPriorityFeePerGas fees))%bool = false ->
  estimateUserOp w url userOp numSigners gasFeesMultiplier
  = ([EvEstimateFeesPerGas], Err FeeFetchError).
Proof.
  intros Hf Ht. unfold estimateUserOp. rewrite Hf, bind_call_ok.
  destruct (truthy_bigint (fees_maxFeePerGas fees));
    [destruct (truthy_bigint (fees_maxPriorityFeePerGas fees)); [discriminate |] |];
    reflexivity.
Qed.



Lemma allHex_app (a b : string) : allHex (a +++ b) = (allHex a && allHex b)%bool.
Proof.
  induction a as [| c a IH]; cbn [String.append allHex]; [reflexivity |].
  destruct (hexDigit c); [exact IH | reflexivity].
Qed.

Lemma hexDigit_hexChar (d : Z) : 0 <= d < 16 -> hexDigit (hexChar d) = Some d.
Proof.
  intros H.
  assert (Hc : d = 0 \/ d = 1 \/ d = 2 \/ d = 3 \/ d = 4 \/ d = 5 \/ d = 6 \/ d = 7 \/ d = 8
               \/ d = 9 \/ d = 10 \/ d = 11 \/ d = 12 \/ d = 13 \/ d = 14 \/ d = 15) by lia.
  repeat (destruct Hc as [-> | Hc]; [reflexivity |]). subst. reflexivity.
Qed.

Lemma hexDigitsOf_allHex (fuel : nat) : forall z acc,
  0 <= z -> allHex acc = true -> allHex (hexDigitsOf fuel z acc) = true.
Proof.
  induction fuel as [| fuel IH]; intros z acc Hz Hacc; cbn [hexDigitsOf]; [exact Hacc |].
  destruct (Z.ltb_spec z 16).
  - cbn [allHex]. now rewrite hexDigit_hexChar by lia.
  - apply IH; [apply Z.div_pos; lia |]. cbn [allHex].
    rewrite hexDigit_hexChar by (apply Z.mod_pos_bound; lia). exact Hacc.
Qed.

Lemma digitsPrefix_hexChar (d : Z) (r : string) (a : Z) (n : nat) :
  0 <= d < 16 ->
  digitsPrefix 16 (String (hexChar d) r) a n = digitsPrefix 16 r (a * 16 + d) (S n).
Proof.
  intros Hd. cbn [digitsPrefix]. unfold digitValue. rewrite hexDigit_hexChar by lia.
  destruct (Z.ltb_spec d 16); [reflexivity | lia].
Qed.

(** The digits [hexDigitsOf] writes in front of [acc], read back, are [z]:
    the fuel is never exhausted while digits remain. *)
Lemma hexDigitsOf_value (fuel : nat) : forall z acc,
  0 <= z < 16 ^ Z.of_nat (S fuel) ->
  exists d,
    hexDigitsOf (S fuel) z acc = d +++ acc
    /\ d <> EmptyString
    /\ forall r a n,
         digitsPrefix 16 (d +++ r) a n
         = digitsPrefix 16 r (a * 16 ^ Z.of_nat (String.length d) + z) (n + String.length d).
Proof.
  induction fuel as [| fuel IH]; intros z acc Hz;
    change (hexDigitsOf (S ?f) z acc)
      with (if z <? 16 then String (hexChar z) acc
            else hexDigitsOf f (z / 16) (String (hexChar (z mod 16)) acc)).
  - change (16 ^ Z.of_nat 1) with 16 in Hz.
    destruct (Z.ltb_spec z 16) as [Hlt | Hge]; [| lia].
    exists (String (hexChar z) EmptyString). split; [reflexivity |]. split; [discriminate |].
    intros r a n. cbn [String.append String.length].
    rewrite digitsPrefix_hexChar by lia.
    change (16 ^ Z.of_nat 1) with 16. f_equal; lia.
  - destruct (Z.ltb_spec z 16) as [Hlt | Hge].
    + exists (String (hexChar z) EmptyString). split; [reflexivity |]. split; [discriminate |].
      intros r a n. cbn [String.append String.length].
      rewrite digitsPrefix_hexChar by lia.
      change (16 ^ Z.of_nat 1) with 16. f_equal; lia.
    + rewrite (Nat2Z.inj_succ (S fuel)), Z.pow_succ_r in Hz by lia.
      assert (Hq : 0 <= z / 16 < 16 ^ Z.of_nat (S fuel)).
      { split; [apply Z.div_pos; lia | apply Z.div_lt_upper_bound; lia]. }
      assert (Hm : 0 <= z mod 16 < 16) by (apply Z.mod_pos_bound; lia).
      destruct (IH (z / 16) (String (hexChar (z mod 16)) acc) Hq) as (d & Hd & Hne & Hread).
      exists (d +++ String (hexChar (z mod 16)) EmptyString).
      split; [rewrite Hd, append_assoc; reflexivity |].
      split; [destruct d; [contradiction | discriminate] |].
      intros r a n. rewrite append_assoc. cbn [String.append]. rewrite Hread.
      rewrite digitsPrefix_hexChar by lia. rewrite length_append. cbn [String.length].
      rewrite Nat2Z.inj_add, Z.pow_add_r by lia. change (16 ^ Z.of_nat 1) with 16.
      pose proof (Z.div_mod z 16 ltac:(lia)). f_equal; lia.
Qed.

(** [z.toString(16)] reads back as [z]. *)
Lemma toString16_value (z : Z) : 0 <= z -> allDigits 16 (toString16 z) = Some z.
Proof.
  intros Hz. unfold toString16.
  assert (Hfuel : 0 <= z < 16 ^ Z.of_nat (S (Z.to_nat (Z.log2 z)))).
  { split; [exact Hz |]. rewrite Nat2Z.inj_succ, Z2Nat.id by apply Z.log2_nonneg.
    destruct (Z.eq_dec z 0) as [-> | Hnz]; [cbn; lia |].
    pose proof (Z.log2_spec z ltac:(lia)) as [_ Hhi].
    eapply Z.lt_le_trans; [exact Hhi |].
    change 16 with (2 ^ 4). rewrite <- Z.pow_mul_r by (pose proof (Z.log2_nonneg z); lia).
    apply Z.pow_le_mono_r; [lia |]. pose proof (Z.log2_nonneg z). lia. }
  destruct (hexDigitsOf_value _ z EmptyString Hfuel) as (d & Hd & Hne & Hread).
  rewrite Hd, append_empty_r. unfold allDigits.
  specialize (Hread EmptyString 0 0%nat). rewrite append_empty_r in Hread.
  rewrite Hread. cbn [digitsPrefix]. cbn [Nat.add]. rewrite Nat.eqb_refl.
  destruct d; [contradiction |]. cbn [String.length Nat.eqb negb andb]. f_equal; lia.
Qed.

Lemma length_zeros (n : nat) :
  String.length (string_of_list_ascii (repeat "0"%char n)) = n
  /\ allHex (string_of_list_ascii (repeat "0"%char n)) = true.
Proof. induction n as [| n [IH1 IH2]]; cbn; auto. Qed.

(** Hex digits in even number read as bytes, half as many. *)
Lemma bytesOfDigits_total (s : string) :
  allHex s = true -> Nat.even (String.length s) = true ->
  exists bs, bytesOfDigits s = Some bs /\ (2 * List.length bs = String.length s)%nat.
Proof.
  induction s as [| c | c1 c2 r IH] using string_pair_ind; intros Hh He.
  - exists []. split; reflexivity.
  - discriminate.
  - cbn [allHex] in Hh. destruct (hexDigit c1) as [a |] eqn:H1; [| discriminate].
    destruct (hexDigit c2) as [b |] eqn:H2; [| discriminate].
    destruct (IH Hh He) as (bs & Hbs & Hlen).
    exists (16 * a + b :: bs). cbn [bytesOfDigits]. rewrite H1, H2, Hbs.
    split; [reflexivity |]. cbn [List.length String.length]. lia.
Qed.

(** [pad(toHex(v), { size: 16 })], when it returns, is 16 bytes. *)
Lemma pad16_bytes (v : Z) (r : string) :
  (let* h := toHex_bigint v None in pad h 16) = Ok r ->
  exists d, r = "0x" +++ d /\ allHex d = true /\ String.length d = 32%nat.
Proof.
  unfold toHex_bigint, numberToHex. cbn [orb].
  destruct (Z.ltb_spec v 0) as [| Hv]; [discriminate |]. cbn [rbind].
  unfold pad. change (replace_0x ("0x" +++ toString16 v)) with (toString16 v).
  change (16 * 2)%nat with 32%nat.
  destruct (Nat.ltb_spec 32 (String.length (toString16 v))) as [| Hlen]; [discriminate |].
  intros H. exists (padStart0 32 (toString16 v)).
  split; [now inversion H |]. unfold padStart0.
  destruct (length_zeros (32 - String.length (toString16 v))) as [Hz1 Hz2].
  split.
  - rewrite allHex_app, Hz2. apply hexDigitsOf_allHex; [exact Hv | reflexivity].
  - rewrite length_append, Hz1. lia.
Qed.

Lemma concatHex_pair_bytes (d1 d2 : string) :
  allHex d1 = true -> String.length d1 = 32%nat ->
  allHex d2 = true -> String.length d2 = 32%nat ->
  exists bs, hexBytes (concatHex ["0x" +++ d1; "0x" +++ d2]) = Some bs
             /\ List.length bs = 32%nat.
Proof.
  intros H1 L1 H2 L2.
  change (concatHex ["0x" +++ d1; "0x" +++ d2]) with ("0x" +++ (EmptyString +++ d1) +++ d2).
  cbn [String.append]. change (String "0" (String "x" (d1 +++ d2))) with ("0x" +++ d1 +++ d2).
  rewrite hexBytes_0x.
  destruct (bytesOfDigits_total (d1 +++ d2)) as (bs & Hbs & Hlen).
  - now rewrite allHex_app, H1, H2.
  - rewrite length_append, L1, L2. reflexivity.
  - exists bs. split; [exact Hbs |]. rewrite length_append, L1, L2 in Hlen. lia.
Qed.

(** The packed form always carries 32 bytes of gas limits and 32 bytes of
    fees: two fields of 16 bytes each. *)
Theorem packUserOp_field_widths (userOp : UserOperation) (p : PackedUserOperation) :
  packUserOp userOp = Ok p ->
  exists limits fees,
    hexBytes (packed_accountGasLimits p) = Some limits /\ List.length limits = 32%nat
    /\ hexBytes (packed_gasFees p) = Some fees /\ List.length fees = 32%nat
    /\ packed_paymasterAndData p = "0x".
Proof.
  unfold packUserOp.
  destruct (let* h := toHex_bigint (verificationGasLimit userOp) None in pad h 16)
    as [vgl |] eqn:E1; [| discriminate].
  destruct (let* h := toHex_bigint (callGasLimit userOp) None in pad h 16)
    as [cgl |] eqn:E2; [| discriminate].
  destruct (let* h := toHex_bigint (maxPriorityFeePerGas userOp) None in pad h 16)
    as [prio |] eqn:E3; [| discriminate].
  destruct (let* h := toHex_bigint (maxFeePerGas userOp) None in pad h 16)
    as [fee |] eqn:E4; [| discriminate].
  cbn [rbind]. intros H. inversion H. subst p. cbn.
  apply pad16_bytes in E1 as (d1 & -> & H1 & L1). apply pad16_bytes in E2 as (d2 & -> & H2 & L2).
  apply pad16_bytes in E3 as (d3 & -> & H3 & L3). apply pad16_bytes in E4 as (d4 & -> & H4 & L4).
  destruct (concatHex_pair_bytes d1 d2 H1 L1 H2 L2) as (limits & Hl & Hll).
  destruct (concatHex_pair_bytes d3 d4 H3 L3 H4 L4) as (fees & Hf & Hfl).
  exists limits, fees. repeat split; assumption.
Qed.

(* ================================================================== *)
(** ** The estimator: further properties *)
(* ================================================================== *)

Lemma trace_bind {A B : Type} (m : M A) (k : A -> M B) :
  trace (bind m k)
  = trace m ++ match outcome m with Ok a => trace (k a) | Err _ => [] end.
Proof.
  destruct m as [t [a | e]]; cbn [bind trace outcome fst snd].
  - destruct (k a); reflexivity.
  - now rewrite app_nil_r.
Qed.

Lemma outcome_bind {A B : Type} (m : M A) (k : A -> M B) :
  outcome (bind m k)
  = match outcome m with Ok a => outcome (k a) | Err e => Err e end.
Proof.
  destruct m as [t [a | e]]; cbn [bind trace outcome fst snd]; [| reflexivity].
  destruct (k a); reflexivity.
Qed.

(** A multiplier that is NaN or +infinity is not below 1: it passes the
    guard, and the conversion of the scale factor to a bigint throws. *)
Theorem estimateUserOp_multiplier_not_finite (w : World) (url : string)
  (userOp : UserOperation) (numSigners : nat) (gasFeesMultiplier : number)
  (fees : FeesPerGas) (tA : list event) (floor : Z) :
  gasFeesMultiplier = NaN \/ gasFeesMultiplier = S754_infinity false ->
  estimateFeesPerGas w = Ok fees ->
  truthy_bigint (fees_maxFeePerGas fees) = true ->
  truthy_bigint (fees_maxPriorityFeePerGas fees) = true ->
  alchemyMinPriorityFee w url = (tA, Ok floor) ->
  estimateUserOp w url userOp numSigners gasFeesMultiplier
  = (EvEstimateFeesPerGas :: tA, Err RangeError).
Proof.
  intros Hm Hf T1 T2 HA. unfold estimateUserOp.
  rewrite Hf, bind_call_ok, T1, T2. cbn [negb orb]. rewrite bind_ret_l.
  assert (Hlt : num_lt gasFeesMultiplier (number_of_Z 1) = false)
    by (destruct Hm as [-> | ->]; reflexivity).
  assert (Hs : BigInt_of_number (scaledGasFeesMultiplier gasFeesMultiplier) = Err RangeError)
    by (destruct Hm as [-> | ->]; reflexivity).
  rewrite Hlt, bind_ret_l, HA, Hs. cbn [bind lift trace outcome fst snd].
  now rewrite app_nil_r.
Qed.

(** The estimator reads the sender, the nonce, the factory, its data and the
    call data of the operation it is given, and nothing else: two operations
    that agree on these are estimated alike, and the operation returned
    carries them unchanged. *)
Theorem estimateUserOp_reads_identity_only (w : World) (url : string)
  (userOp userOp' : UserOperation) (numSigners : nat) (gasFeesMultiplier : number) :
  sender userOp = sender userOp' ->
  nonce userOp = nonce userOp' ->
  factory userOp = factory userOp' ->
  factoryData userOp = factoryData userOp' ->
  callData userOp = callData userOp' ->
  estimateUserOp w url userOp numSigners gasFeesMultiplier
  = estimateUserOp w url userOp' numSigners gasFeesMultiplier
  /\ forall r,
       outcome (estimateUserOp w url userOp numSigners gasFeesMultiplier) = Ok r ->
       sender r = sender userOp' /\ nonce r = nonce userOp'
       /\ factory r = factory userOp' /\ factoryData r = factoryData userOp'
       /\ callData r = callData userOp'.
Proof.
  intros H1 H2 H3 H4 H5. split.
  - unfold estimateUserOp. rewrite H1, H2, H3, H4, H5. reflexivity.
  - intros r Hr. apply outcome_ok in Hr.
    apply estimateUserOp_inv in Hr
      as (fees & tA & floor & scaled & g & _ & _ & _ & _ & _ & _ & _ & -> & _).
    cbn. auto.
Qed.

Lemma estimateUserOp_trace_events (w : World) (url : string) (userOp : UserOperation)
  (numSigners : nat) (gasFeesMultiplier : number) (ev : event) :
  In ev (trace (estimateUserOp w url userOp numSigners gasFeesMultiplier)) ->
  ev = EvEstimateFeesPerGas
  \/ (ev = EvFetchMinPriorityFee url /\ isAlchemyBundler w url = true)
  \/ exists request, ev = EvEstimateUserOperationGas request.
Proof.
  unfold estimateUserOp.
  destruct (estimateFeesPerGas w) as [fees | e];
    [rewrite bind_call_ok | cbn; intros [<- | []]; now left].
  cbn [trace fst]. intros [<- | H]; [now left |].
  match type of H with
  | context [if ?c then logAndExit FeeFetchError else _] => destruct c
  end; [contradiction |].
  rewrite bind_ret_l in H.
  destruct (num_lt gasFeesMultiplier (number_of_Z 1)); [contradiction |].
  rewrite bind_ret_l, trace_bind in H. apply in_app_iff in H as [H | H].
  { rewrite alchemyMinPriorityFee_trace in H.
    destruct (isAlchemyBundler w url); [| contradiction].
    destruct H as [<- | []]. right. left. now split. }
  destruct (outcome (alchemyMinPriorityFee w url)) as [floor |]; [| contradiction].
  destruct (BigInt_of_number (scaledGasFeesMultiplier gasFeesMultiplier)) as [scaled |];
    [rewrite bind_lift_ok in H | contradiction].
  match type of H with
  | context [estimateUserOperationGas w ?u] =>
      destruct (estimateUserOperationGas w u) as [g |];
        [rewrite bind_call_ok in H |];
        (destruct H as [<- | H]; [right; right; eauto | contradiction])
  end.
Qed.

(** A bundler that is not the known provider is never asked for a minimum
    priority fee, however the estimation ends; when it returns, the priority
    fee is the scaled oracle fee, floored at zero. *)
Theorem estimateUserOp_other_bundler (w : World) (url : string) (userOp : UserOperation)
  (numSigners : nat) (gasFeesMultiplier : number) :
  isAlchemyBundler w url = false ->
  (forall url', ~ In (EvFetchMinPriorityFee url')
                     (trace (estimateUserOp w url userOp numSigners gasFeesMultiplier)))
  /\ forall r fees scaled,
       outcome (estimateUserOp w url userOp numSigners gasFeesMultiplier) = Ok r ->
       estimateFeesPerGas w = Ok fees ->
       BigInt_of_number (scaledGasFeesMultiplier gasFeesMultiplier) = Ok scaled ->
       maxPriorityFeePerGas r
       = Z.max (scaleFee (nonNull (fees_maxPriorityFeePerGas fees)) scaled) 0.
Proof.
  intros Hna. split.
  - intros url' Hin. apply estimateUserOp_trace_events in Hin as [H | [[_ H] | [u H]]];
      try discriminate. rewrite Hna in H. discriminate.
  - intros r fees scaled Hr Hf Hs. apply outcome_ok in Hr.
    apply estimateUserOp_inv in Hr
      as (fees' & tA & floor & scaled' & g & Hf' & _ & _ & _ & HA & Hs' & _ & -> & _).
    rewrite Hf in Hf'. rewrite Hs in Hs'. inversion Hf'; inversion Hs'; subst.
    unfold alchemyMinPriorityFee in HA. rewrite Hna in HA. inversion HA; subst.
    reflexivity.
Qed.

Lemma scaleFee_mono (a b scaled : Z) :
  0 <= a <= b -> 0 <= scaled -> scaleFee a scaled <= scaleFee b scaled.
Proof.
  intros Hab Hs. rewrite !scaleFee_floor by lia.
  apply Z.div_le_mono; nia.
Qed.

(** The estimator does not cap the priority fee at the maximum fee.  In an
    estimation that returns, the priority fee is at most the maximum fee
    exactly when both the scaled oracle priority fee and the provider's
    minimum are; a provider minimum above the scaled maximum fee comes back
    as a priority fee above the maximum fee.  Oracle fees in the usual order
    (0 <= priority <= max) stay in that order under the scaling. *)
Theorem estimateUserOp_priority_not_capped (w : World) (url : string) (userOp : UserOperation)
  (numSigners : nat) (gasFeesMultiplier : number) (r : UserOperation)
  (fees : FeesPerGas) (floor scaled : Z) :
  outcome (estimateUserOp w url userOp numSigners gasFeesMultiplier) = Ok r ->
  estimateFeesPerGas w = Ok fees ->
  outcome (alchemyMinPriorityFee w url) = Ok floor ->
  BigInt_of_number (scaledGasFeesMultiplier gasFeesMultiplier) = Ok scaled ->
  let scaledMax := scaleFee (nonNull (fees_maxFeePerGas fees)) scaled in
  let scaledPriority := scaleFee (nonNull (fees_maxPriorityFeePerGas fees)) scaled in
  (maxPriorityFeePerGas r <= maxFeePerGas r <-> scaledPriority <= scaledMax /\ floor <= scaledMax)
  /\ (scaledMax < floor -> maxFeePerGas r < maxPriorityFeePerGas r)
  /\ (0 <= nonNull (fees_maxPriorityFeePerGas fees) <= nonNull (fees_maxFeePerGas fees) ->
      0 <= scaled -> scaledPriority <= scaledMax).
Proof.
  intros Hr Hf HA Hs scaledMax scaledPriority. apply outcome_ok in Hr.
  apply estimateUserOp_inv in Hr
    as (fees' & tA & floor' & scaled' & g & Hf' & _ & _ & _ & HA' & Hs' & _ & -> & _).
  rewrite Hf in Hf'. rewrite Hs in Hs'. rewrite HA' in HA. cbn [outcome snd] in HA.
  inversion Hf'; inversion Hs'; inversion HA; subst.
  cbn [estimateAnswer maxPriorityFeePerGas maxFeePerGas]. unfold maxBigInt.
  fold scaledMax scaledPriority. split; [| split].
  - apply Z.max_lub_iff.
  - intros H. apply Z.max_lt_iff. now right.
  - intros Hord Hsc. now apply scaleFee_mono.
Qed.

(** A multiplier of exactly 1 leaves the oracle's fees as they are: the
    maximum fee is returned unchanged, and the priority fee is the oracle's,
    floored at the provider's minimum. *)
Theorem estimateUserOp_multiplier_one (w : World) (url : string) (userOp : UserOperation)
  (numSigners : nat) (r : UserOperation) (fees : FeesPerGas) (floor : Z) :
  outcome (estimateUserOp w url userOp numSigners (number_of_Z 1)) = Ok r ->
  estimateFeesPerGas w = Ok fees ->
  outcome (alchemyMinPriorityFee w url) = Ok floor ->
  fees_maxFeePerGas fees = Some (maxFeePerGas r)
  /\ exists priority,
       fees_maxPriorityFeePerGas fees = Some priority
       /\ maxPriorityFeePerGas r = Z.max priority floor.
Proof.
  intros Hr Hf HA. apply outcome_ok in Hr.
  apply estimateUserOp_inv in Hr
    as (fees' & tA & floor' & scaled' & g & Hf' & T1 & T2 & _ & HA' & Hs' & _ & -> & _).
  rewrite Hf in Hf'. rewrite HA' in HA. cbn [outcome snd] in HA.
  inversion Hf'; inversion HA; subst.
  assert (Hs : BigInt_of_number (scaledGasFeesMultiplier (number_of_Z 1)) = Ok 100)
    by (vm_compute; reflexivity).
  rewrite Hs in Hs'. inversion Hs'; subst.
  assert (Hid : forall fee, scaleFee fee 100 = fee)
    by (intros fee; unfold scaleFee; apply Z.quot_mul; lia).
  cbn [estimateAnswer maxPriorityFeePerGas maxFeePerGas]. rewrite !Hid. unfold maxBigInt.
  destruct (fees_maxFeePerGas fees') as [f |]; [| discriminate].
  destruct (fees_maxPriorityFeePerGas fees') as [p |]; [| discriminate].
  split; [reflexivity |]. exists p. split; reflexivity.
Qed.

(* ================================================================== *)
(** ** The packer: further properties *)
(* ================================================================== *)

(* ---------- the helper takeBytes ---------- *)

Lemma str_drop_add (n m : nat) (s : string) : str_drop (n + m) s = str_drop m (str_drop n s).
Proof.
  revert s. induction n as [| n IH]; intros s; [reflexivity |].
  destruct s as [| c s]; cbn [Nat.add str_drop]; [now destruct m | apply IH].
Qed.

(** The local helper [takeBytes] on well-formed hex data: [count] bytes from
    byte [offset] on; a missing offset is 0, and a missing count, or a count
    of 0 (which is falsy), reads to the end. *)
Theorem takeBytes_bytes (h : Hex) (bs : list Z) (offset count : option nat) :
  hexBytes h = Some bs ->
  hexBytes (takeBytes h offset count)
  = Some (let rest := skipn (match offset with Some o => o | None => 0%nat end) bs in
          match count with
          | Some (S c) => firstn (S c) rest
          | _ => rest
          end).
Proof.
  intros H. apply hexBytes_inv in H as (body & -> & Hb).
  unfold takeBytes. rewrite hexBytes_0x.
  set (o := match offset with Some o => o | None => 0%nat end).
  assert (Hstart : (match offset with
                    | Some o => if Nat.eqb o 0 then 0 else o * 2
                    | None => 0
                    end + 2)%nat = (2 + 2 * o)%nat).
  { subst o. destruct offset as [[| o] |]; cbn [Nat.eqb]; lia. }
  rewrite Hstart.
  assert (Hdrop : str_drop (2 + 2 * o) ("0x" +++ body) = str_drop (2 * o) body).
  { rewrite str_drop_add. reflexivity. }
  pose proof (bytesOfDigits_drop body bs o Hb) as Hrest.
  destruct count as [[| c] |]; cbn [Nat.eqb slice]; rewrite ?Hdrop; try exact Hrest.
  replace (2 + 2 * o + S c * 2 - (2 + 2 * o))%nat with (2 * S c)%nat by lia.
  exact (bytesOfDigits_take _ _ (S c) Hrest).
Qed.

(* ---------- the sort is stable ---------- *)

Lemma filter_map_snd {A : Type} (f : A -> bool) (l : list (Z * A)) :
  filter f (map snd l) = map snd (filter (fun p => f (snd p)) l).
Proof.
  induction l as [| p l IH]; [reflexivity |].
  cbn [map filter]. destruct (f (snd p)); cbn [map]; now rewrite IH.
Qed.

Lemma sortedEntries_stable (k : Z) (l : list SignatureEntry) :
  filter (fun e => signerKey e =? k) (sortedEntries l)
  = filter (fun e => signerKey e =? k) l.
Proof.
  unfold sortedEntries. rewrite filter_map_snd.
  set (kl := map (fun e => (signerKey e, e)) l).
  assert (Hkeys : forall p, In p kl -> fst p = signerKey (snd p)).
  { intros p Hp. apply in_map_iff in Hp as (e & <- & _). reflexivity. }
  rewrite (filter_ext_in (fun p => signerKey (snd p) =? k) (fun p => fst p =? k)).
  - rewrite sortByKey_stable. subst kl. clear Hkeys.
    induction l as [| e l IH]; [reflexivity |].
    cbn [map filter fst snd]. destruct (signerKey e =? k); cbn [map snd]; now rewrite IH.
  - intros p Hp. rewrite (Hkeys p); [reflexivity |].
    apply (Permutation_in _ (Permutation_sym (sortByKey_perm kl))), Hp.
Qed.

Lemma filter_all {A : Type} (f : A -> bool) (l : list A) :
  (forall x, In x l -> f x = true) -> filter f l = l.
Proof.
  induction l as [| x l IH]; intros H; [reflexivity |].
  cbn [filter]. rewrite (H x (or_introl eq_refl)). f_equal. apply IH. intros y Hy.
  apply H. now right.
Qed.

(** The sort is stable: the entries whose signers read as the same integer
    are packed in the order they had in the input; when all signers read as
    the same integer the input order is the packing order. *)
Theorem buildMultiSigUserOp_equal_signers_keep_order (signatures sorted : list SignatureEntry) :
  sortSignatures signatures = Ok sorted ->
  (forall k, filter (fun e => signerKey e =? k) sorted
             = filter (fun e => signerKey e =? k) signatures)
  /\ ((forall e e', In e signatures -> In e' signatures -> signerKey e = signerKey e') ->
      sorted = signatures
      /\ forall userOp,
           buildMultiSigUserOp userOp signatures
           = (let* eoaSigs := forEachPack signatures EmptyString in
              Ok (with_signature userOp ("0x" +++ eoaSigs)))).
Proof.
  intros Hs. pose proof Hs as Hs'. apply sortSignatures_inv in Hs. subst sorted.
  split; [intros k; apply sortedEntries_stable |].
  intros Hsame.
  assert (Heq : sortedEntries signatures = signatures).
  { destruct signatures as [| e0 l] eqn:E; [reflexivity |]. rewrite <- E in *.
    pose proof (sortedEntries_stable (signerKey e0) signatures) as Hst.
    rewrite (filter_all _ signatures) in Hst.
    - rewrite (filter_all _ (sortedEntries signatures)) in Hst; [exact Hst |].
      intros x Hx. apply Z.eqb_eq.
      apply (Permutation_in _ (Permutation_sym (sortedEntries_perm signatures))) in Hx.
      apply Hsame; [exact Hx | rewrite E; now left].
    - intros x Hx. apply Z.eqb_eq. apply Hsame; [exact Hx | rewrite E; now left]. }
  split; [exact Heq |].
  intros userOp. unfold buildMultiSigUserOp. rewrite Hs', Heq. reflexivity.
Qed.

(* ---------- the signer is parsed only to sort ---------- *)

Lemma BigInt_of_string_error (s : string) (e : error) :
  BigInt_of_string s = Err e -> e = SyntaxError.
Proof.
  unfold BigInt_of_string.
  assert (Hd : forall radix r x,
             match allDigits radix r with Some v => Ok v | None => Err SyntaxError end = Err x ->
             x = SyntaxError).
  { intros radix r x. destruct (allDigits radix r); [discriminate |]. now intros [= <-]. }
  assert (Hn : forall r x,
             (let* v := match allDigits 10 r with Some v => Ok v | None => Err SyntaxError end in
              Ok (- v)) = Err x -> x = SyntaxError).
  { intros r x. destruct (allDigits 10 r); [discriminate |]. now intros [= <-]. }
  destruct (trimEnd (trimStart s)) as [| c t]; [discriminate |].
  destruct c as [[] [] [] [] [] [] [] []]; try apply Hd; try apply Hn;
    destruct t as [| c' t']; try apply Hd;
    destruct c' as [[] [] [] [] [] [] [] []]; apply Hd.
Qed.

Lemma keyed_error (l : list SignatureEntry) (e : SignatureEntry) :
  In e l -> is_ok (hexToBigInt (sig_signer e)) = false -> keyed l = Err SyntaxError.
Proof.
  induction l as [| x l IH]; intros Hin He; [contradiction |].
  cbn [keyed]. destruct (hexToBigInt (sig_signer x)) as [k | err] eqn:Hx.
  - cbn [rbind]. destruct Hin as [-> | Hin]; [rewrite Hx in He; discriminate |].
    rewrite (IH Hin He). reflexivity.
  - apply BigInt_of_string_error in Hx. now subst.
Qed.

(** The signer of an entry is read as an integer only to be compared with
    another: a lone entry is packed whatever its signer field holds, and
    among two or more entries a signer that is no integer literal makes the
    packing throw a SyntaxError. *)
Theorem buildMultiSigUserOp_signer_read_only_to_sort (userOp : UserOperation) :
  (forall e,
     buildMultiSigUserOp userOp [e]
     = (let* digits := packSignature e in Ok (with_signature userOp ("0x" +++ digits))))
  /\ (forall signatures e,
        (2 <= List.length signatures)%nat -> In e signatures ->
        is_ok (hexToBigInt (sig_signer e)) = false ->
        buildMultiSigUserOp userOp signatures = Err SyntaxError).
Proof.
  split.
  - intros e. unfold buildMultiSigUserOp. cbn [sortSignatures rbind forEachPack].
    destruct (packSignature e); reflexivity.
  - intros signatures e Hlen Hin He. unfold buildMultiSigUserOp, sortSignatures.
    destruct signatures as [| a [| b l]]; cbn [List.length] in Hlen; try lia.
    rewrite (keyed_error _ e Hin He). reflexivity.
Qed.

(* ---------- the recovery byte must stay a byte ---------- *)

Lemma forEachPack_error_kind (x : error) (l : list SignatureEntry) :
  (forall e err, In e l -> packSignature e = Err err -> err = x) ->
  (exists e, In e l /\ packSignature e = Err x) ->
  forall acc, forEachPack l acc = Err x.
Proof.
  induction l as [| y l IH]; intros Hall (e & Hin & He) acc; [contradiction |].
  cbn [forEachPack]. destruct (packSignature y) as [d | err] eqn:Hy.
  - cbn [rbind]. apply IH.
    + intros e' err' He' Herr. apply (Hall e' err'); [now right | exact Herr].
    + destruct Hin as [-> | Hin]; [rewrite Hy in He; discriminate |]. eauto.
  - cbn [rbind]. f_equal. apply (Hall y err); [now left | exact Hy].
Qed.

(** Among entries with signers that read as integers and raw signatures of
    65 bytes, one whose recovery byte leaves the range of a byte once the
    32 of an "ACTUAL" entry is added (a raw v of 224 or more) makes the
    packing throw IntegerOutOfRangeError. *)
Theorem buildMultiSigUserOp_recovery_byte_overflow (userOp : UserOperation)
  (signatures : list SignatureEntry) (e : SignatureEntry) :
  Forall (fun e => is_ok (hexToBigInt (sig_signer e)) = true
                   /\ exists bs, hexBytes (sig_signature e) = Some bs
                                 /\ List.length bs = 65%nat) signatures ->
  In e signatures ->
  255 < rawV e + addV e ->
  isActual e = true /\ 224 <= rawV e
  /\ buildMultiSigUserOp userOp signatures = Err IntegerOutOfRangeError.
Proof.
  intros Hall Hin Hv. rewrite Forall_forall in Hall.
  assert (Hraw : forall x, In x signatures ->
                 hexBytes (sig_signature x) = Some (rawBytes x)
                 /\ List.length (rawBytes x) = 65%nat /\ 0 <= rawV x < 256).
  { intros x Hx. destruct (Hall x Hx) as (_ & bs & Hb & Hl).
    unfold rawV, rawBytes. rewrite Hb. split; [reflexivity |]. split; [exact Hl |].
    apply hexBytes_inv in Hb as (body & _ & Hbody).
    pose proof (bytesOfDigits_range body bs Hbody) as Hr. rewrite Forall_forall in Hr.
    apply Hr, nth_In. lia. }
  destruct (Hraw e Hin) as (Hb & Hl & Hr).
  assert (Hact : isActual e = true /\ 224 <= rawV e).
  { unfold addV in Hv. destruct (isActual e); [split; [reflexivity | lia] | lia]. }
  destruct Hact as [Hact H224]. split; [exact Hact |]. split; [exact H224 |].
  assert (Hkeys : Forall (fun e => is_ok (hexToBigInt (sig_signer e)) = true) signatures).
  { rewrite Forall_forall. intros x Hx. apply Hall, Hx. }
  unfold buildMultiSigUserOp. rewrite (sortSignatures_ok _ Hkeys). cbn [rbind].
  rewrite (forEachPack_error_kind IntegerOutOfRangeError); [reflexivity | |].
  - intros x err Hx Herr.
    apply (Permutation_in _ (Permutation_sym (sortedEntries_perm signatures))) in Hx.
    destruct (Hraw x Hx) as (Hbx & Hlx & Hrx).
    destruct (Z.le_gt_cases (nth 64 (rawBytes x) 0 + addV x) 255) as [Hle | Hgt].
    + destruct (packSignature_ok x _ Hbx Hlx Hle) as (d & Hd & _).
      rewrite Hd in Herr. discriminate.
    + rewrite (packSignature_overflow x _ Hbx Hlx) in Herr by lia. now inversion Herr.
  - exists e. split; [apply (Permutation_in _ (sortedEntries_perm signatures)), Hin |].
    apply (packSignature_overflow e _ Hb Hl). exact Hv.
Qed.

(* ---------- r||s is copied as it stands ---------- *)

Lemma str_take_app_exact (a b : string) (n : nat) :
  String.length a = n -> str_take n (a +++ b) = a.
Proof.
  revert n. induction a as [| c a IH]; intros n H; cbn in H; subst n.
  - destruct b; reflexivity.
  - cbn [String.append String.length str_take]. f_equal. now apply IH.
Qed.

Lemma str_drop_app_exact (a b : string) (n : nat) :
  String.length a = n -> str_drop n (a +++ b) = b.
Proof.
  revert n. induction a as [| c a IH]; intros n H; cbn in H; subst n.
  - reflexivity.
  - cbn [String.append String.length str_drop]. now apply IH.
Qed.

(** The packer copies the first 128 characters after the 0x prefix as they
    stand (they are not checked to be hex digits, and their letter case is
    kept), appends the adjusted recovery byte, and drops what follows the
    65th byte. *)
Theorem buildMultiSigUserOp_copies_rs_verbatim (userOp : UserOperation) (e : SignatureEntry)
  (rs rest : string) (c1 c2 : ascii) (a b : Z) :
  sig_signature e = "0x" +++ rs +++ String c1 (String c2 rest) ->
  String.length rs = 128%nat ->
  hexDigit c1 = Some a -> hexDigit c2 = Some b ->
  16 * a + b + addV e <= 255 ->
  exists v,
    bytesOfDigits v = Some [16 * a + b + addV e]
    /\ buildMultiSigUserOp userOp [e] = Ok (with_signature userOp ("0x" +++ rs +++ v)).
Proof.
  intros Hs Hlen Ha Hb Hv.
  pose proof (hexDigit_range _ _ Ha) as Ra. pose proof (hexDigit_range _ _ Hb) as Rb.
  destruct (toHex_byte (16 * a + b) (addV e) ltac:(lia) (addV_cases e) Hv) as (d & Hd & Hdb).
  exists d. split; [exact Hdb |].
  unfold buildMultiSigUserOp. cbn [sortSignatures rbind forEachPack].
  unfold packSignature. rewrite Hs.
  change ("0x" +++ rs +++ String c1 (String c2 rest))
    with ("0x" +++ (rs +++ String c1 (String c2 rest))).
  rewrite takeBytes_v, takeBytes_rs.
  rewrite (str_drop_app_exact rs _ 128 Hlen), (str_take_app_exact rs _ 128 Hlen).
  cbn [str_take]. rewrite (parseInt_byte c1 c2 a b Ha Hb), Hd. cbn [rbind].
  change (slice (concatHex ["0x" +++ rs; "0x" +++ d]) 2 None)
    with ((EmptyString +++ rs) +++ d).
  reflexivity.
Qed.

(* ================================================================== *)
(** ** The packed operation *)
(* ================================================================== *)

(* ---------- reading hex back ---------- *)

Lemma hexDigit_not_white (c : ascii) (d : Z) : hexDigit c = Some d -> isWhiteSpace c = false.
Proof. destruct c as [[] [] [] [] [] [] [] []]; vm_compute; congruence. Qed.

Lemma trimEnd_hex (s : string) : allHex s = true -> trimEnd s = s.
Proof.
  induction s as [| c s IH]; [reflexivity |].
  cbn [allHex trimEnd]. destruct (hexDigit c) as [d |] eqn:Hc; [| discriminate].
  intros H. rewrite (IH H). destruct s; [| reflexivity].
  now rewrite (hexDigit_not_white c d Hc).
Qed.

(** [hexToBigInt] on 0x followed by hex digits reads the digits. *)
Lemma hexToBigInt_digits (d : string) (v : Z) :
  allHex d = true -> allDigits 16 d = Some v -> hexToBigInt ("0x" +++ d) = Ok v.
Proof.
  intros Hh Hv. unfold hexToBigInt, BigInt_of_string.
  change (trimStart ("0x" +++ d)) with ("0x" +++ d).
  assert (Ht : trimEnd ("0x" +++ d) = "0x" +++ d).
  { change ("0x" +++ d) with (String "0" (String "x" d)).
    cbn [trimEnd]. rewrite (trimEnd_hex d Hh). destruct d; reflexivity. }
  rewrite Ht. cbn [String.append]. rewrite Hv. reflexivity.
Qed.

Lemma digitsPrefix_zeros (n : nat) (r : string) (k : nat) :
  digitsPrefix 16 (string_of_list_ascii (repeat "0"%char n) +++ r) 0 k
  = digitsPrefix 16 r 0 (k + n).
Proof.
  revert k. induction n as [| n IH]; intros k.
  - cbn [repeat string_of_list_ascii String.append]. f_equal. lia.
  - cbn [repeat string_of_list_ascii String.append digitsPrefix].
    change (digitValue 16 "0") with (Some 0). cbn [Z.mul Z.add]. rewrite IH. f_equal. lia.
Qed.

Lemma toString16_digits (z : Z) :
  0 <= z ->
  toString16 z <> EmptyString
  /\ forall k, digitsPrefix 16 (toString16 z) 0 k = (z, (k + String.length (toString16 z))%nat).
Proof.
  intros Hz. unfold toString16.
  assert (Hfuel : 0 <= z < 16 ^ Z.of_nat (S (Z.to_nat (Z.log2 z)))).
  { split; [exact Hz |]. rewrite Nat2Z.inj_succ, Z2Nat.id by apply Z.log2_nonneg.
    destruct (Z.eq_dec z 0) as [-> | Hnz]; [cbn; lia |].
    pose proof (Z.log2_spec z ltac:(lia)) as [_ Hhi].
    eapply Z.lt_le_trans; [exact Hhi |].
    change 16 with (2 ^ 4). rewrite <- Z.pow_mul_r by (pose proof (Z.log2_nonneg z); lia).
    apply Z.pow_le_mono_r; [lia |]. pose proof (Z.log2_nonneg z). lia. }
  destruct (hexDigitsOf_value _ z EmptyString Hfuel) as (d & Hd & Hne & Hread).
  rewrite Hd, append_empty_r. split; [exact Hne |].
  intros k. specialize (Hread EmptyString 0 k). rewrite append_empty_r in Hread.
  rewrite Hread. cbn [digitsPrefix]. f_equal.
Qed.

Lemma allDigits_padded (z : Z) (n : nat) :
  0 <= z -> allDigits 16 (padStart0 n (toString16 z)) = Some z.
Proof.
  intros Hz. destruct (toString16_digits z Hz) as [Hne Hread].
  unfold allDigits, padStart0. rewrite digitsPrefix_zeros, Hread.
  rewrite length_append. destruct (length_zeros (n - String.length (toString16 z))) as [-> _].
  cbn [Nat.add]. replace (_ + _ =? _ + _)%nat with true by (symmetry; apply Nat.eqb_eq; lia).
  destruct (toString16 z) as [| c s]; [contradiction |].
  cbn [String.length]. replace (_ =? 0)%nat with false; [reflexivity |].
  symmetry. apply Nat.eqb_neq. lia.
Qed.

(* ---------- the width of a number in hex ---------- *)

Lemma hexDigitsOf_length (fuel : nat) : forall z acc k,
  0 <= z < 16 ^ Z.of_nat (S fuel) ->
  ((String.length (hexDigitsOf (S fuel) z acc) <= S k + String.length acc)%nat
   <-> z < 16 ^ Z.of_nat (S k))
  /\ (1 + String.length acc <= String.length (hexDigitsOf (S fuel) z acc))%nat.
Proof.
  induction fuel as [| fuel IH]; intros z acc k Hz;
    change (hexDigitsOf (S ?f) z acc)
      with (if z <? 16 then String (hexChar z) acc
            else hexDigitsOf f (z / 16) (String (hexChar (z mod 16)) acc)).
  - change (16 ^ Z.of_nat 1) with 16 in Hz.
    destruct (Z.ltb_spec z 16) as [Hlt | Hge]; [| lia].
    cbn [String.length]. split; [| lia]. split; [| lia]. intros _.
    rewrite Nat2Z.inj_succ, Z.pow_succ_r by lia.
    assert (0 < 16 ^ Z.of_nat k) by (apply Z.pow_pos_nonneg; lia). lia.
  - destruct (Z.ltb_spec z 16) as [Hlt | Hge].
    + cbn [String.length]. split; [| lia]. split; [| lia]. intros _.
      rewrite Nat2Z.inj_succ, Z.pow_succ_r by lia.
      assert (0 < 16 ^ Z.of_nat k) by (apply Z.pow_pos_nonneg; lia). lia.
    + rewrite (Nat2Z.inj_succ (S fuel)), Z.pow_succ_r in Hz by lia.
      pose proof (Z.div_mod z 16 ltac:(lia)) as Hdm.
      pose proof (Z.mod_pos_bound z 16 ltac:(lia)) as Hmod.
      assert (Hq : 0 <= z / 16 < 16 ^ Z.of_nat (S fuel)) by lia.
      destruct k as [| k].
      * destruct (IH (z / 16) (String (hexChar (z mod 16)) acc) 0%nat Hq) as [_ Hlow].
        cbn [String.length] in Hlow. split; [| lia].
        change (16 ^ Z.of_nat 1) with 16. split; lia.
      * destruct (IH (z / 16) (String (hexChar (z mod 16)) acc) k Hq) as [Hiff Hlow].
        cbn [String.length] in Hiff, Hlow. split; [| lia].
        rewrite (Nat2Z.inj_succ (S k)), Z.pow_succ_r by lia.
        split; intros H.
        -- assert (z / 16 < 16 ^ Z.of_nat (S k)) by (apply Hiff; lia). lia.
        -- assert (z / 16 < 16 ^ Z.of_nat (S k)) by lia.
           apply Hiff in H0. lia.
Qed.

Lemma toString16_length (z : Z) (k : nat) :
  0 <= z ->
  ((String.length (toString16 z) <= S k)%nat <-> z < 16 ^ Z.of_nat (S k)).
Proof.
  intros Hz. unfold toString16.
  assert (Hfuel : 0 <= z < 16 ^ Z.of_nat (S (Z.to_nat (Z.log2 z)))).
  { split; [exact Hz |]. rewrite Nat2Z.inj_succ, Z2Nat.id by apply Z.log2_nonneg.
    destruct (Z.eq_dec z 0) as [-> | Hnz]; [cbn; lia |].
    pose proof (Z.log2_spec z ltac:(lia)) as [_ Hhi].
    eapply Z.lt_le_trans; [exact Hhi |].
    change 16 with (2 ^ 4). rewrite <- Z.pow_mul_r by (pose proof (Z.log2_nonneg z); lia).
    apply Z.pow_le_mono_r; [lia |]. pose proof (Z.log2_nonneg z). lia. }
  destruct (hexDigitsOf_length _ z EmptyString k Hfuel) as [Hiff _].
  cbn [String.length] in Hiff. rewrite Nat.add_0_r in Hiff. exact Hiff.
Qed.

(* ---------- one padded 16-byte field ---------- *)


Lemma pad16_cases (v : Z) :
  pad16 v =
    if v <? 0 then Err IntegerOutOfRangeError
    else if 2 ^ 128 <=? v then Err SizeExceedsPaddingSizeError
    else Ok ("0x" +++ padStart0 32 (toString16 v)).
Proof.
  unfold pad16, toHex_bigint, numberToHex. cbn [orb].
  destruct (Z.ltb_spec v 0) as [| Hv]; [reflexivity |]. cbn [rbind].
  unfold pad. change (replace_0x ("0x" +++ toString16 v)) with (toString16 v).
  change (16 * 2)%nat with 32%nat.
  pose proof (toString16_length v 31 Hv) as Hlen.
  change (16 ^ Z.of_nat 32) with (2 ^ 128) in Hlen.
  destruct (Nat.ltb_spec 32 (String.length (toString16 v))) as [Hl | Hl];
    destruct (Z.leb_spec (2 ^ 128) v) as [Hb | Hb]; try reflexivity.
  - exfalso. apply Hlen in Hb. lia.
  - exfalso. apply Hlen in Hl. lia.
Qed.

Lemma packUserOp_pad16 (userOp : UserOperation) :
  packUserOp userOp =
    let initCode :=
      if (truthy_string (factory userOp) && truthy_string (factoryData userOp))%bool
      then concatHex [match factory userOp with Some f => f | None => EmptyString end;
                      match factoryData userOp with Some d => d | None => EmptyString end]
      else "0x" in
    let* vgl := pad16 (verificationGasLimit userOp) in
    let* cgl := pad16 (callGasLimit userOp) in
    let* prio := pad16 (maxPriorityFeePerGas userOp) in
    let* fee := pad16 (maxFeePerGas userOp) in
    Ok {| packed_sender := sender userOp;
          packed_nonce := nonce userOp;
          packed_callData := callData userOp;
          packed_accountGasLimits := concatHex [vgl; cgl];
          packed_initCode := initCode;
          packed_preVerificationGas := preVerificationGas userOp;
          packed_gasFees := concatHex [prio; fee];
          packed_paymasterAndData := "0x";
          packed_signature := signature userOp |}.
Proof. reflexivity. Qed.


Lemma pad16_ok (v : Z) :
  inRange128 v -> pad16 v = Ok ("0x" +++ padStart0 32 (toString16 v)).
Proof.
  intros [H0 H1]. rewrite pad16_cases.
  destruct (Z.ltb_spec v 0) as [L | L]; [lia |].
  destruct (Z.leb_spec (2 ^ 128) v) as [U | U]; [lia | reflexivity].
Qed.

Lemma pad16_inv (v : Z) (r : string) :
  pad16 v = Ok r -> inRange128 v /\ r = "0x" +++ padStart0 32 (toString16 v).
Proof.
  rewrite pad16_cases. unfold inRange128.
  destruct (Z.ltb_spec v 0) as [L | L]; [discriminate |].
  destruct (Z.leb_spec (2 ^ 128) v) as [U | U]; [discriminate |].
  intros Hr. inversion Hr. split; [lia | reflexivity].
Qed.

Lemma pad16_err (v : Z) (e : error) :
  pad16 v = Err e ->
  ~ inRange128 v /\ (e = IntegerOutOfRangeError \/ e = SizeExceedsPaddingSizeError).
Proof.
  rewrite pad16_cases. unfold inRange128.
  destruct (Z.ltb_spec v 0) as [L | L]; [intros [= <-]; split; [lia | now left] |].
  destruct (Z.leb_spec (2 ^ 128) v) as [U | U]; [intros [= <-]; split; [lia | now right] |].
  discriminate.
Qed.

Lemma padded_field (v : Z) :
  0 <= v -> (String.length (toString16 v) <= 32)%nat ->
  let d := padStart0 32 (toString16 v) in
  String.length d = 32%nat /\ allHex d = true /\ hexToBigInt ("0x" +++ d) = Ok v.
Proof.
  intros Hv Hlen d. subst d.
  assert (Hhex : allHex (padStart0 32 (toString16 v)) = true).
  { unfold padStart0. destruct (length_zeros (32 - String.length (toString16 v))) as [_ Hz].
    rewrite allHex_app, Hz. apply hexDigitsOf_allHex; [exact Hv | reflexivity]. }
  split; [| split; [exact Hhex |]].
  - unfold padStart0. destruct (length_zeros (32 - String.length (toString16 v))) as [Hz _].
    rewrite length_append, Hz. lia.
  - apply hexToBigInt_digits; [exact Hhex | now apply allDigits_padded].
Qed.

(** Round trip of the packed gas fields: when [getUserOpHash] builds the
    packed operation, accountGasLimits is 0x followed by two runs of 32 hex
    digits that [hexToBigInt] reads back as verificationGasLimit and
    callGasLimit, in this order, and gasFees likewise holds
    maxPriorityFeePerGas, then maxFeePerGas. *)
Theorem packUserOp_gas_round_trip (userOp : UserOperation) (p : PackedUserOperation) :
  packUserOp userOp = Ok p ->
  exists vgl cgl prio fee,
    packed_accountGasLimits p = "0x" +++ vgl +++ cgl
    /\ packed_gasFees p = "0x" +++ prio +++ fee
    /\ Forall (fun d => String.length d = 32%nat) [vgl; cgl; prio; fee]
    /\ hexToBigInt ("0x" +++ vgl) = Ok (verificationGasLimit userOp)
    /\ hexToBigInt ("0x" +++ cgl) = Ok (callGasLimit userOp)
    /\ hexToBigInt ("0x" +++ prio) = Ok (maxPriorityFeePerGas userOp)
    /\ hexToBigInt ("0x" +++ fee) = Ok (maxFeePerGas userOp).
Proof.
  rewrite (packUserOp_pad16). cbv zeta.
  destruct (pad16 (verificationGasLimit userOp)) as [r1 |] eqn:E1; [| discriminate].
  destruct (pad16 (callGasLimit userOp)) as [r2 |] eqn:E2; [| discriminate].
  destruct (pad16 (maxPriorityFeePerGas userOp)) as [r3 |] eqn:E3; [| discriminate].
  destruct (pad16 (maxFeePerGas userOp)) as [r4 |] eqn:E4; [| discriminate].
  cbn [rbind]. intros H. inversion H. subst p. clear H.
  cbn [packed_accountGasLimits packed_gasFees].
  apply pad16_inv in E1 as [[L1 U1] ->], E2 as [[L2 U2] ->],
                     E3 as [[L3 U3] ->], E4 as [[L4 U4] ->].
  assert (Hw : forall v, 0 <= v < 2 ^ 128 -> (String.length (toString16 v) <= 32)%nat).
  { intros v [Hv0 Hv1]. apply (toString16_length v 31 Hv0). exact Hv1. }
  destruct (padded_field _ L1 (Hw _ (conj L1 U1))) as (A1 & _ & B1).
  destruct (padded_field _ L2 (Hw _ (conj L2 U2))) as (A2 & _ & B2).
  destruct (padded_field _ L3 (Hw _ (conj L3 U3))) as (A3 & _ & B3).
  destruct (padded_field _ L4 (Hw _ (conj L4 U4))) as (A4 & _ & B4).
  eexists _, _, _, _.
  split; [reflexivity |]. split; [reflexivity |].
  split; [repeat constructor; assumption |]. auto.
Qed.

(** The packed operation exists exactly when the four gas and fee values
    are unsigned integers of at most 128 bits; otherwise [toHex] or [pad]
    throws, and [getUserOpHash] ends with that error before the entry point
    is called. *)
Theorem packUserOp_defined_iff (userOp : UserOperation) :
  (inRange128 (verificationGasLimit userOp) /\ inRange128 (callGasLimit userOp)
   /\ inRange128 (maxPriorityFeePerGas userOp) /\ inRange128 (maxFeePerGas userOp)
   <-> exists p, packUserOp userOp = Ok p)
  /\ forall e,
       packUserOp userOp = Err e ->
       (e = IntegerOutOfRangeError \/ e = SizeExceedsPaddingSizeError)
       /\ forall w, getUserOpHash w userOp = ([], Err e).
Proof.
  split.
  - rewrite (packUserOp_pad16). cbv zeta. split.
    + intros (H1 & H2 & H3 & H4).
      rewrite (pad16_ok _ H1), (pad16_ok _ H2), (pad16_ok _ H3), (pad16_ok _ H4).
      cbn [rbind]. eauto.
    + intros (p & H).
      destruct (pad16 (verificationGasLimit userOp)) as [r1 |] eqn:E1; [| discriminate].
      destruct (pad16 (callGasLimit userOp)) as [r2 |] eqn:E2; [| discriminate].
      destruct (pad16 (maxPriorityFeePerGas userOp)) as [r3 |] eqn:E3; [| discriminate].
      destruct (pad16 (maxFeePerGas userOp)) as [r4 |] eqn:E4; [| discriminate].
      apply pad16_inv in E1 as [? _], E2 as [? _], E3 as [? _], E4 as [? _]. auto.
  - intros e He. split.
    + revert He. rewrite (packUserOp_pad16). cbv zeta.
      destruct (pad16 (verificationGasLimit userOp)) as [r1 |] eqn:E1;
        [| intros [= <-]; now apply pad16_err in E1].
      destruct (pad16 (callGasLimit userOp)) as [r2 |] eqn:E2;
        [| intros [= <-]; now apply pad16_err in E2].
      destruct (pad16 (maxPriorityFeePerGas userOp)) as [r3 |] eqn:E3;
        [| intros [= <-]; now apply pad16_err in E3].
      destruct (pad16 (maxFeePerGas userOp)) as [r4 |] eqn:E4;
        [| intros [= <-]; now apply pad16_err in E4].
      discriminate.
    + intros w. unfold getUserOpHash. rewrite He. reflexivity.
Qed.

Lemma packUserOp_fields (userOp : UserOperation) (p : PackedUserOperation) :
  packUserOp userOp = Ok p ->
  packed_sender p = sender userOp /\ packed_nonce p = nonce userOp
  /\ packed_callData p = callData userOp
  /\ packed_preVerificationGas p = preVerificationGas userOp
  /\ packed_signature p = signature userOp
  /\ packed_paymasterAndData p = "0x"
  /\ packed_initCode p
     = if (truthy_string (factory userOp) && truthy_string (factoryData userOp))%bool
       then concatHex [match factory userOp with Some f => f | None => EmptyString end;
                       match factoryData userOp with Some d => d | None => EmptyString end]
       else "0x".
Proof.
  rewrite (packUserOp_pad16). cbv zeta.
  destruct (pad16 (verificationGasLimit userOp)) as [r1 |]; [| discriminate].
  destruct (pad16 (callGasLimit userOp)) as [r2 |]; [| discriminate].
  destruct (pad16 (maxPriorityFeePerGas userOp)) as [r3 |]; [| discriminate].
  destruct (pad16 (maxFeePerGas userOp)) as [r4 |]; [| discriminate].
  cbn [rbind]. intros H. inversion H. subst p. cbn. repeat split.
Qed.

(** The init code of the packed operation: the bytes of the factory address
    followed by the bytes of the factory data when the operation carries
    both, and empty when either is missing. *)
Theorem packUserOp_initCode (userOp : UserOperation) (p : PackedUserOperation) :
  packUserOp userOp = Ok p ->
  (forall f d fb db,
     factory userOp = Some f -> factoryData userOp = Some d ->
     hexBytes f = Some fb -> hexBytes d = Some db ->
     hexBytes (packed_initCode p) = Some (fb ++ db))
  /\ (factory userOp = None \/ factoryData userOp = None -> packed_initCode p = "0x").
Proof.
  intros Hp. apply packUserOp_fields in Hp as (_ & _ & _ & _ & _ & _ & Hi). rewrite Hi. split.
  - intros f d fb db -> -> Hf Hd.
    apply hexBytes_inv in Hf as (bf & -> & Hbf). apply hexBytes_inv in Hd as (bd & -> & Hbd).
    cbn [truthy_string String.eqb String.append negb andb].
    change (concatHex [String "0" (String "x" bf); String "0" (String "x" bd)])
      with ("0x" +++ (EmptyString +++ bf) +++ bd).
    cbn [String.append].
    change (String "0" (String "x" (bf +++ bd))) with ("0x" +++ bf +++ bd).
    rewrite hexBytes_0x. now apply bytesOfDigits_app.
  - intros [-> | ->]; cbn [truthy_string andb]; [reflexivity |].
    destruct (truthy_string (factory userOp)); reflexivity.
Qed.

(* ================================================================== *)
(** ** Every run, however it ends *)
(* ================================================================== *)

(** However one signer's pass ends, it made one of three sequences of
    calls. *)
Lemma signUserOp_cases (w : World) (signer : Signer) (userOp : UserOperation) :
  (exists e, packUserOp userOp = Err e /\ signUserOp w signer userOp = ([], Err e))
  \/ (exists p e, packUserOp userOp = Ok p /\ readContract_getUserOpHash w p = Err e
                  /\ signUserOp w signer userOp = ([EvGetUserOpHash p], Err e))
  \/ (exists p h, packUserOp userOp = Ok p /\ readContract_getUserOpHash w p = Ok h
                  /\ signUserOp w signer userOp
                     = (signEvents p signer h, signMessage w (privateKey signer) h)).
Proof.
  unfold signUserOp, getUserOpHash.
  destruct (packUserOp userOp) as [p | e]; [| left; now exists e].
  right. destruct (readContract_getUserOpHash w p) as [h | e] eqn:Hh.
  - right. exists p, h. split; [reflexivity |]. split; [exact Hh |].
    cbn [bind lift call app]. rewrite Hh. reflexivity.
  - left. exists p, e. split; [reflexivity |]. split; [exact Hh |].
    cbn [bind lift call app]. rewrite Hh. reflexivity.
Qed.

Lemma getPartialUserOp_cases (w : World) (senderAddress : Address) (callData_ : Hex) :
  getPartialUserOp w senderAddress callData_
  = ([EvGetAccountNonce senderAddress],
     match getAccountNonce w senderAddress with
     | Ok nonce_ =>
         if nonce_ =? 0 then Err UndeployedAccount
         else Ok (baseUserOp senderAddress nonce_ callData_)
     | Err e => Err e
     end).
Proof.
  unfold getPartialUserOp. destruct (getAccountNonce w senderAddress) as [n | e];
    [| reflexivity].
  rewrite bind_call_ok. destruct (n =? 0); reflexivity.
Qed.

Section Loop.

Variable w : World.
Variable bundlerRPCUrl : string.
Variable partialUserOp : UserOperation.
Variable numSigners : nat.
Variable gasFeesMultiplier : number.

(** Every call of the loop, however it ends, belongs to the estimation or
    to the pass of one of the signers over a signable operation. *)
Lemma signLoop_events (rest : list Signer) :
  forall (i : nat) (signatures : list SignatureEntry) (op0 : UserOperation) (ev : event),
  In ev (trace (signLoop w bundlerRPCUrl partialUserOp numSigners gasFeesMultiplier i rest
                  signatures op0)) ->
  (exists signer u pre post,
     In signer rest
     /\ signable w bundlerRPCUrl partialUserOp numSigners gasFeesMultiplier u
     /\ trace (signLoop w bundlerRPCUrl partialUserOp numSigners gasFeesMultiplier i rest
                 signatures op0)
        = pre ++ trace (signUserOp w signer u) ++ post
     /\ In ev (trace (signUserOp w signer u)))
  \/ In ev (trace (estimateUserOp w bundlerRPCUrl partialUserOp numSigners gasFeesMultiplier)).
Proof.
  induction rest as [| signer rest IH]; intros i sigs op0 ev Hin; [contradiction |].
  cbn [signLoop] in Hin |- *.
  set (E := if Z.of_nat i =? Z.of_nat numSigners - 1
            then estimateUserOp w bundlerRPCUrl partialUserOp numSigners gasFeesMultiplier
            else ret partialUserOp) in *.
  assert (HE : forall u, outcome E = Ok u ->
               signable w bundlerRPCUrl partialUserOp numSigners gasFeesMultiplier u).
  { subst E. intros u Hu. destruct (Z.of_nat i =? Z.of_nat numSigners - 1).
    - right. exists (trace (estimateUserOp w bundlerRPCUrl partialUserOp numSigners
                              gasFeesMultiplier)).
      now apply outcome_ok.
    - left. cbn in Hu. now inversion Hu. }
  assert (HtE : forall x, In x (trace E) ->
                In x (trace (estimateUserOp w bundlerRPCUrl partialUserOp numSigners
                               gasFeesMultiplier))).
  { subst E. intros x Hx. destruct (Z.of_nat i =? Z.of_nat numSigners - 1);
      [exact Hx | contradiction]. }
  rewrite trace_bind in Hin |- *. apply in_app_iff in Hin as [Hin | Hin]; [right; auto |].
  destruct (outcome E) as [u |] eqn:Hu; [| contradiction].
  rewrite trace_bind in Hin |- *. apply in_app_iff in Hin as [Hin | Hin].
  - left. exists signer, u, (trace E). eexists. split; [now left |].
    split; [now apply HE |]. split; [reflexivity | exact Hin].
  - destruct (outcome (signUserOp w signer u)) as [sig |] eqn:Hsig; [| contradiction].
    apply IH in Hin as [(s & u' & pre & post & Hs & Hu' & Htr & Hev) | Hest]; [| now right].
    left. exists s, u', (trace E ++ trace (signUserOp w signer u) ++ pre), post.
    split; [now right |]. split; [exact Hu' |]. split; [| exact Hev].
    rewrite Htr, <- !app_assoc. reflexivity.
Qed.

End Loop.

(** Every call of a run, however it ends: the nonce lookup, a call of the
    estimation over the base operation, or a call of the pass of one of the
    signers over the base operation or the estimated one. *)
Lemma buildAndSignMultisigUserOp_events (w : World) (bundlerRPCUrl : string)
  (walletAddress : Address) (signerAddresses : list Signer)
  (gasFeesMultiplier : number) (callData_ : Hex) (ev : event) :
  let run := buildAndSignMultisigUserOp w bundlerRPCUrl walletAddress signerAddresses
               gasFeesMultiplier callData_ in
  In ev (trace run) ->
  ev = EvGetAccountNonce walletAddress
  \/ exists nonce_,
       getAccountNonce w walletAddress = Ok nonce_
       /\ let partialUserOp := baseUserOp walletAddress nonce_ callData_ in
          let numSigners := List.length signerAddresses in
          (In ev (trace (estimateUserOp w bundlerRPCUrl partialUserOp numSigners
                           gasFeesMultiplier))
           \/ exists signer u pre post,
                In signer signerAddresses
                /\ signable w bundlerRPCUrl partialUserOp numSigners gasFeesMultiplier u
                /\ trace run = pre ++ trace (signUserOp w signer u) ++ post
                /\ In ev (trace (signUserOp w signer u))).
Proof.
  intros run. subst run.
  unfold buildAndSignMultisigUserOp, collectSignatures.
  rewrite getPartialUserOp_cases, !trace_bind, outcome_bind. cbn [trace outcome fst snd app].
  intros [<- | Hin]; [now left |]. right.
  destruct (getAccountNonce w walletAddress) as [n | e]; [| contradiction].
  destruct (n =? 0); [contradiction |].
  exists n. split; [reflexivity |]. cbn zeta.
  apply in_app_iff in Hin as [Hin | Hin].
  - apply signLoop_events in Hin as [(s & u & pre & post & Hs & Hu & Htr & Hev) | Hest];
      [| now left].
    right. exists s, u, (EvGetAccountNonce walletAddress :: pre). eexists.
    split; [exact Hs |]. split; [exact Hu |]. split; [| exact Hev].
    rewrite Htr. cbn [app]. rewrite <- !app_assoc. reflexivity.
  - destruct (outcome (signLoop _ _ _ _ _ _ _ _ _)) as [[sigs opG] |]; contradiction.
Qed.

(** In a run, however it ends, the wallet is asked to sign only with the
    private key of one of the signers, and only a hash that the entry point
    has just answered: the request follows that hash read at once. *)
Theorem buildAndSignMultisigUserOp_signs_only_hashes (w : World) (bundlerRPCUrl : string)
  (walletAddress : Address) (signerAddresses : list Signer)
  (gasFeesMultiplier : number) (callData_ : Hex) (key : string) (hash : Hex) :
  let run := buildAndSignMultisigUserOp w bundlerRPCUrl walletAddress signerAddresses
               gasFeesMultiplier callData_ in
  In (EvSignMessage key hash) (trace run) ->
  exists signer p pre post,
    In signer signerAddresses /\ key = privateKey signer
    /\ readContract_getUserOpHash w p = Ok hash
    /\ trace run = pre ++ EvGetUserOpHash p :: EvSignMessage key hash :: post.
Proof.
  intros run Hin. subst run.
  apply buildAndSignMultisigUserOp_events in Hin as [H | (n & Hn & [Hest | Hsig])];
    [discriminate | |].
  - apply estimateUserOp_trace_events in Hest as [H | [[H _] | [u H]]]; discriminate.
  - destruct Hsig as (s & u & pre & post & Hs & _ & Htr & Hev).
    destruct (signUserOp_cases w s u)
      as [(e & _ & Hc) | [(p & e & _ & _ & Hc) | (p & h & _ & Hh & Hc)]];
      rewrite Hc in Hev, Htr; cbn [trace fst] in Hev, Htr.
    + contradiction.
    + destruct Hev as [H | []]; discriminate.
    + destruct Hev as [H | [H | []]]; [discriminate |]. inversion H; subst.
      exists s, p, pre, post. repeat split; auto.
Qed.

(** In a run, however it ends, every operation sent to the entry point to be
    hashed is an operation of the wallet, with the nonce that was looked up,
    the call data of the run, no init code, no paymaster data and an empty
    signature: the placeholder signature of the estimation is never hashed. *)
Theorem buildAndSignMultisigUserOp_hashes_unsigned_operation (w : World)
  (bundlerRPCUrl : string) (walletAddress : Address) (signerAddresses : list Signer)
  (gasFeesMultiplier : number) (callData_ : Hex) (p : PackedUserOperation) :
  In (EvGetUserOpHash p)
     (trace (buildAndSignMultisigUserOp w bundlerRPCUrl walletAddress signerAddresses
               gasFeesMultiplier callData_)) ->
  packed_sender p = walletAddress
  /\ getAccountNonce w walletAddress = Ok (packed_nonce p)
  /\ packed_callData p = callData_
  /\ packed_initCode p = "0x"
  /\ packed_paymasterAndData p = "0x"
  /\ packed_signature p = "0x".
Proof.
  intros Hin.
  apply buildAndSignMultisigUserOp_events in Hin as [H | (n & Hn & [Hest | Hsig])];
    [discriminate | |].
  - apply estimateUserOp_trace_events in Hest as [H | [[H _] | [u H]]]; discriminate.
  - destruct Hsig as (s & u & pre & post & _ & Hu & _ & Hev).
    assert (Hp : packUserOp u = Ok p).
    { destruct (signUserOp_cases w s u)
        as [(e & _ & Hc) | [(p' & e & Hp & _ & Hc) | (p' & h & Hp & _ & Hc)]];
        rewrite Hc in Hev; cbn [trace fst] in Hev.
      - contradiction.
      - destruct Hev as [H | []]. now inversion H; subst.
      - destruct Hev as [H | [H | []]]; [| discriminate]. now inversion H; subst. }
    apply packUserOp_fields in Hp as (H1 & H2 & H3 & _ & H5 & H6 & H7).
    assert (Hshape : sender u = walletAddress /\ nonce u = n /\ callData u = callData_
                     /\ factory u = None /\ signature u = "0x").
    { destruct Hu as [-> | (t & Hest)]; [cbn; auto |].
      apply estimateUserOp_inv in Hest
        as (? & ? & ? & ? & ? & _ & _ & _ & _ & _ & _ & _ & -> & _).
      cbn. auto. }
    destruct Hshape as (S1 & S2 & S3 & S4 & S5).
    rewrite H1, H2, H3, H5, H6, H7, S1, S2, S3, S4, S5. cbn [truthy_string andb].
    repeat split; auto.
Qed.

Lemma signUserOp_hashed (w : World) (signer : Signer) (userOp : UserOperation)
  (p : PackedUserOperation) (h : Hex) :
  packUserOp userOp = Ok p -> readContract_getUserOpHash w p = Ok h ->
  signUserOp w signer userOp = (signEvents p signer h, signMessage w (privateKey signer) h).
Proof.
  intros Hp Hh. unfold signUserOp, getUserOpHash. rewrite Hp. cbn [bind lift call app].
  rewrite Hh. reflexivity.
Qed.

(** The loop over signers none of whom is the last: their passes, then the
    rest of the loop. *)
Lemma signLoop_front (w : World) (bundlerRPCUrl : string) (partialUserOp : UserOperation)
  (numSigners : nat) (gasFeesMultiplier : number)
  (front : list Signer) (es : list SignatureEntry) (trFront : list event) :
  passes w partialUserOp front es trFront ->
  forall (i : nat) (signatures0 : list SignatureEntry) (rest : list Signer),
  rest <> [] ->
  (i + List.length front + List.length rest = numSigners)%nat ->
  let continued :=
    signLoop w bundlerRPCUrl partialUserOp numSigners gasFeesMultiplier
      (i + List.length front) rest (signatures0 ++ es) partialUserOp in
  signLoop w bundlerRPCUrl partialUserOp numSigners gasFeesMultiplier i (front ++ rest)
    signatures0 partialUserOp
  = (trFront ++ trace continued, outcome continued).
Proof.
  induction 1 as [| signer signers e es p h tr Hp Hh Hs Ha Ht Hrest IH];
    intros i sigs0 rest Hne Hlen continued; subst continued.
  - cbn [app List.length]. rewrite Nat.add_0_r, app_nil_r. apply M_eta.
  - cbn [app List.length signLoop] in *.
    replace (Z.of_nat i =? Z.of_nat numSigners - 1) with false
      by (symmetry; apply Z.eqb_neq; destruct rest; [contradiction | cbn in Hlen; lia]).
    rewrite bind_ret_l, (signUserOp_hashed w signer partialUserOp p h Hp Hh), Hs.
    assert (He : {| sig_signer := address signer; sig_signature := sig_signature e;
                    sig_userOpSigType := None |} = e).
    { destruct e as [a s t]. cbn in *. now subst. }
    cbn [bind]. rewrite He. rewrite (IH (S i) (sigs0 ++ [e]) rest Hne) by lia.
    rewrite <- !app_assoc. cbn [app].
    replace (S i + List.length signers)%nat with (i + S (List.length signers))%nat by lia.
    reflexivity.
Qed.

(** When a signer other than the last cannot sign (the packing, the hash
    read or the wallet fails), the run ends there with that error: the
    signers after it are not asked, and neither the fee oracle nor the
    bundler's gas estimation is queried. *)
Theorem buildAndSignMultisigUserOp_early_failure (w : World) (bundlerRPCUrl : string)
  (walletAddress : Address) (front : list Signer) (failing : Signer) (rest : list Signer)
  (gasFeesMultiplier : number) (callData_ : Hex) (nonce_ : Z)
  (es : list SignatureEntry) (trFront : list event) (e : error) :
  getAccountNonce w walletAddress = Ok nonce_ -> nonce_ <> 0 ->
  rest <> [] ->
  let partialUserOp := baseUserOp walletAddress nonce_ callData_ in
  passes w partialUserOp front es trFront ->
  outcome (signUserOp w failing partialUserOp) = Err e ->
  let run := buildAndSignMultisigUserOp w bundlerRPCUrl walletAddress
               (front ++ failing :: rest) gasFeesMultiplier callData_ in
  run = (EvGetAccountNonce walletAddress
           :: trFront ++ trace (signUserOp w failing partialUserOp), Err e)
  /\ forall ev, In ev (trace run) ->
       ev <> EvEstimateFeesPerGas /\ forall u, ev <> EvEstimateUserOperationGas u.
Proof.
  intros Hn Hne Hrest partialUserOp Hpass Hfail run.
  assert (Hrun : run = (EvGetAccountNonce walletAddress
                          :: trFront ++ trace (signUserOp w failing partialUserOp), Err e)).
  { subst run. unfold buildAndSignMultisigUserOp, collectSignatures.
    rewrite getPartialUserOp_cases, Hn.
    destruct (Z.eqb_spec nonce_ 0) as [| _]; [contradiction |].
    fold partialUserOp. cbn [bind].
    rewrite (signLoop_front w bundlerRPCUrl partialUserOp _ gasFeesMultiplier
               front es trFront Hpass 0 [] (failing :: rest))
      by (try discriminate; rewrite length_app; cbn [List.length]; lia).
    cbn [signLoop app Nat.add].
    replace (Z.of_nat (List.length front)
             =? Z.of_nat (List.length (front ++ failing :: rest)) - 1) with false
      by (symmetry; apply Z.eqb_neq; rewrite length_app; cbn [List.length];
          destruct rest; [contradiction | cbn [List.length]; lia]).
    rewrite bind_ret_l.
    rewrite (M_eta (signUserOp w failing partialUserOp)), Hfail.
    cbn [bind trace outcome fst snd app]. reflexivity. }
  split; [exact Hrun |].
  rewrite Hrun. cbn [trace fst]. intros ev [<- | Hin];
    [split; [| intros u]; discriminate |].
  apply in_app_iff in Hin as [Hin | Hin];
    [exact (passes_no_estimate w _ _ _ _ Hpass ev Hin) |].
  destruct (signUserOp_cases w failing partialUserOp)
    as [(x & _ & Hc) | [(p & x & _ & _ & Hc) | (p & h & _ & _ & Hc)]];
    rewrite Hc in Hin; cbn [trace fst signEvents] in Hin.
  - contradiction.
  - destruct Hin as [<- | []]. split; [| intros u]; discriminate.
  - destruct Hin as [<- | [<- | []]]; (split; [| intros u]; discriminate).
Qed.

(** When the estimation fails (a fee is missing, the multiplier is below 1
    or not a finite number, a request is rejected), the run ends with that
    error and the last signer is not asked to sign; by then every earlier
    signer has been asked and has signed. *)
Theorem buildAndSignMultisigUserOp_estimation_failure (w : World) (bundlerRPCUrl : string)
  (walletAddress : Address) (front : list Signer) (last : Signer)
  (gasFeesMultiplier : number) (callData_ : Hex) (nonce_ : Z)
  (es : list SignatureEntry) (trFront : list event) (e : error) :
  getAccountNonce w walletAddress = Ok nonce_ -> nonce_ <> 0 ->
  let partialUserOp := baseUserOp walletAddress nonce_ callData_ in
  let estimation :=
    estimateUserOp w bundlerRPCUrl partialUserOp (List.length (front ++ [last]))
      gasFeesMultiplier in
  passes w partialUserOp front es trFront ->
  outcome estimation = Err e ->
  buildAndSignMultisigUserOp w bundlerRPCUrl walletAddress (front ++ [last])
    gasFeesMultiplier callData_
  = (EvGetAccountNonce walletAddress :: trFront ++ trace estimation, Err e)
  /\ (forall key hash, ~ In (EvSignMessage key hash) (trace estimation))
  /\ Forall2 (fun signer entry => entryOf w signer partialUserOp None entry) front es.
Proof.
  intros Hn Hne partialUserOp estimation Hpass Hfail.
  split; [| split].
  - unfold buildAndSignMultisigUserOp, collectSignatures.
    rewrite getPartialUserOp_cases, Hn.
    destruct (Z.eqb_spec nonce_ 0) as [| _]; [contradiction |].
    fold partialUserOp. cbn [bind].
    rewrite (signLoop_front w bundlerRPCUrl partialUserOp _ gasFeesMultiplier
               front es trFront Hpass 0 [] [last])
      by (try discriminate; rewrite length_app; cbn [List.length]; lia).
    cbn [signLoop app Nat.add].
    replace (Z.of_nat (List.length front)
             =? Z.of_nat (List.length (front ++ [last])) - 1) with true
      by (symmetry; apply Z.eqb_eq; rewrite length_app; cbn [List.length]; lia).
    fold estimation. rewrite (M_eta estimation), Hfail.
    cbn [bind trace outcome fst snd app]. reflexivity.
  - intros key hash Hin. subst estimation.
    apply estimateUserOp_trace_events in Hin as [H | [[H _] | [u H]]]; discriminate.
  - exact (passes_entries w _ _ _ _ Hpass).
Qed.

(* ---------- end to end: the length of the final signature ---------- *)

Lemma wellFormed_intro (e : SignatureEntry) (bs : list Z) :
  is_ok (hexToBigInt (sig_signer e)) = true ->
  hexBytes (sig_signature e) = Some bs -> List.length bs = 65%nat ->
  nth 64 bs 0 <= 223 ->
  wellFormed e = true.
Proof.
  intros Hk Hb Hl Hv. unfold wellFormed. rewrite Hk, Hb, Hl. cbn [andb Nat.eqb].
  apply Z.leb_le. destruct (addV_cases e) as [-> | ->]; lia.
Qed.

(** A wallet whose signatures are 65 bytes long with a recovery byte of at
    most 223 (27 or 28 in practice), and signers whose addresses read as
    integers: every run that returns carries a signature of exactly
    65 bytes per signer. *)
Theorem buildAndSignMultisigUserOp_signature_length (w : World) (bundlerRPCUrl : string)
  (walletAddress : Address) (signerAddresses : list Signer)
  (gasFeesMultiplier : number) (callData_ : Hex) (final : UserOperation) :
  (forall key hash s,
     signMessage w key hash = Ok s ->
     exists bs, hexBytes s = Some bs /\ List.length bs = 65%nat /\ nth 64 bs 0 <= 223) ->
  Forall (fun signer => is_ok (hexToBigInt (address signer)) = true) signerAddresses ->
  outcome (buildAndSignMultisigUserOp w bundlerRPCUrl walletAddress signerAddresses
             gasFeesMultiplier callData_) = Ok final ->
  exists bs,
    hexBytes (signature final) = Some bs
    /\ List.length bs = (65 * List.length signerAddresses)%nat.
Proof.
  intros Hwallet Haddr H.
  apply buildAndSignMultisigUserOp_inv in H as (sigs & opG & Hc & Hb).
  destruct signerAddresses as [| s0 l] eqn:E.
  - unfold collectSignatures in Hc. rewrite getPartialUserOp_cases in Hc.
    destruct (getAccountNonce w walletAddress) as [n |]; [| discriminate].
    destruct (n =? 0); [discriminate |]. cbn in Hc. inversion Hc; subst.
    cbn in Hb. inversion Hb; subst. exists []. split; reflexivity.
  - rewrite <- E in *.
    assert (Hne : signerAddresses <> []) by (rewrite E; discriminate).
    destruct (exists_last Hne) as (front & lastSigner & Efl). rewrite Efl in Hc, Haddr |- *.
    apply collectSignatures_inv in Hc
      as (n & es & eLast & trFront & tE & p & h & _ & _ & -> & Hpass & _ & HL & _ & _ & _).
    apply Forall_app in Haddr as [Hfront Hlast]. inversion Hlast as [| ? ? Hlast' _]; subst.
    assert (Hes : Forall (fun e => wellFormed e = true) es /\ List.length es = List.length front).
    { clear -Hpass Hwallet Hfront.
      induction Hpass as [| signer signers e es p h tr Hp Hh Hs Ha Ht Hrest IH].
      - split; [constructor | reflexivity].
      - inversion Hfront as [| ? ? Hk Hfront']; subst.
        destruct (IH Hfront') as [IH1 IH2]. split; [| cbn [List.length]; now rewrite IH2].
        constructor; [| exact IH1].
        destruct (Hwallet _ _ _ Hs) as (bs & Hb & Hl & Hv).
        apply (wellFormed_intro e bs); auto. now rewrite Ha. }
    destruct Hes as [Hes Hlen].
    assert (HeL : wellFormed eLast = true).
    { destruct HL as (Ha & _ & p' & h' & _ & _ & Hs).
      destruct (Hwallet _ _ _ Hs) as (bs & Hbs & Hl & Hv).
      apply (wellFormed_intro eLast bs); auto. now rewrite Ha. }
    assert (Hwf : Forall (fun e => wellFormed e = true) (es ++ [eLast])).
    { apply Forall_app. split; [exact Hes | now constructor]. }
    assert (Hkeys : Forall (fun e => is_ok (hexToBigInt (sig_signer e)) = true) (es ++ [eLast])).
    { rewrite Forall_forall in Hwf |- *. intros e He. specialize (Hwf e He).
      unfold wellFormed in Hwf. now apply andb_true_iff in Hwf as [Hk _]. }
    pose proof (sortedEntries_perm (es ++ [eLast])) as Hperm.
    assert (Hwf' : Forall (fun e => wellFormed e = true) (sortedEntries (es ++ [eLast]))).
    { rewrite Forall_forall in Hwf |- *. intros e He.
      apply Hwf, (Permutation_in _ (Permutation_sym Hperm)), He. }
    destruct (forEachPack_ok _ EmptyString Hwf') as (digits & Hd & Hdb).
    unfold buildMultiSigUserOp in Hb. rewrite (sortSignatures_ok _ Hkeys) in Hb.
    cbn [rbind] in Hb. rewrite Hd in Hb. cbn [rbind String.append] in Hb.
    inversion Hb; subst. cbn [with_signature signature].
    exists (flat_map block (sortedEntries (es ++ [eLast]))). split; [exact Hdb |].
    rewrite (flat_map_block_length _ Hwf'), <- (Permutation_length Hperm).
    rewrite !length_app, Hlen. reflexivity.
Qed.

(* ================================================================== *)
(** ** Keccak-256 on known inputs *)
(* ================================================================== *)

Lemma keccak256_empty :
  bytesToHex (keccak256 [])
  = "0xc5d2460186f7233c927e7db2dcc703c0e500b653ca82273b7bfad8045d85a470".
Proof. vm_compute. reflexivity. Qed.

Lemma keccak256_transfer :
  bytesToHex (firstn 4 (keccak256 (stringToBytes "transfer(address,uint256)"))) = "0xa9059cbb".
Proof. vm_compute. reflexivity. Qed.

(** The EIP-55 spelling of an address. *)
Lemma keccak256_checksum :
  checksumAddress "0x5aaeb6053f3e94c9b9a09f33669435e7ef1beaed"
  = "0x5aAeb6053F3E94C9b9A09f33669435E7Ef1BeAed".
Proof. vm_compute. reflexivity. Qed.

(* ================================================================== *)
(** ** Call data *)
(* ================================================================== *)

Lemma selector_execute : toFunctionSelector (formatAbiItem executeAbi) = "0xb61d27f6".
Proof. vm_compute. reflexivity. Qed.

Lemma selector_executeBatch :
  toFunctionSelector (formatAbiItem executeBatchAbi) = "0x47e1da2a".
Proof. vm_compute. reflexivity. Qed.

Lemma concatHex_bodies (l : list string) : concatHex l = "0x" +++ bodies l.
Proof.
  unfold concatHex. f_equal.
  assert (H : forall acc, fold_left (fun acc x => acc +++ replace_0x x) l acc = acc +++ bodies l).
  { induction l as [| x l IH]; intros acc; cbn [fold_left bodies].
    - now rewrite append_empty_r.
    - now rewrite IH, append_assoc. }
  exact (H EmptyString).
Qed.

Lemma replace_0x_prefix (x : string) : replace_0x ("0x" +++ x) = x.
Proof. reflexivity. Qed.

Lemma bodies_cons_0x (x : string) (l : list string) :
  bodies (("0x" +++ x) :: l) = x +++ bodies l.
Proof. reflexivity. Qed.

Lemma length_zeros' (n : nat) : String.length (zeros n) = n.
Proof. exact (proj1 (length_zeros n)). Qed.

Lemma ceilDiv_even (n : Z) : ceilDiv (2 * n) 2 = n.
Proof.
  unfold ceilDiv. replace (- (2 * n)) with ((- n) * 2) by lia.
  rewrite Z.div_mul by lia. lia.
Qed.

Lemma size_0x (x : string) :
  size_ ("0x" +++ x) = ceilDiv (Z.of_nat (String.length x)) 2.
Proof.
  unfold size_. change (startsWith0x ("0x" +++ x)) with true. cbv iota.
  cbn [String.append String.length]. f_equal. lia.
Qed.

Lemma size_word (x : string) : String.length x = 64%nat -> size_ ("0x" +++ x) = 32.
Proof. intros H. rewrite size_0x, H. reflexivity. Qed.

(* ---------- words ---------- *)

Lemma pow2_256_pos : 0 < 2 ^ 256.
Proof. apply Z.pow_pos_nonneg; lia. Qed.

Lemma word_length (z : Z) : 0 <= z < 2 ^ 256 -> String.length (word z) = 64%nat.
Proof.
  intros [H0 H1]. unfold word, padStart0.
  assert (Hlen : (String.length (toString16 z) <= 64)%nat).
  { apply (toString16_length z 63 H0). exact H1. }
  rewrite length_append. fold (zeros (64 - String.length (toString16 z))).
  rewrite length_zeros'. lia.
Qed.

Lemma word_allHex (z : Z) : 0 <= z -> allHex (word z) = true.
Proof.
  intros H0. unfold word, padStart0.
  destruct (length_zeros (64 - String.length (toString16 z))) as [_ Hz].
  rewrite allHex_app, Hz. apply hexDigitsOf_allHex; [exact H0 | reflexivity].
Qed.

(** A word reads back as the number it was made from. *)
Lemma word_round_trip (z : Z) : 0 <= z -> hexToBigInt ("0x" +++ word z) = Ok z.
Proof.
  intros H0. apply hexToBigInt_digits; [now apply word_allHex |].
  now apply allDigits_padded.
Qed.

Lemma numberToHex_word (z : Z) (isNumber : bool) :
  0 <= z < 2 ^ 256 -> numberToHex z isNumber (Some 32%nat) = Ok ("0x" +++ word z).
Proof.
  intros [H0 H1]. unfold numberToHex.
  change (2 ^ (Z.of_nat 32 * 8) - 1) with (2 ^ 256 - 1).
  pose proof pow2_256_pos as Hp.
  destruct (Z.eqb_spec (2 ^ 256 - 1) 0) as [E | _]; [lia |].
  destruct (Z.ltb_spec (2 ^ 256 - 1) z) as [L | _]; [lia |].
  destruct (Z.ltb_spec z 0) as [L | _]; [lia |].
  cbn [negb andb orb]. unfold pad.
  change (replace_0x ("0x" +++ toString16 z)) with (toString16 z).
  change (32 * 2)%nat with 64%nat.
  assert (Hlen : (String.length (toString16 z) <= 64)%nat).
  { apply (toString16_length z 63 H0). exact H1. }
  destruct (Nat.ltb_spec 64 (String.length (toString16 z))) as [L | _]; [lia |].
  reflexivity.
Qed.

Lemma numberToHex_range (z : Z) (isNumber : bool) :
  ~ (0 <= z < 2 ^ 256) -> numberToHex z isNumber (Some 32%nat) = Err IntegerOutOfRangeError.
Proof.
  intros Hr. unfold numberToHex.
  change (2 ^ (Z.of_nat 32 * 8) - 1) with (2 ^ 256 - 1).
  pose proof pow2_256_pos as Hp.
  destruct (Z.eqb_spec (2 ^ 256 - 1) 0) as [E | _]; [lia |].
  destruct (Z.ltb_spec (2 ^ 256 - 1) z) as [L | L];
    destruct (Z.ltb_spec z 0) as [L' | L']; cbn [negb andb orb]; try reflexivity.
  lia.
Qed.

Lemma numberToHex_inv (z : Z) (isNumber : bool) (r : string) :
  numberToHex z isNumber (Some 32%nat) = Ok r -> 0 <= z < 2 ^ 256 /\ r = "0x" +++ word z.
Proof.
  intros H.
  assert (Hr : 0 <= z < 2 ^ 256).
  { destruct (Z.le_gt_cases 0 z) as [L | L]; [destruct (Z.lt_ge_cases z (2 ^ 256)) as [U | U] |];
      [lia | |]; rewrite numberToHex_range in H by lia; discriminate. }
  split; [exact Hr |]. rewrite (numberToHex_word z isNumber Hr) in H. now inversion H.
Qed.

Lemma pad_word (x : string) :
  String.length x = 64%nat -> pad ("0x" +++ x) 32 = Ok ("0x" +++ x).
Proof.
  intros H. unfold pad. rewrite replace_0x_prefix. change (32 * 2)%nat with 64%nat.
  rewrite H. cbn [Nat.ltb Nat.leb]. unfold padStart0. rewrite H. reflexivity.
Qed.

(* ---------- addresses ---------- *)

Lemma toLowerCase_length (s : string) : String.length (toLowerCase s) = String.length s.
Proof. induction s as [| c s IH]; cbn [toLowerCase String.length]; congruence. Qed.

Lemma addressRegex_inv (s : string) :
  addressRegex s = true ->
  exists r, s = "0x" +++ r /\ String.length r = 40%nat /\ allHex r = true.
Proof.
  destruct s as [| c1 [| c2 r]]; try discriminate. cbn [addressRegex].
  intros H. apply andb_true_iff in H as [H Hh]. apply andb_true_iff in H as [H Hl].
  apply andb_true_iff in H as [H1 H2]. apply Ascii.eqb_eq in H1, H2. subst.
  apply Nat.eqb_eq in Hl. now exists r.
Qed.

Lemma isAddress_regex (s : string) : isAddress s = true -> addressRegex s = true.
Proof. unfold isAddress. destruct (addressRegex s); [reflexivity | discriminate]. Qed.

Lemma encodeAddress_cases (s : string) :
  encodeAddress s
  = if isAddress s then AbiOk {| dynamic := false; encoded := "0x" +++ addressWord s |}
    else AbiErr InvalidAddressError.
Proof.
  unfold encodeAddress. destruct (isAddress s) eqn:Hs; [| reflexivity].
  apply isAddress_regex, addressRegex_inv in Hs as (r & -> & Hl & _).
  change (toLowerCase ("0x" +++ r)) with ("0x" +++ toLowerCase r).
  unfold pad. rewrite replace_0x_prefix. change (32 * 2)%nat with 64%nat.
  rewrite toLowerCase_length, Hl. reflexivity.
Qed.

Lemma addressWord_length (s : string) :
  isAddress s = true -> String.length (addressWord s) = 64%nat.
Proof.
  intros Hs. apply isAddress_regex, addressRegex_inv in Hs as (r & -> & Hl & _).
  unfold addressWord, padStart0. change (str_drop 2 ("0x" +++ r)) with r.
  rewrite length_append, toLowerCase_length, Hl.
  fold (zeros (64 - 40)). now rewrite length_zeros'.
Qed.

Lemma encodeNumber_cases (z : Z) :
  encodeNumber z
  = if ((0 <=? z) && (z <? 2 ^ 256))%bool
    then AbiOk {| dynamic := false; encoded := "0x" +++ word z |}
    else AbiErr (HexError IntegerOutOfRangeError).
Proof.
  unfold encodeNumber.
  destruct (Z.leb_spec 0 z) as [L | L]; destruct (Z.ltb_spec z (2 ^ 256)) as [U | U];
    cbn [andb]; try (rewrite numberToHex_range by lia; reflexivity).
  rewrite numberToHex_word by lia. reflexivity.
Qed.

(* ---------- bytes ---------- *)

Lemma bytesOfDigits_zeros (k : nat) : bytesOfDigits (zeros (2 * k)) = Some (repeat 0 k).
Proof.
  induction k as [| k IH]; [reflexivity |].
  replace (2 * S k)%nat with (S (S (2 * k))) by lia.
  unfold zeros in *. cbn [repeat string_of_list_ascii bytesOfDigits].
  change (hexDigit "0") with (Some 0). rewrite IH. reflexivity.
Qed.

Lemma padTo32_spec (n : nat) : ((n + padTo32 n) mod 32 = 0)%nat /\ (padTo32 n < 32)%nat.
Proof.
  unfold padTo32. pose proof (Nat.mod_upper_bound n 32 ltac:(lia)) as Hm.
  pose proof (Nat.div_mod_eq n 32) as Hd.
  destruct (Nat.eq_dec (n mod 32) 0) as [E | E].
  - rewrite E. cbn [Nat.sub]. rewrite Nat.Div0.mod_same. rewrite Nat.add_0_r.
    split; [exact E | lia].
  - rewrite (Nat.mod_small (32 - n mod 32) 32) by lia. split; [| lia].
    replace (n + (32 - n mod 32))%nat with ((n / 32 + 1) * 32)%nat by lia.
    apply Nat.Div0.mod_mul.
Qed.

Lemma encodeBytes_hex (d : string) (bs : list Z) :
  bytesOfDigits d = Some bs ->
  Z.of_nat (List.length bs) < 2 ^ 256 ->
  encodeBytes ("0x" +++ d)
  = AbiOk {| dynamic := true;
             encoded := "0x" +++ word (Z.of_nat (List.length bs)) +++ d
                        +++ zeros (2 * padTo32 (List.length bs)) |}.
Proof.
  intros Hd Hb. pose proof (bytesOfDigits_length d bs Hd) as Hlen.
  set (n := List.length bs) in *. clearbody n.
  unfold encodeBytes. rewrite size_0x, Hlen.
  replace (Z.of_nat (2 * n)) with (2 * Z.of_nat n) by lia. rewrite ceilDiv_even.
  assert (Hval : (if negb (Z.of_nat n mod 32 =? 0)
                  then ofResult (padHexRight ("0x" +++ d)
                         (ceilDiv (Z.of_nat (String.length ("0x" +++ d)) - 2) 64 * 32))
                  else AbiOk ("0x" +++ d))
                 = AbiOk ("0x" +++ d +++ zeros (2 * padTo32 n))).
  { pose proof (Z.mod_pos_bound (Z.of_nat n) 32 ltac:(lia)) as Hm.
    pose proof (Z.div_mod (Z.of_nat n) 32 ltac:(lia)) as Hdm.
    assert (Hmn : Z.of_nat (n mod 32) = Z.of_nat n mod 32) by (rewrite Nat2Z.inj_mod; reflexivity).
    unfold padTo32.
    destruct (Z.eqb_spec (Z.of_nat n mod 32) 0) as [E | E]; cbn [negb].
    - replace (n mod 32)%nat with 0%nat by lia. cbn [Nat.sub].
      rewrite Nat.Div0.mod_same. cbn [Nat.mul zeros repeat string_of_list_ascii].
      now rewrite append_empty_r.
    - rewrite (Nat.mod_small (32 - n mod 32) 32) by lia.
      unfold padHexRight. rewrite replace_0x_prefix.
      cbn [String.append String.length]. rewrite Hlen.
      replace (Z.of_nat (S (S (2 * n))) - 2) with (2 * Z.of_nat n) by lia.
      assert (Hc : ceilDiv (2 * Z.of_nat n) 64 = Z.of_nat n / 32 + 1).
      { unfold ceilDiv.
        replace (- (2 * Z.of_nat n)) with (2 * (32 - Z.of_nat n mod 32) + (- (Z.of_nat n / 32) - 1) * 64) by lia.
        rewrite Z.div_add by lia. rewrite Z.div_small by lia. lia. }
      rewrite Hc.
      destruct (Z.ltb_spec ((Z.of_nat n / 32 + 1) * 32 * 2) (Z.of_nat (2 * n))) as [L | _];
        [exfalso; clear -Hm Hdm L; lia |].
      assert (Hz : (Z.to_nat ((Z.of_nat n / 32 + 1) * 32 * 2) - 2 * n
                    = 2 * (32 - n mod 32))%nat) by (clear -Hm Hdm Hmn; lia).
      rewrite Hz. reflexivity. }
  rewrite Hval. cbn [abind].
  rewrite (numberToHex_word _ true) by lia. cbn [ofResult abind].
  rewrite pad_word by (apply word_length; lia). cbn [ofResult abind].
  rewrite concatHex_bodies. cbn [bodies]. rewrite !replace_0x_prefix, append_empty_r.
  reflexivity.
Qed.

(** The function selector tells the two shapes apart: one call is encoded
    as a call of execute(address,uint256,bytes), an array of calls (even of
    one call, or of none) as a call of
    executeBatch(address[],uint256[],bytes[]). *)
Theorem encodeCallData_selector (args : CallArgs) (encoded_ : string) :
  encodeCallData args = AbiOk encoded_ ->
  str_take 10 encoded_
  = match args with
    | SingleCall _ => "0xb61d27f6"
    | CallArray _ => "0x47e1da2a"
    end.
Proof.
  unfold encodeCallData, encodeFunctionData. destruct args as [calls | c].
  - rewrite selector_executeBatch.
    destruct (encodeAbiParameters _ _) as [data |]; [| discriminate].
    cbn [abind]. intros H. inversion H. reflexivity.
  - rewrite selector_execute.
    destruct (encodeAbiParameters _ _) as [data |]; [| discriminate].
    cbn [abind]. intros H. inversion H. reflexivity.
Qed.

Lemma encodeParams_single (a v b : string) :
  String.length a = 64%nat -> String.length v = 64%nat ->
  encodeParams [{| dynamic := false; encoded := "0x" +++ a |};
                {| dynamic := false; encoded := "0x" +++ v |};
                {| dynamic := true; encoded := "0x" +++ b |}]
  = AbiOk ("0x" +++ a +++ v +++ word 96 +++ b).
Proof.
  intros Ha Hv. unfold encodeParams. cbn [fold_left dynamic encoded].
  rewrite (size_word a Ha), (size_word v Hv). cbn [splitParams dynamic encoded].
  change (0 + 32 + 32 + 32 + 0) with 96.
  rewrite (numberToHex_word 96 true) by (pose proof pow2_256_pos; split; [lia |];
    apply Z.lt_le_trans with (2 ^ 7); [reflexivity | apply Z.pow_le_mono_r; lia]).
  cbn [ofResult abind fst snd app]. rewrite concatHex_bodies. cbn [bodies].
  rewrite !replace_0x_prefix, append_empty_r. reflexivity.
Qed.

(** The call data of one call: the selector of execute, the address in
    lower case and the value as 32-byte words, the offset 0x60 of the
    dynamic part, and there the length of the data as a word followed by the
    data and by zero bytes up to a multiple of 32.  The words read back as
    the value, the offset and the length. *)
Theorem encodeCallData_single_call (c : Call) (d : string) (bs : list Z) :
  isAddress (call_to c) = true ->
  0 <= call_value c < 2 ^ 256 ->
  call_data c = "0x" +++ d -> bytesOfDigits d = Some bs ->
  Z.of_nat (List.length bs) < 2 ^ 256 ->
  let n := List.length bs in
  encodeCallData (SingleCall c)
  = AbiOk ("0xb61d27f6" +++ addressWord (call_to c) +++ word (call_value c)
           +++ word 96 +++ word (Z.of_nat n) +++ d +++ zeros (2 * padTo32 n))
  /\ hexToBigInt ("0x" +++ word (call_value c)) = Ok (call_value c)
  /\ hexToBigInt ("0x" +++ word 96) = Ok 96
  /\ hexToBigInt ("0x" +++ word (Z.of_nat n)) = Ok (Z.of_nat n)
  /\ bytesOfDigits (d +++ zeros (2 * padTo32 n)) = Some (bs ++ repeat 0 (padTo32 n))
  /\ ((n + padTo32 n) mod 32 = 0)%nat.
Proof.
  intros Ha Hv Hd Hbs Hn n. split; [| split; [| split; [| split; [| split]]]].
  - unfold encodeCallData, encodeFunctionData. rewrite selector_execute.
    unfold encodeAbiParameters.
    cbn [executeAbi abi_inputs List.length Nat.eqb negb prepareParams prepareParam prepareScalar].
    rewrite encodeAddress_cases, Ha, encodeNumber_cases, Hd, (encodeBytes_hex d bs Hbs Hn).
    destruct (Z.leb_spec 0 (call_value c)) as [_ | L]; [| lia].
    destruct (Z.ltb_spec (call_value c) (2 ^ 256)) as [_ | U]; [| lia].
    cbn [andb abind].
    rewrite encodeParams_single by (try apply addressWord_length; try apply word_length; auto).
    cbn [abind].
    match goal with
    | |- context [Nat.eqb (String.length ?s) 0] =>
        change (Nat.eqb (String.length s) 0) with false
    end.
    cbv iota. rewrite concatHex_bodies. cbn [bodies].
    rewrite !replace_0x_prefix, append_empty_r. reflexivity.
  - apply word_round_trip; lia.
  - apply word_round_trip; lia.
  - apply word_round_trip; lia.
  - apply bytesOfDigits_app; [exact Hbs | apply bytesOfDigits_zeros].
  - apply padTo32_spec.
Qed.

(** What [encodeCallData] refuses.  One call to something that is no
    address (not 0x and 40 hex digits, or letters in both cases that do not
    spell the checksum) throws InvalidAddressError; to an address, with a
    value that is no uint256, IntegerOutOfRangeError.  In an array, every
    address is checked before any value or data is looked at: one bad
    address throws InvalidAddressError whatever else the array holds. *)
Theorem encodeCallData_rejects :
  (forall c, isAddress (call_to c) = false ->
             encodeCallData (SingleCall c) = AbiErr InvalidAddressError)
  /\ (forall c, isAddress (call_to c) = true -> ~ (0 <= call_value c < 2 ^ 256) ->
                encodeCallData (SingleCall c) = AbiErr (HexError IntegerOutOfRangeError))
  /\ (forall calls c, In c calls -> isAddress (call_to c) = false ->
                      encodeCallData (CallArray calls) = AbiErr InvalidAddressError).
Proof.
  split; [| split].
  - intros c Ha. unfold encodeCallData, encodeFunctionData, encodeAbiParameters.
    cbn [executeAbi abi_inputs List.length Nat.eqb negb prepareParams prepareParam prepareScalar].
    rewrite encodeAddress_cases, Ha. reflexivity.
  - intros c Ha Hv. unfold encodeCallData, encodeFunctionData, encodeAbiParameters.
    cbn [executeAbi abi_inputs List.length Nat.eqb negb prepareParams prepareParam prepareScalar].
    rewrite encodeAddress_cases, Ha, encodeNumber_cases. cbn [abind].
    destruct (Z.leb_spec 0 (call_value c)) as [L | L];
      destruct (Z.ltb_spec (call_value c) (2 ^ 256)) as [U | U]; cbn [andb abind];
      try reflexivity. lia.
  - intros calls c Hin Ha. unfold encodeCallData, encodeFunctionData, encodeAbiParameters.
    cbn [executeBatchAbi abi_inputs List.length Nat.eqb negb prepareParams prepareParam].
    assert (He : prepareElements (map (fun a => VAddress (call_to a)) calls)
                 = AbiErr InvalidAddressError).
    { induction calls as [| x calls IH]; [contradiction |].
      cbn [map prepareElements prepareScalar]. rewrite encodeAddress_cases.
      destruct (isAddress (call_to x)) eqn:Hx; [| reflexivity].
      destruct Hin as [-> | Hin]; [congruence |]. cbn [abind]. now rewrite (IH Hin). }
    rewrite He. reflexivity.
Qed.

Lemma abind_ok {A B : Type} (r : abiResult A) (k : A -> abiResult B) (b : B) :
  abind r k = AbiOk b -> exists a, r = AbiOk a /\ k a = AbiOk b.
Proof. destruct r as [a | e]; [intros H; now exists a | discriminate]. Qed.

Lemma replace_0x_chars (x : string) : replace_0x (String "0" (String "x" x)) = x.
Proof. reflexivity. Qed.

Lemma AbiOk_inj {A : Type} (a b : A) : AbiOk a = AbiOk b -> b = a.
Proof. intros H. now inversion H. Qed.

Lemma ofResult_ok {A : Type} (r : result A) (a : A) : ofResult r = AbiOk a -> r = Ok a.
Proof. destruct r; [intros H; now inversion H | discriminate]. Qed.


Lemma concatWords_length (ws : list string) :
  Forall (fun w => String.length w = 64%nat) ws ->
  String.length (concatWords ws) = (64 * List.length ws)%nat.
Proof.
  induction 1 as [| w ws Hw Hws IH]; [reflexivity |].
  cbn [concatWords fold_right List.length]. fold (concatWords ws).
  rewrite length_append, Hw, IH. lia.
Qed.

Lemma splitParams_static (staticSize : Z) (ws : list string) : forall dynamicSize,
  splitParams staticSize (map staticParam ws) dynamicSize
  = AbiOk (map (fun w => "0x" +++ w) ws, []).
Proof.
  induction ws as [| w ws IH]; intros ds; [reflexivity |].
  cbn [map splitParams staticParam dynamic encoded]. rewrite IH. reflexivity.
Qed.

Lemma bodies_words (ws : list string) :
  bodies (map (fun w => "0x" +++ w) ws) = concatWords ws.
Proof.
  induction ws as [| w ws IH]; [reflexivity |].
  cbn [map bodies]. rewrite replace_0x_prefix, IH. reflexivity.
Qed.

Lemma encodeParams_static (ws : list string) :
  encodeParams (map staticParam ws) = AbiOk ("0x" +++ concatWords ws).
Proof.
  unfold encodeParams. rewrite splitParams_static. cbn [abind fst snd].
  rewrite app_nil_r, concatHex_bodies, bodies_words. reflexivity.
Qed.

(** An array of static elements that was encoded is its length as a word
    followed by its elements. *)
Lemma encodeArray_static (ws : list string) (p : PreparedParam) :
  encodeArray (map staticParam ws) = AbiOk p ->
  0 <= Z.of_nat (List.length ws) < 2 ^ 256
  /\ p = {| dynamic := true;
            encoded := "0x" +++ word (Z.of_nat (List.length ws)) +++ concatWords ws |}.
Proof.
  unfold encodeArray. rewrite encodeParams_static. cbn [abind]. rewrite length_map.
  intros H. apply abind_ok in H as (len & Hl & H).
  apply ofResult_ok, numberToHex_inv in Hl as [Hr ->]. split; [exact Hr |].
  inversion H. f_equal. destruct ws as [| w ws].
  - cbn [map concatWords fold_right]. now rewrite append_empty_r.
  - cbn [map]. rewrite concatHex_bodies. cbn [bodies].
    rewrite !replace_0x_chars, append_empty_r. reflexivity.
Qed.

(** An array of any elements that was encoded starts with its length as a
    word. *)
Lemma encodeArray_length (ps : list PreparedParam) (p : PreparedParam) :
  encodeArray ps = AbiOk p ->
  exists rest,
    p = {| dynamic := true;
           encoded := "0x" +++ word (Z.of_nat (List.length ps)) +++ rest |}.
Proof.
  unfold encodeArray. intros H. apply abind_ok in H as (data & _ & H).
  apply abind_ok in H as (len & Hl & H). apply ofResult_ok, numberToHex_inv in Hl as [_ ->].
  inversion H. destruct ps as [| x ps].
  - exists EmptyString. now rewrite append_empty_r.
  - exists (replace_0x data). rewrite concatHex_bodies. cbn [bodies].
    rewrite replace_0x_chars, append_empty_r. reflexivity.
Qed.

Lemma prepareElements_length (vs : list AbiScalar) : forall ps,
  prepareElements vs = AbiOk ps -> List.length ps = List.length vs.
Proof.
  induction vs as [| v vs IH]; intros ps H; cbn [prepareElements] in H.
  - now inversion H.
  - apply abind_ok in H as (p & _ & H). apply abind_ok in H as (ps' & Hps & H).
    inversion H. cbn [List.length]. now rewrite (IH ps' Hps).
Qed.

Lemma prepareElements_addresses (calls : list Call) : forall ps,
  prepareElements (map (fun a => VAddress (call_to a)) calls) = AbiOk ps ->
  Forall (fun c => isAddress (call_to c) = true) calls
  /\ ps = map staticParam (map (fun c => addressWord (call_to c)) calls).
Proof.
  induction calls as [| c calls IH]; intros ps H; cbn [map prepareElements prepareScalar] in H.
  - inversion H. split; [constructor | reflexivity].
  - rewrite encodeAddress_cases in H. destruct (isAddress (call_to c)) eqn:Hc; [| discriminate].
    cbn [abind] in H. apply abind_ok in H as (ps' & Hps & H). inversion H.
    destruct (IH ps' Hps) as [Hall ->]. split; [now constructor | reflexivity].
Qed.

Lemma prepareElements_values (calls : list Call) : forall ps,
  prepareElements (map (fun a => VUint256 (call_value a)) calls) = AbiOk ps ->
  Forall (fun c => 0 <= call_value c < 2 ^ 256) calls
  /\ ps = map staticParam (map (fun c => word (call_value c)) calls).
Proof.
  induction calls as [| c calls IH]; intros ps H; cbn [map prepareElements prepareScalar] in H.
  - inversion H. split; [constructor | reflexivity].
  - rewrite encodeNumber_cases in H.
    destruct (Z.leb_spec 0 (call_value c)) as [L | L];
      destruct (Z.ltb_spec (call_value c) (2 ^ 256)) as [U | U]; cbn [andb] in H;
      try discriminate.
    cbn [abind] in H. apply abind_ok in H as (ps' & Hps & H). inversion H.
    destruct (IH ps' Hps) as [Hall ->]. split; [constructor; [lia | exact Hall] | reflexivity].
Qed.

(** The call data of an array of calls, whenever it is produced: every
    address is an address and every value a uint256; after the selector of
    executeBatch come the offsets of the three arrays, then the array of the
    addresses, the array of the values and the array of the data, each led
    by the number of calls, with the addresses and the values in the order
    of the calls. *)
Theorem encodeCallData_call_array (calls : list Call) (encoded_ : string) :
  encodeCallData (CallArray calls) = AbiOk encoded_ ->
  let k := Z.of_nat (List.length calls) in
  Forall (fun c => isAddress (call_to c) = true /\ 0 <= call_value c < 2 ^ 256) calls
  /\ exists funcs,
       encoded_
       = "0x47e1da2a" +++ word 96 +++ word (128 + 32 * k) +++ word (160 + 64 * k)
         +++ (word k +++ concatWords (map (fun c => addressWord (call_to c)) calls))
         +++ (word k +++ concatWords (map (fun c => word (call_value c)) calls))
         +++ (word k +++ funcs).
Proof.
  intros H k. unfold encodeCallData, encodeFunctionData in H.
  rewrite selector_executeBatch in H. apply abind_ok in H as (data & Hdata & H); cbv beta in H.
  assert (He : encoded_ = concatHex ["0x47e1da2a"; data]) by (apply AbiOk_inj; assumption). clear H.
  unfold encodeAbiParameters in Hdata.
  cbn [executeBatchAbi abi_inputs List.length Nat.eqb negb prepareParams prepareParam] in Hdata.
  apply abind_ok in Hdata as (pps & Hpps & Hdata); cbv beta in Hdata.
  apply abind_ok in Hpps as (p1 & Hp1 & Hpps); cbv beta in Hpps.
  apply abind_ok in Hpps as (pps1 & Hpps1 & Hpps); cbv beta in Hpps.
  assert (E1 : pps = p1 :: pps1) by (apply AbiOk_inj; assumption). clear Hpps.
  apply abind_ok in Hpps1 as (p2 & Hp2 & Hpps); cbv beta in Hpps.
  apply abind_ok in Hpps as (pps2 & Hpps2 & Hpps); cbv beta in Hpps.
  assert (E2 : pps1 = p2 :: pps2) by (apply AbiOk_inj; assumption). clear Hpps.
  apply abind_ok in Hpps2 as (p3 & Hp3 & Hpps); cbv beta in Hpps.
  assert (E3 : pps2 = [p3]) by (cbn [abind] in Hpps; apply AbiOk_inj; assumption). clear Hpps.
  subst pps pps1 pps2.
  apply abind_ok in Hp1 as (ps1 & Hps1 & Hp1); cbv beta in Hp1.
  apply abind_ok in Hp2 as (ps2 & Hps2 & Hp2); cbv beta in Hp2.
  apply abind_ok in Hp3 as (ps3 & Hps3 & Hp3); cbv beta in Hp3.
  apply prepareElements_addresses in Hps1 as [Haddr ->].
  apply prepareElements_values in Hps2 as [Hval ->].
  apply prepareElements_length in Hps3. rewrite length_map in Hps3.
  apply encodeArray_static in Hp1 as [Hk Hp1]. apply encodeArray_static in Hp2 as [_ Hp2].
  apply encodeArray_length in Hp3 as (funcs & Hp3).
  rewrite !length_map in Hp1, Hp2, Hk. rewrite Hps3 in Hp3. fold k in Hp1, Hp2, Hp3, Hk.
  split.
  { rewrite Forall_forall in Haddr, Hval |- *. intros c Hc.
    split; [now apply Haddr | now apply Hval]. }
  exists funcs.
  set (A := concatWords (map (fun c => addressWord (call_to c)) calls)) in *.
  set (V := concatWords (map (fun c => word (call_value c)) calls)) in *.
  assert (HA : String.length A = (64 * List.length calls)%nat).
  { subst A. rewrite concatWords_length, length_map; [reflexivity |].
    rewrite Forall_forall in Haddr |- *. intros x Hx.
    apply in_map_iff in Hx as (c & <- & Hc). now apply addressWord_length, Haddr. }
  assert (HV : String.length V = (64 * List.length calls)%nat).
  { subst V. rewrite concatWords_length, length_map; [reflexivity |].
    rewrite Forall_forall in Hval |- *. intros x Hx.
    apply in_map_iff in Hx as (c & <- & Hc). now apply word_length, Hval. }
  assert (Hsize : forall X, String.length X = (64 * List.length calls)%nat ->
                  size_ ("0x" +++ word k +++ X) = 32 + 32 * k).
  { intros X HX. rewrite size_0x, length_append, (word_length k Hk), HX.
    replace (Z.of_nat (64 + 64 * List.length calls)) with (2 * (32 + 32 * k)) by (subst k; lia).
    apply ceilDiv_even. }
  apply abind_ok in Hdata as (body & Hbody & Hdata); cbv beta in Hdata.
  subst p1 p2 p3.
  unfold encodeParams in Hbody. cbn [fold_left dynamic encoded splitParams] in Hbody.
  rewrite (Hsize A HA), (Hsize V HV) in Hbody.
  apply abind_ok in Hbody as (parts & Hparts & Hbody); cbv beta in Hbody.
  apply abind_ok in Hparts as (o1 & Ho1 & Hparts); cbv beta in Hparts.
  apply abind_ok in Hparts as (parts2 & Hparts2 & Hparts); cbv beta in Hparts.
  apply abind_ok in Hparts2 as (o2 & Ho2 & Hparts2); cbv beta in Hparts2.
  apply abind_ok in Hparts2 as (parts3 & Hparts3 & Hparts2); cbv beta in Hparts2.
  apply abind_ok in Hparts3 as (o3 & Ho3 & Hparts3); cbv beta in Hparts3.
  apply ofResult_ok, numberToHex_inv in Ho1 as [_ ->].
  apply ofResult_ok, numberToHex_inv in Ho2 as [_ ->].
  apply ofResult_ok, numberToHex_inv in Ho3 as [_ ->].
  assert (P3 : parts3
               = (["0x" +++ word (0 + 32 + 32 + 32 + (0 + (32 + 32 * k) + (32 + 32 * k)))],
                  ["0x" +++ word k +++ funcs]))
    by (cbn [abind splitParams fst snd] in Hparts3; apply AbiOk_inj; assumption).
  subst parts3. cbn [fst snd] in Hparts2.
  assert (P2 : parts2
               = (["0x" +++ word (0 + 32 + 32 + 32 + (0 + (32 + 32 * k)));
                   "0x" +++ word (0 + 32 + 32 + 32 + (0 + (32 + 32 * k) + (32 + 32 * k)))],
                  ["0x" +++ word k +++ V; "0x" +++ word k +++ funcs]))
    by (apply AbiOk_inj; assumption).
  subst parts2. cbn [fst snd] in Hparts.
  assert (P1 : parts = (["0x" +++ word (0 + 32 + 32 + 32 + 0);
                         "0x" +++ word (0 + 32 + 32 + 32 + (0 + (32 + 32 * k)));
                         "0x" +++ word (0 + 32 + 32 + 32 + (0 + (32 + 32 * k) + (32 + 32 * k)))],
                        ["0x" +++ word k +++ A; "0x" +++ word k +++ V;
                         "0x" +++ word k +++ funcs]))
    by (apply AbiOk_inj; assumption).
  subst parts. cbn [fst snd app] in Hbody.
  assert (Hb : body = concatHex
                        ["0x" +++ word (0 + 32 + 32 + 32 + 0);
                         "0x" +++ word (0 + 32 + 32 + 32 + (0 + (32 + 32 * k)));
                         "0x" +++ word (0 + 32 + 32 + 32 + (0 + (32 + 32 * k) + (32 + 32 * k)));
                         "0x" +++ word k +++ A; "0x" +++ word k +++ V;
                         "0x" +++ word k +++ funcs]) by (apply AbiOk_inj; assumption).
  clear Hbody. rewrite concatHex_bodies in Hb. cbn [bodies] in Hb.
  rewrite !replace_0x_prefix, append_empty_r in Hb.
  replace (0 + 32 + 32 + 32 + 0) with 96 in Hb by lia.
  replace (0 + 32 + 32 + 32 + (0 + (32 + 32 * k))) with (128 + 32 * k) in Hb by lia.
  replace (0 + 32 + 32 + 32 + (0 + (32 + 32 * k) + (32 + 32 * k))) with (160 + 64 * k) in Hb by lia.
  subst body.
  assert (Hd : data = "0x" +++ word 96 +++ word (128 + 32 * k) +++ word (160 + 64 * k)
                      +++ (word k +++ A) +++ (word k +++ V) +++ (word k +++ funcs)).
  { revert Hdata.
    match goal with
    | |- context [Nat.eqb (String.length ?s) 0] =>
        change (Nat.eqb (String.length s) 0) with false
    end.
    cbv iota. intros Hdata. now apply AbiOk_inj. }
  rewrite He, Hd, concatHex_bodies. cbn [bodies].
  rewrite replace_0x_prefix, append_empty_r. reflexivity.
Qed.

(* ================================================================== *)
(** ** The properties on the concrete run *)
(* ================================================================== *)

Import Fixture.


Lemma buildMultiSigUserOp_order_independent_witness :
  Permutation [entryA; entryB] [entryB; entryA]
  /\ sig_signer entryA = "0xAAAAAAAAAAAAAAAAAAAAAAAAAAAAAAAAAAAAAAAA"
  /\ sig_signer entryB = "0x1111111111111111111111111111111111111111"
  /\ buildMultiSigUserOp base [entryA; entryB] = buildMultiSigUserOp base [entryB; entryA]
  /\ sortSignatures [entryA; entryB] = Ok [entryB; entryA]
  /\ sortSignatures [entryB; entryA] = Ok [entryB; entryA].
Proof.
  assert (Hp : Permutation [entryA; entryB] [entryB; entryA]) by apply perm_swap.
  assert (Hk : Forall (fun e => is_ok (hexToBigInt (sig_signer e)) = true) [entryA; entryB])
    by (repeat constructor).
  assert (Hnd : NoDup (map signerKey [entryA; entryB])).
  { vm_compute. constructor; [intros [H | []]; discriminate |].
    constructor; [intros [] | constructor]. }
  destruct (buildMultiSigUserOp_order_independent base _ _ Hp Hk Hnd) as [Heq Hfirst].
  assert (Hlt : signerKey entryB < signerKey entryA) by (vm_compute; reflexivity).
  destruct (Hfirst entryA entryB eq_refl Hlt) as (H1 & H2 & _).
  repeat split; assumption.
Defined.

Lemma buildMultiSigUserOp_short_signature_witness :
  In entryShort [entryB; entryShort]
  /\ (String.length (sig_signature entryShort) <= 130)%nat
  /\ exists err, buildMultiSigUserOp base [entryB; entryShort] = Err err.
Proof.
  assert (Hin : In entryShort [entryB; entryShort]) by (right; left; reflexivity).
  assert (Hlen : (String.length (sig_signature entryShort) <= 130)%nat)
    by (vm_compute; repeat constructor).
  split; [exact Hin |]. split; [exact Hlen |].
  exact (proj2 (buildMultiSigUserOp_short_signature base _ _ Hin Hlen)).
Defined.

(** C8, as stated, fails: a raw signature of 66 bytes is not rejected; its
    first 65 bytes are packed and the rest is dropped. *)
Lemma buildMultiSigUserOp_long_signature_accepted :
  option_map (@List.length Z) (hexBytes (sig_signature entryLong)) = Some 66%nat
  /\ buildMultiSigUserOp base [entryLong]
     = Ok (with_signature base (sig_signature entryA)).
Proof. split; vm_compute; reflexivity. Qed.

Lemma estimateUserOp_placeholder_witness :
  outcome (estimateUserOp plain url base 2 mult_1_2)
  = Ok (estimateAnswer base 120 1200 gas)
  /\ exists request gasLimits bs,
       trace (estimateUserOp plain url base 2 mult_1_2)
       = [EvEstimateFeesPerGas; EvEstimateUserOperationGas request]
       /\ hexBytes (signature request) = Some bs
       /\ List.length bs = 130%nat
       /\ estimateUserOperationGas plain request = Ok gasLimits
       /\ signature (estimateAnswer base 120 1200 gas) = "0x".
Proof.
  assert (H : outcome (estimateUserOp plain url base 2 mult_1_2)
              = Ok (estimateAnswer base 120 1200 gas)) by (vm_compute; reflexivity).
  split; [exact H |].
  destruct (estimateUserOp_placeholder plain url base 2 mult_1_2 _ H)
    as (request & g & bs & Htr & _ & Hbs & Hlen & Hg & Hsig & _).
  exists request, g, bs. repeat split; assumption.
Defined.

(** C6, as stated, fails: the fee oracle is queried before the multiplier is
    looked at, and when that query is rejected the run ends with the
    rejection, not with InvalidConfig. *)
Lemma estimateUserOp_multiplier_checked_after_fee_query :
  num_lt mult_0_5 (number_of_Z 1) = true
  /\ estimateUserOp plain url base 2 mult_0_5 = ([EvEstimateFeesPerGas], Err InvalidConfig)
  /\ estimateUserOp oracleDown url base 2 mult_0_5
     = ([EvEstimateFeesPerGas], Err (Rejected "fee oracle unreachable")).
Proof. repeat split; vm_compute; reflexivity. Qed.

Lemma estimateUserOp_multiplier_below_one_witness :
  num_lt mult_0_5 (number_of_Z 1) = true
  /\ estimateUserOp withMinimum url base 2 mult_0_5 = ([EvEstimateFeesPerGas], Err InvalidConfig).
Proof.
  assert (H : num_lt mult_0_5 (number_of_Z 1) = true) by reflexivity.
  split; [exact H |].
  exact (estimateUserOp_multiplier_below_one withMinimum url base 2 mult_0_5
           {| fees_maxFeePerGas := Some 1000; fees_maxPriorityFeePerGas := Some 100 |}
           H eq_refl eq_refl eq_refl).
Defined.

(** C9, as stated, fails: when the provider's answer has no [result], the
    run goes on with zero as the floor and returns the scaled priority fee. *)
Lemma estimateUserOp_missing_result_uses_zero :
  isAlchemyBundler noResult url = true
  /\ fetchMinPriorityFee noResult url = Ok {| response_result := None |}
  /\ estimateUserOp noResult url base 1 mult_1_2
     = ([EvEstimateFeesPerGas; EvFetchMinPriorityFee url;
         EvEstimateUserOperationGas (estimateRequest base 1 (Z.max 120 0) 1200)],
        Ok (estimateAnswer base 120 1200 gas)).
Proof. repeat split. Qed.

Lemma estimateUserOp_priority_floor_witness :
  isAlchemyBundler withMinimum url = true
  /\ estimateUserOp withMinimum url base 1 mult_1_2
     = ([EvEstimateFeesPerGas; EvFetchMinPriorityFee url;
         EvEstimateUserOperationGas (estimateRequest base 1 (Z.max 120 500) 1200)],
        Ok (estimateAnswer base (Z.max 120 500) 1200 gas)).
Proof.
  split; [reflexivity |].
  exact (estimateUserOp_priority_floor withMinimum url base 1 mult_1_2
           {| fees_maxFeePerGas := Some 1000; fees_maxPriorityFeePerGas := Some 100 |} 120
           eq_refl eq_refl eq_refl eq_refl eq_refl eq_refl).
Defined.




Lemma buildAndSignMultisigUserOp_no_signers_witness :
  getAccountNonce plain wallet = Ok 5 /\ 5 <> 0
  /\ buildAndSignMultisigUserOp plain url wallet [] mult_1_2 data
     = ([EvGetAccountNonce wallet], Ok base).
Proof.
  split; [reflexivity |]. split; [discriminate |].
  exact (proj1 (buildAndSignMultisigUserOp_no_signers plain url wallet mult_1_2 data 5
                  eq_refl ltac:(discriminate))).
Defined.


Lemma buildAndSignMultisigUserOp_undeployed_witness :
  getAccountNonce undeployed wallet = Ok 0
  /\ buildAndSignMultisigUserOp undeployed url wallet [signerA; signerB] mult_1_2 data
     = ([EvGetAccountNonce wallet], Err UndeployedAccount).
Proof.
  split; [reflexivity |].
  exact (buildAndSignMultisigUserOp_undeployed undeployed url wallet [signerA; signerB]
           mult_1_2 data eq_refl).
Defined.

Lemma estimateUserOp_fee_missing_witness :
  estimateFeesPerGas zeroFee
  = Ok {| fees_maxFeePerGas := Some 0; fees_maxPriorityFeePerGas := Some 100 |}
  /\ estimateUserOp zeroFee url base 2 mult_1_2 = ([EvEstimateFeesPerGas], Err FeeFetchError).
Proof.
  split; [reflexivity |].
  exact (estimateUserOp_fee_missing zeroFee url base 2 mult_1_2
           {| fees_maxFeePerGas := Some 0; fees_maxPriorityFeePerGas := Some 100 |}
           eq_refl eq_refl).
Defined.


Lemma packUserOp_base_returns : exists p, packUserOp base = Ok p.
Proof. eexists. vm_compute. reflexivity. Defined.

Lemma packUserOp_field_widths_witness :
  exists p limits fees,
    packUserOp base = Ok p
    /\ hexBytes (packed_accountGasLimits p) = Some limits /\ List.length limits = 32%nat
    /\ hexBytes (packed_gasFees p) = Some fees /\ List.length fees = 32%nat.
Proof.
  destruct packUserOp_base_returns as [p Hp].
  destruct (packUserOp_field_widths base p Hp) as (limits & fees & H1 & H2 & H3 & H4 & _).
  exists p, limits, fees. repeat split; assumption.
Defined.

Lemma takeBytes_bytes_witness :
  hexBytes "0x0102030405" = Some [1; 2; 3; 4; 5]
  /\ hexBytes (takeBytes "0x0102030405" (Some 1%nat) (Some 2%nat)) = Some [2; 3]
  /\ hexBytes (takeBytes "0x0102030405" (Some 3%nat) (Some 0%nat)) = Some [4; 5].
Proof.
  assert (H : hexBytes "0x0102030405" = Some [1; 2; 3; 4; 5]) by reflexivity.
  split; [exact H |]. split.
  - exact (takeBytes_bytes _ _ (Some 1%nat) (Some 2%nat) H).
  - exact (takeBytes_bytes _ _ (Some 3%nat) (Some 0%nat) H).
Defined.

Lemma estimateUserOp_multiplier_not_finite_witness :
  estimateUserOp plain url base 2 NaN = ([EvEstimateFeesPerGas], Err RangeError).
Proof.
  exact (estimateUserOp_multiplier_not_finite plain url base 2 NaN
           {| fees_maxFeePerGas := Some 1000; fees_maxPriorityFeePerGas := Some 100 |} [] 0
           (or_introl eq_refl) eq_refl eq_refl eq_refl eq_refl).
Defined.

Lemma estimateUserOp_reads_identity_only_witness :
  estimateUserOp plain url base 2 mult_1_2
  = estimateUserOp plain url (estimateAnswer base 7 9 gas) 2 mult_1_2.
Proof.
  exact (proj1 (estimateUserOp_reads_identity_only plain url base (estimateAnswer base 7 9 gas)
                  2 mult_1_2 eq_refl eq_refl eq_refl eq_refl eq_refl)).
Defined.

Lemma estimateUserOp_other_bundler_witness :
  isAlchemyBundler plain url = false
  /\ ~ In (EvFetchMinPriorityFee url) (trace (estimateUserOp plain url base 2 mult_1_2)).
Proof.
  split; [reflexivity |].
  exact (proj1 (estimateUserOp_other_bundler plain url base 2 mult_1_2 eq_refl) url).
Defined.

Lemma estimate_highMinimum_returns :
  outcome (estimateUserOp highMinimum url base 1 mult_1_2)
  = Ok (estimateAnswer base 8000 1200 gas).
Proof. vm_compute. reflexivity. Defined.

Lemma estimateUserOp_priority_not_capped_witness :
  outcome (estimateUserOp highMinimum url base 1 mult_1_2)
  = Ok (estimateAnswer base 8000 1200 gas)
  /\ maxFeePerGas (estimateAnswer base 8000 1200 gas)
     < maxPriorityFeePerGas (estimateAnswer base 8000 1200 gas).
Proof.
  split; [exact estimate_highMinimum_returns |].
  refine (proj1 (proj2 (estimateUserOp_priority_not_capped highMinimum url base 1 mult_1_2
                          (estimateAnswer base 8000 1200 gas)
                          {| fees_maxFeePerGas := Some 1000; fees_maxPriorityFeePerGas := Some 100 |}
                          8000 120 estimate_highMinimum_returns eq_refl eq_refl _)) _).
  - vm_compute. reflexivity.
  - vm_compute. reflexivity.
Defined.

Lemma estimate_mult_1_returns :
  outcome (estimateUserOp withMinimum url base 1 (number_of_Z 1))
  = Ok (estimateAnswer base 500 1000 gas).
Proof. vm_compute. reflexivity. Defined.

Lemma estimateUserOp_multiplier_one_witness :
  outcome (estimateUserOp withMinimum url base 1 (number_of_Z 1))
  = Ok (estimateAnswer base 500 1000 gas)
  /\ fees_maxFeePerGas {| fees_maxFeePerGas := Some 1000; fees_maxPriorityFeePerGas := Some 100 |}
     = Some (maxFeePerGas (estimateAnswer base 500 1000 gas)).
Proof.
  split; [exact estimate_mult_1_returns |].
  exact (proj1 (estimateUserOp_multiplier_one withMinimum url base 1
                  (estimateAnswer base 500 1000 gas)
                  {| fees_maxFeePerGas := Some 1000; fees_maxPriorityFeePerGas := Some 100 |}
                  500 estimate_mult_1_returns eq_refl eq_refl)).
Defined.

Lemma buildMultiSigUserOp_equal_signers_keep_order_witness :
  sortSignatures [entryA; entryB; entryA'] = Ok [entryB; entryA; entryA']
  /\ sortSignatures [entryA'; entryB; entryA] = Ok [entryB; entryA'; entryA]
  /\ filter (fun e => signerKey e =? signerKey entryA) [entryB; entryA'; entryA]
     = filter (fun e => signerKey e =? signerKey entryA) [entryA'; entryB; entryA].
Proof.
  assert (H1 : sortSignatures [entryA; entryB; entryA'] = Ok [entryB; entryA; entryA'])
    by (vm_compute; reflexivity).
  assert (H2 : sortSignatures [entryA'; entryB; entryA] = Ok [entryB; entryA'; entryA])
    by (vm_compute; reflexivity).
  split; [exact H1 |]. split; [exact H2 |].
  exact (proj1 (buildMultiSigUserOp_equal_signers_keep_order _ _ H2) (signerKey entryA)).
Defined.

Lemma buildMultiSigUserOp_signer_read_only_to_sort_witness :
  is_ok (hexToBigInt (sig_signer entryRaw)) = false
  /\ is_ok (buildMultiSigUserOp base [entryRaw]) = true
  /\ buildMultiSigUserOp base [entryA; entryRaw] = Err SyntaxError.
Proof.
  assert (H : is_ok (hexToBigInt (sig_signer entryRaw)) = false) by reflexivity.
  split; [exact H |]. split.
  - rewrite (proj1 (buildMultiSigUserOp_signer_read_only_to_sort base) entryRaw).
    vm_compute. reflexivity.
  - apply (proj2 (buildMultiSigUserOp_signer_read_only_to_sort base) _ entryRaw).
    + cbn [List.length]. lia.
    + right. left. reflexivity.
    + exact H.
Defined.

Lemma buildMultiSigUserOp_recovery_byte_overflow_witness :
  rawV entryOverflow = 224
  /\ buildMultiSigUserOp base [entryA; entryOverflow] = Err IntegerOutOfRangeError.
Proof.
  split; [reflexivity |].
  refine (proj2 (proj2 (buildMultiSigUserOp_recovery_byte_overflow base [entryA; entryOverflow]
                          entryOverflow _ _ _))).
  - repeat constructor; eexists; split; try (vm_compute; reflexivity); reflexivity.
  - right. left. reflexivity.
  - vm_compute. reflexivity.
Defined.

Lemma buildMultiSigUserOp_copies_rs_verbatim_witness :
  exists v,
    bytesOfDigits v = Some [16 * 1 + 11 + 32]
    /\ buildMultiSigUserOp base [entryRaw]
       = Ok (with_signature base ("0x" +++ str_repeat "Zz" 64 +++ v)).
Proof.
  apply (buildMultiSigUserOp_copies_rs_verbatim base entryRaw (str_repeat "Zz" 64) "ff"
           "1" "b" 1 11).
  - vm_compute. reflexivity.
  - vm_compute. reflexivity.
  - reflexivity.
  - reflexivity.
  - vm_compute. discriminate.
Defined.

Lemma packUserOp_estimated_returns :
  exists p, packUserOp (estimateAnswer base 120 1200 gas) = Ok p.
Proof. eexists. vm_compute. reflexivity. Defined.

Lemma packUserOp_gas_round_trip_witness :
  exists p vgl cgl prio fee,
    packUserOp (estimateAnswer base 120 1200 gas) = Ok p
    /\ packed_accountGasLimits p = "0x" +++ vgl +++ cgl
    /\ packed_gasFees p = "0x" +++ prio +++ fee
    /\ hexToBigInt ("0x" +++ vgl) = Ok 200000
    /\ hexToBigInt ("0x" +++ cgl) = Ok 100000
    /\ hexToBigInt ("0x" +++ prio) = Ok 120
    /\ hexToBigInt ("0x" +++ fee) = Ok 1200.
Proof.
  destruct packUserOp_estimated_returns as [p Hp].
  destruct (packUserOp_gas_round_trip _ p Hp)
    as (vgl & cgl & prio & fee & H1 & H2 & _ & H3 & H4 & H5 & H6).
  exists p, vgl, cgl, prio, fee. repeat split; assumption.
Defined.

Lemma packUserOp_defined_iff_witness :
  packUserOp (estimateAnswer base 120 (2 ^ 128) gas) = Err SizeExceedsPaddingSizeError
  /\ getUserOpHash plain (estimateAnswer base 120 (2 ^ 128) gas)
     = ([], Err SizeExceedsPaddingSizeError)
  /\ packUserOp (estimateAnswer base (-1) 1200 gas) = Err IntegerOutOfRangeError
  /\ exists p, packUserOp (estimateAnswer base 120 (2 ^ 128 - 1) gas) = Ok p.
Proof.
  assert (H1 : packUserOp (estimateAnswer base 120 (2 ^ 128) gas)
               = Err SizeExceedsPaddingSizeError) by (vm_compute; reflexivity).
  assert (H2 : packUserOp (estimateAnswer base (-1) 1200 gas) = Err IntegerOutOfRangeError)
    by (vm_compute; reflexivity).
  split; [exact H1 |].
  split; [exact (proj2 (proj2 (packUserOp_defined_iff _) _ H1) plain) |].
  split; [exact H2 |].
  apply (proj1 (packUserOp_defined_iff (estimateAnswer base 120 (2 ^ 128 - 1) gas))).
  unfold inRange128. cbn [estimateAnswer verificationGasLimit callGasLimit
                            maxPriorityFeePerGas maxFeePerGas gas est_callGasLimit
                            est_verificationGasLimit].
  assert (0 < 2 ^ 128) by (apply Z.pow_pos_nonneg; lia).
  assert (2 ^ 18 <= 2 ^ 128) by (apply Z.pow_le_mono_r; lia).
  change (2 ^ 18) with 262144 in *. lia.
Defined.

Lemma packUserOp_deploying_returns : exists p, packUserOp deploying = Ok p.
Proof. eexists. vm_compute. reflexivity. Defined.

Lemma packUserOp_initCode_witness :
  exists p,
    packUserOp deploying = Ok p
    /\ hexBytes (packed_initCode p)
       = Some ([0; 0; 0; 0; 0; 0; 0; 0; 0; 0; 0; 0; 0; 0; 0; 0; 0; 0; 0; 250]
               ++ [222; 173; 190; 239]).
Proof.
  destruct packUserOp_deploying_returns as [p Hp]. exists p. split; [exact Hp |].
  apply (proj1 (packUserOp_initCode deploying p Hp)
           "0x00000000000000000000000000000000000000fa" "0xdeadbeef");
    reflexivity.
Defined.

Lemma run_AB_trace :
  trace (buildAndSignMultisigUserOp plain url wallet [signerA; signerB] mult_1_2 data)
  = [EvGetAccountNonce wallet;
     EvGetUserOpHash packedBase;
     EvSignMessage (privateKey signerA) hash_base;
     EvEstimateFeesPerGas;
     EvEstimateUserOperationGas (estimateRequest base 2 120 1200);
     EvGetUserOpHash
       {| packed_sender := wallet; packed_nonce := 5; packed_callData := data;
          packed_accountGasLimits :=
            "0x0000000000000000000000000003" +++ "0d40" +++ "0000000000000000000000000001" +++ "86a0";
          packed_initCode := "0x"; packed_preVerificationGas := 50000;
          packed_gasFees :=
            "0x0000000000000000000000000000" +++ "0078" +++ "0000000000000000000000000000" +++ "04b0";
          packed_paymasterAndData := "0x"; packed_signature := "0x" |};
     EvSignMessage (privateKey signerB) hash_final].
Proof. vm_compute. reflexivity. Defined.

Lemma buildAndSignMultisigUserOp_signs_only_hashes_witness :
  In (EvSignMessage (privateKey signerA) hash_base)
     (trace (buildAndSignMultisigUserOp plain url wallet [signerA; signerB] mult_1_2 data))
  /\ exists signer p,
       In signer [signerA; signerB] /\ privateKey signerA = privateKey signer
       /\ readContract_getUserOpHash plain p = Ok hash_base.
Proof.
  assert (Hin : In (EvSignMessage (privateKey signerA) hash_base)
                   (trace (buildAndSignMultisigUserOp plain url wallet [signerA; signerB]
                             mult_1_2 data))).
  { rewrite run_AB_trace. right. right. left. reflexivity. }
  split; [exact Hin |].
  destruct (buildAndSignMultisigUserOp_signs_only_hashes plain url wallet [signerA; signerB]
              mult_1_2 data _ _ Hin) as (s & p & pre & post & Hs & Hk & Hh & _).
  exists s, p. repeat split; assumption.
Defined.

Lemma buildAndSignMultisigUserOp_hashes_unsigned_operation_witness :
  In (EvGetUserOpHash packedBase)
     (trace (buildAndSignMultisigUserOp plain url wallet [signerA; signerB] mult_1_2 data))
  /\ packed_sender packedBase = wallet
  /\ packed_signature packedBase = "0x".
Proof.
  assert (Hin : In (EvGetUserOpHash packedBase)
                   (trace (buildAndSignMultisigUserOp plain url wallet [signerA; signerB]
                             mult_1_2 data))).
  { rewrite run_AB_trace. right. left. reflexivity. }
  split; [exact Hin |].
  destruct (buildAndSignMultisigUserOp_hashes_unsigned_operation plain url wallet
              [signerA; signerB] mult_1_2 data packedBase Hin) as (H1 & _ & _ & _ & _ & H6).
  split; assumption.
Defined.

Lemma passes_refusing_A :
  passes refusing base [signerA] [entryA] (signEvents packedBase signerA hash_base ++ []).
Proof.
  apply (passes_cons refusing base signerA [] entryA [] packedBase hash_base []);
    [vm_compute; reflexivity | reflexivity | reflexivity | reflexivity | reflexivity
    | constructor].
Defined.

Lemma buildAndSignMultisigUserOp_early_failure_witness :
  outcome (signUserOp refusing signerB base) = Err (Rejected "user rejected signing")
  /\ buildAndSignMultisigUserOp refusing url wallet ([signerA] ++ signerB :: [signerA])
       mult_1_2 data
     = (EvGetAccountNonce wallet
          :: (signEvents packedBase signerA hash_base ++ [])
          ++ trace (signUserOp refusing signerB base),
        Err (Rejected "user rejected signing")).
Proof.
  assert (Hfail : outcome (signUserOp refusing signerB base)
                  = Err (Rejected "user rejected signing")) by (vm_compute; reflexivity).
  split; [exact Hfail |].
  refine (proj1 (buildAndSignMultisigUserOp_early_failure refusing url wallet [signerA] signerB
                   [signerA] mult_1_2 data 5 [entryA] _ _ eq_refl _ _ passes_refusing_A Hfail));
    discriminate.
Defined.

Lemma run_constantWallet_returns :
  exists final,
    outcome (buildAndSignMultisigUserOp constantWallet url wallet [signerA; signerB]
               mult_1_2 data) = Ok final.
Proof. eexists. vm_compute. reflexivity. Defined.

Lemma buildAndSignMultisigUserOp_signature_length_witness :
  exists final bs,
    outcome (buildAndSignMultisigUserOp constantWallet url wallet [signerA; signerB]
               mult_1_2 data) = Ok final
    /\ hexBytes (signature final) = Some bs
    /\ List.length bs = 130%nat.
Proof.
  destruct run_constantWallet_returns as [final H]. exists final.
  destruct (buildAndSignMultisigUserOp_signature_length constantWallet url wallet
              [signerA; signerB] mult_1_2 data final) as (bs & Hbs & Hlen).
  - intros key hash s Hs. cbn [constantWallet signMessage] in Hs.
    assert (Es : s = sig_signature entryA) by congruence. subst s.
    eexists. split; [vm_compute; reflexivity |]. split; [reflexivity |].
    vm_compute. discriminate.
  - repeat constructor.
  - exact H.
  - exists bs. repeat split; assumption.
Defined.

Lemma encode_batch_returns :
  exists encoded_,
    encodeCallData (CallArray [callTransfer; callPlain; callShort]) = AbiOk encoded_.
Proof. eexists. vm_compute. reflexivity. Defined.

Lemma encodeCallData_selector_witness :
  exists encoded_,
    encodeCallData (CallArray [callTransfer; callPlain; callShort]) = AbiOk encoded_
    /\ str_take 10 encoded_ = "0x47e1da2a".
Proof.
  destruct encode_batch_returns as [e He]. exists e. split; [exact He |].
  exact (encodeCallData_selector _ e He).
Defined.

Lemma encodeCallData_single_call_witness :
  isAddress (call_to callTransfer) = true
  /\ encodeCallData (SingleCall callShort)
     = AbiOk ("0xb61d27f6" +++ addressWord (call_to callShort) +++ word 5 +++ word 96
              +++ word 4 +++ "deadbeef" +++ zeros 56)
  /\ bytesOfDigits ("deadbeef" +++ zeros 56) = Some ([222; 173; 190; 239] ++ repeat 0 28).
Proof.
  split; [vm_compute; reflexivity |].
  destruct (encodeCallData_single_call callShort "deadbeef" [222; 173; 190; 239])
    as (H1 & _ & _ & _ & H5 & _).
  - vm_compute. reflexivity.
  - cbn [callShort call_value]. split; [lia |]. apply Z.lt_le_trans with (2 ^ 3);
      [reflexivity | apply Z.pow_le_mono_r; lia].
  - reflexivity.
  - reflexivity.
  - cbn [List.length Z.of_nat]. apply Z.lt_le_trans with (2 ^ 3);
      [reflexivity | apply Z.pow_le_mono_r; lia].
  - split; [exact H1 | exact H5].
Defined.

Lemma encodeCallData_rejects_witness :
  isAddress (call_to callBadChecksum) = false
  /\ encodeCallData (SingleCall callBadChecksum) = AbiErr InvalidAddressError
  /\ encodeCallData (CallArray [callPlain; callBadChecksum]) = AbiErr InvalidAddressError.
Proof.
  assert (H : isAddress (call_to callBadChecksum) = false) by (vm_compute; reflexivity).
  split; [exact H |]. split.
  - exact (proj1 encodeCallData_rejects callBadChecksum H).
  - apply (proj2 (proj2 encodeCallData_rejects) _ callBadChecksum); [| exact H].
    right. left. reflexivity.
Defined.

Lemma encodeCallData_call_array_witness :
  exists encoded_ funcs,
    encodeCallData (CallArray [callTransfer; callPlain; callShort]) = AbiOk encoded_
    /\ encoded_
       = "0x47e1da2a" +++ word 96 +++ word (128 + 32 * 3) +++ word (160 + 64 * 3)
         +++ (word 3 +++ concatWords (map (fun c => addressWord (call_to c))
                                          [callTransfer; callPlain; callShort]))
         +++ (word 3 +++ concatWords (map (fun c => word (call_value c))
                                          [callTransfer; callPlain; callShort]))
         +++ (word 3 +++ funcs).
Proof.
  destruct encode_batch_returns as [e He].
  destruct (encodeCallData_call_array _ e He) as (_ & funcs & H).
  exists e, funcs. split; [exact He | exact H].
Defined.

Lemma passes_plain_A :
  passes plain base [signerA] [entryA] (signEvents packedBase signerA hash_base ++ []).
Proof.
  apply (passes_cons plain base signerA [] entryA [] packedBase hash_base []);
    [vm_compute; reflexivity | reflexivity | reflexivity | reflexivity | reflexivity
    | constructor].
Defined.

Lemma buildAndSignMultisigUserOp_estimation_failure_witness :
  outcome (estimateUserOp plain url base (List.length ([signerA] ++ [signerB])) mult_0_5)
  = Err InvalidConfig
  /\ buildAndSignMultisigUserOp plain url wallet ([signerA] ++ [signerB]) mult_0_5 data
     = (EvGetAccountNonce wallet
          :: (signEvents packedBase signerA hash_base ++ [])
          ++ trace (estimateUserOp plain url base (List.length ([signerA] ++ [signerB]))
                      mult_0_5),
        Err InvalidConfig).
Proof.
  assert (Hfail : outcome (estimateUserOp plain url base (List.length ([signerA] ++ [signerB]))
                             mult_0_5) = Err InvalidConfig) by (vm_compute; reflexivity).
  split; [exact Hfail |].
  refine (proj1 (buildAndSignMultisigUserOp_estimation_failure plain url wallet [signerA]
                   signerB mult_0_5 data 5 [entryA] _ _ eq_refl _ passes_plain_A Hfail)).
  discriminate.
Defined.
